(** * Match normalization, status inference and round selection

    A shallow embedding of the match layer of the odds checker:

    - [lib/match-normalizer.ts]: the per-shape normalizers, the time filter,
      the sorter and the dispatcher [normalizeMatches];
    - [lib/leagues/utils.ts]: the unified status classifier, the round
      selector and its relevance filter;
    - the inline status classification of the German Bundesliga route, and
      the route itself from the parsed cache on: its round slices, its round
      search, its display filter and the mock odds of its response.

    The normalizer works on untyped payloads ([any]), so raw records are JSON
    values and every property read, truthiness test and type error of the
    source is written out.  The ambient effects of the source (the wall clock
    [new Date()], [Math.random()], [console.warn]) are threaded through an
    explicit [World]. *)

From Stdlib Require Import ZArith QArith Qabs Qround List String Ascii Bool Lia DecimalString.
From Stdlib Require Import Permutation Sorted.
Import ListNotations.
Local Open Scope string_scope.
Local Open Scope list_scope.
Local Open Scope Z_scope.

(** ** JavaScript values and strings *)

Module JS.

(** Numbers are modelled as exact rationals: the code compares, subtracts and
    divides integer millisecond counts, where rounding is monotone and does not
    move any of the comparisons against 0 and 120. *)
#[warnings="-register-all"]
Inductive json : Type :=
| JUndef
| JNull
| JBool (b : bool)
| JNum (q : Q)
| JStr (s : string)
| JObj (fields : list (string * json)).

(** ToBoolean. *)
Definition truthy (v : json) : bool :=
  match v with
  | JUndef | JNull => false
  | JBool b => b
  | JNum q => negb (Qeq_bool q 0)
  | JStr s => negb (String.eqb s "")
  | JObj _ => true
  end.

(** [a || b] on values already evaluated (used where [b] has no effect). *)
Definition or_else (a b : json) : json := if truthy a then a else b.

Definition nullish (v : json) : bool :=
  match v with JUndef | JNull => true | _ => false end.

Fixpoint lookup (k : string) (fs : list (string * json)) : option json :=
  match fs with
  | [] => None
  | (k', v) :: fs' => if String.eqb k k' then Some v else lookup k fs'
  end.

Definition has_own (k : string) (v : json) : bool :=
  match v with
  | JObj fs => match lookup k fs with Some _ => true | None => false end
  | _ => false
  end.

(** [o?.k]: [undefined] on a nullish base; on a primitive the keys read by
    this code are not properties of the wrapper objects, so the read gives
    [undefined] as well. *)
Definition opt_get (o : json) (k : string) : json :=
  match o with
  | JObj fs => match lookup k fs with Some v => v | None => JUndef end
  | _ => JUndef
  end.

(** *** Strings *)

Definition includes (s sub : string) : bool :=
  match index 0 sub s with Some _ => true | None => false end.

(** [s.split(sep)] for a one-character separator. *)
Fixpoint split_on (sep : ascii) (s : string) : list string :=
  match s with
  | EmptyString => [EmptyString]
  | String c s' =>
      if Ascii.eqb c sep then EmptyString :: split_on sep s'
      else match split_on sep s' with
           | [] => [String c EmptyString]
           | w :: ws => String c w :: ws
           end
  end.

(** [word[0]]: the first character, [undefined] (here [None]) on the empty
    string. *)
Definition char0 (w : string) : option string :=
  match w with
  | EmptyString => None
  | String c _ => Some (String c EmptyString)
  end.

(** [arr.join('')]: [undefined] elements print as the empty string. *)
Fixpoint join_empty (l : list (option string)) : string :=
  match l with
  | [] => EmptyString
  | None :: l' => join_empty l'
  | Some s :: l' => (s ++ join_empty l')%string
  end.

Definition is_lower (c : ascii) : bool :=
  let n := nat_of_ascii c in (97 <=? n)%nat && (n <=? 122)%nat.

Definition is_upper (c : ascii) : bool :=
  let n := nat_of_ascii c in (65 <=? n)%nat && (n <=? 90)%nat.

Definition upper_char (c : ascii) : ascii :=
  if is_lower c then ascii_of_nat (nat_of_ascii c - 32) else c.

Definition lower_char (c : ascii) : ascii :=
  if is_upper c then ascii_of_nat (nat_of_ascii c + 32) else c.

Fixpoint map_string (f : ascii -> ascii) (s : string) : string :=
  match s with
  | EmptyString => EmptyString
  | String c s' => String (f c) (map_string f s')
  end.

(** Case mapping on the ASCII letters; other code units are left alone. *)
Definition toUpperCase : string -> string := map_string upper_char.
Definition toLowerCase : string -> string := map_string lower_char.

(** The class [\s] on the ASCII range: TAB, LF, VT, FF, CR and SPACE. *)
Definition is_space (c : ascii) : bool :=
  let n := nat_of_ascii c in ((9 <=? n)%nat && (n <=? 13)%nat) || (n =? 32)%nat.

(** [s.replace(/\s+/g, '-')]: every maximal run of white space becomes one
    hyphen.  [in_run] tells that the previous character was white space. *)
Fixpoint replace_ws_from (in_run : bool) (s : string) : string :=
  match s with
  | EmptyString => EmptyString
  | String c s' =>
      if is_space c
      then if in_run then replace_ws_from true s'
           else String "-" (replace_ws_from true s')
      else String c (replace_ws_from false s')
  end.

Definition replace_ws (s : string) : string := replace_ws_from false s.


(** *** Exceptions, the ambient world and the effect monad *)

Inductive exn : Type := TypeError | RangeError.

Inductive Res (A : Type) : Type :=
| Ok (a : A)
| Throw (e : exn).
Arguments Ok {A} a.
Arguments Throw {A} e.

(** What the engine decides and the language leaves open: the offset of local
    time (in milliseconds, as a function of the local time value), the parse
    of a date string outside the ECMAScript date-time format, and the printing
    of a number that is not a plain integer. *)
Record Host : Type := mkHost {
  LocalTZA : Z -> Z;
  legacyParse : string -> option Z;
  numberToString : Q -> string
}.

(** The wall clock and the random source are sequences of readings; the two
    counters say how many readings were consumed.  [console] collects the
    warnings. *)
Record World : Type := mkWorld {
  host : Host;
  clock : nat -> Z;
  random : nat -> Q;
  clock_reads : nat;
  random_draws : nat;
  console : list string
}.

Definition M (A : Type) : Type := World -> Res A * World.

Definition ret {A} (a : A) : M A := fun w => (Ok a, w).

Definition throw {A} (e : exn) : M A := fun w => (Throw e, w).

Definition bind {A B} (m : M A) (k : A -> M B) : M B :=
  fun w => match m w with
           | (Ok a, w') => k a w'
           | (Throw e, w') => (Throw e, w')
           end.

Definition lift {A} (r : Res A) : M A := fun w => (r, w).

Notation "x <- m ;; k" := (bind m (fun x => k))
  (at level 61, m at next level, right associativity).

(** [new Date().getTime()] and [Date.now()]. *)
Definition Date_now : M Z :=
  fun w => (Ok (clock w (clock_reads w)),
            mkWorld (host w) (clock w) (random w)
                    (S (clock_reads w)) (random_draws w) (console w)).

(** [Math.random()]. *)
Definition Math_random : M Q :=
  fun w => (Ok (random w (random_draws w)),
            mkWorld (host w) (clock w) (random w)
                    (clock_reads w) (S (random_draws w)) (console w)).

Definition console_warn (msg : string) : M unit :=
  fun w => (Ok tt,
            mkWorld (host w) (clock w) (random w)
                    (clock_reads w) (random_draws w) (console w ++ [msg])).

Definition get_host : M Host := fun w => (Ok (host w), w).

(** [arr.map(f)] for an effectful callback, left to right. *)
Fixpoint mapM {A B} (f : A -> M B) (l : list A) : M (list B) :=
  match l with
  | [] => ret []
  | x :: l' => y <- f x ;; ys <- mapM f l' ;; ret (y :: ys)
  end.

(** [arr.filter(p)] for an effectful predicate. *)
Fixpoint filterM {A} (p : A -> M bool) (l : list A) : M (list A) :=
  match l with
  | [] => ret []
  | x :: l' =>
      keep <- p x ;; ys <- filterM p l' ;; ret (if keep then x :: ys else ys)
  end.

(** [o.k]: a [TypeError] on a nullish base. *)
Definition get (o : json) (k : string) : M json :=
  if nullish o then throw TypeError else ret (opt_get o k).

End JS.

(** ** Dates

    A [Date] object is its time value: milliseconds since the epoch, or
    [None] for an invalid date (time value NaN). *)

Module JSDate.
Import JS.

Definition Date : Type := option Z.

Definition msPerDay : Z := 86400000.
Definition maxTime : Z := 8640000000000000.

(** Days since the epoch of a proleptic Gregorian date (month 1..12). *)
Definition days_from_civil (y m d : Z) : Z :=
  let y' := if m <=? 2 then y - 1 else y in
  let era := y' / 400 in
  let yoe := y' - era * 400 in
  let mp := if 2 <? m then m - 3 else m + 9 in
  let doy := (153 * mp + 2) / 5 + d - 1 in
  let doe := yoe * 365 + yoe / 4 - yoe / 100 + doy in
  era * 146097 + doe - 719468.

(** The inverse: year, month and day of a day number. *)
Definition civil_from_days (z : Z) : Z * Z * Z :=
  let z' := z + 719468 in
  let era := z' / 146097 in
  let doe := z' - era * 146097 in
  let yoe := (doe - doe / 1460 + doe / 36524 - doe / 146096) / 365 in
  let doy := doe - (365 * yoe + yoe / 4 - yoe / 100) in
  let mp := (5 * doy + 2) / 153 in
  let d := doy - (153 * mp + 2) / 5 + 1 in
  let m := if mp <? 10 then mp + 3 else mp - 9 in
  let y := yoe + era * 400 in
  (if m <=? 2 then y + 1 else y, m, d).

Definition is_leap (y : Z) : bool :=
  ((y mod 4 =? 0) && negb (y mod 100 =? 0)) || (y mod 400 =? 0).

Definition days_in_month (y m : Z) : Z :=
  if m =? 2 then (if is_leap y then 29 else 28)
  else if (m =? 4) || (m =? 6) || (m =? 9) || (m =? 11) then 30
  else 31.

Definition TimeClip (t : Z) : Date :=
  if Z.abs t <=? maxTime then Some t else None.

(** *** The ECMAScript date-time string format *)

Definition digit_val (c : ascii) : option Z :=
  let n := nat_of_ascii c in
  if (48 <=? n)%nat && (n <=? 57)%nat then Some (Z.of_nat n - 48) else None.

(** Exactly [n] decimal digits at the head of [s]. *)
Fixpoint digits (n : nat) (acc : Z) (s : string) : option (Z * string) :=
  match n with
  | O => Some (acc, s)
  | S n' =>
      match s with
      | String c s' =>
          match digit_val c with
          | Some d => digits n' (acc * 10 + d) s'
          | None => None
          end
      | EmptyString => None
      end
  end.

(** One expected character. *)
Definition expect (c : ascii) (s : string) : option string :=
  match s with
  | String c' s' => if Ascii.eqb c c' then Some s' else None
  | EmptyString => None
  end.

Inductive offset : Type :=
| NoOffset
| Offset (minutes : Z).

Record fields : Type := mkFields {
  f_year : Z; f_month : Z; f_day : Z;
  f_time : option (Z * Z * Z * Z);
  f_offset : offset
}.

(** [YYYY] or a signed six-digit year. *)
Definition parse_year (s : string) : option (Z * string) :=
  match s with
  | String "+" s' => digits 6 0 s'
  | String "-" s' =>
      match digits 6 0 s' with
      | Some (y, r) => if y =? 0 then None else Some (- y, r)
      | None => None
      end
  | _ => digits 4 0 s
  end.

(** [Z], [+HH:mm], [-HH:mm] or nothing, then the end of the string. *)
Definition parse_offset (s : string) : option offset :=
  match s with
  | EmptyString => Some NoOffset
  | String "Z" EmptyString => Some (Offset 0)
  | String sg s' =>
      if Ascii.eqb sg "+" || Ascii.eqb sg "-" then
        match digits 2 0 s' with
        | Some (h, r1) =>
            match expect ":" r1 with
            | Some r2 =>
                match digits 2 0 r2 with
                | Some (m, EmptyString) =>
                    Some (Offset ((if Ascii.eqb sg "-" then -1 else 1) * (h * 60 + m)))
                | _ => None
                end
            | None => None
            end
        | None => None
        end
      else None
  end.

(** [HH:mm], [HH:mm:ss] or [HH:mm:ss.sss], then the offset. *)
Definition parse_time (s : string) : option ((Z * Z * Z * Z) * offset) :=
  match digits 2 0 s with
  | Some (h, r1) =>
      match expect ":" r1 with
      | Some r2 =>
          match digits 2 0 r2 with
          | Some (m, r3) =>
              match expect ":" r3 with
              | Some r4 =>
                  match digits 2 0 r4 with
                  | Some (sec, r5) =>
                      match expect "." r5 with
                      | Some r6 =>
                          match digits 3 0 r6 with
                          | Some (ms, r7) =>
                              option_map (fun o => ((h, m, sec, ms), o)) (parse_offset r7)
                          | None => None
                          end
                      | None => option_map (fun o => ((h, m, sec, 0), o)) (parse_offset r5)
                      end
                  | None => None
                  end
              | None => option_map (fun o => ((h, m, 0, 0), o)) (parse_offset r3)
              end
          | None => None
          end
      | None => None
      end
  | None => None
  end.

(** After the date part: the end of the string, or [T] and a time. *)
Definition parse_rest (y m d : Z) (s : string) : option fields :=
  match s with
  | EmptyString => Some (mkFields y m d None NoOffset)
  | String "T" s' =>
      option_map (fun to => mkFields y m d (Some (fst to)) (snd to)) (parse_time s')
  | _ => None
  end.

(** The syntax of the format; [None] for a string outside it. *)
Definition parse_fields (s : string) : option fields :=
  match parse_year s with
  | Some (y, r1) =>
      match expect "-" r1 with
      | Some r2 =>
          match digits 2 0 r2 with
          | Some (m, r3) =>
              match expect "-" r3 with
              | Some r4 =>
                  match digits 2 0 r4 with
                  | Some (d, r5) => parse_rest y m d r5
                  | None => None
                  end
              | None => parse_rest y m 1 r3
              end
          | None => None
          end
      | None => parse_rest y 1 1 r1
      end
  | None => None
  end.

Definition time_in_range (t : Z * Z * Z * Z) : bool :=
  let '(h, m, s, ms) := t in
  ((h <=? 23) && (m <=? 59) && (s <=? 59))
  || ((h =? 24) && (m =? 0) && (s =? 0) && (ms =? 0)).

Definition offset_in_range (o : offset) : bool :=
  match o with
  | NoOffset => true
  | Offset n => (Z.abs n / 60 <=? 23) && (Z.abs n mod 60 <=? 59)
  end.

Definition ms_of_time (t : Z * Z * Z * Z) : Z :=
  let '(h, m, s, ms) := t in ((h * 60 + m) * 60 + s) * 1000 + ms.

(** [Date.parse]: a string of the format with element values in range has
    the time value the language prescribes (a date alone is UTC, a date and
    time without offset is local time); element values out of range give NaN;
    a string outside the format, or a day past the end of its month, is left
    to the engine. *)
Definition Date_parse (h : Host) (s : string) : Date :=
  match parse_fields s with
  | None => legacyParse h s
  | Some f =>
      let time_ok := match f_time f with Some t => time_in_range t | None => true end in
      if negb ((1 <=? f_month f) && (f_month f <=? 12) && (1 <=? f_day f)
               && (f_day f <=? 31) && time_ok && offset_in_range (f_offset f))
      then None
      else if days_in_month (f_year f) (f_month f) <? f_day f then legacyParse h s
      else
        let day := days_from_civil (f_year f) (f_month f) (f_day f) in
        match f_time f with
        | None => TimeClip (day * msPerDay)
        | Some t =>
            let local := day * msPerDay + ms_of_time t in
            match f_offset f with
            | Offset n => TimeClip (local - n * 60000)
            | NoOffset => TimeClip (local - LocalTZA h local)
            end
        end
  end.

(** ToString of a plain integer below 10^21; other numbers are printed by
    the engine. *)
Definition Z_to_string (n : Z) : string :=
  DecimalString.NilZero.string_of_int (Z.to_int n).

Definition Number_toString (h : Host) (q : Q) : string :=
  let r := Qred q in
  if (Qden r =? 1)%positive && (Z.abs (Qnum r) <? 10 ^ 21)
  then Z_to_string (Qnum r) else numberToString h q.

(** ToString of a value, as a template literal applies it; an object with an
    own (hence not callable) [toString] cannot be converted. *)
Definition ToString (h : Host) (v : json) : Res string :=
  match v with
  | JUndef => Ok "undefined"
  | JNull => Ok "null"
  | JBool true => Ok "true"
  | JBool false => Ok "false"
  | JNum q => Ok (Number_toString h q)
  | JStr s => Ok s
  | JObj _ => if has_own "toString" v then Throw TypeError else Ok "[object Object]"
  end.

(** [new Date(v)] for one argument: a string is parsed, any other primitive
    is turned into a number and clipped to the range of time values, an
    object is first turned into a primitive. *)
Definition new_Date (h : Host) (v : json) : Res Date :=
  match v with
  | JStr s => Ok (Date_parse h s)
  | JUndef => Ok None
  | JNull => Ok (TimeClip 0)
  | JBool b => Ok (TimeClip (if b then 1 else 0))
  | JNum q =>
      Ok (if Qle_bool (Qabs q) (inject_Z maxTime)
          then Some (Z.quot (Qnum q) (Zpos (Qden q))) else None)
  | JObj _ =>
      if has_own "toString" v then Throw TypeError
      else Ok (Date_parse h "[object Object]")
  end.

(** *** toISOString *)

Definition digit_char (d : Z) : ascii := ascii_of_nat (48 + Z.to_nat d).

Fixpoint pad_dec (width : nat) (n : Z) : string :=
  match width with
  | O => EmptyString
  | S w => (pad_dec w (n / 10) ++ String (digit_char (n mod 10)) EmptyString)%string
  end.

Definition year_string (y : Z) : string :=
  if (0 <=? y) && (y <=? 9999) then pad_dec 4 y
  else if y <? 0 then String "-" (pad_dec 6 (- y))
  else String "+" (pad_dec 6 y).

Definition iso_of_time (t : Z) : string :=
  let day := t / msPerDay in
  let ms := t mod msPerDay in
  let '(y, m, d) := civil_from_days day in
  (year_string y ++ "-" ++ pad_dec 2 m ++ "-" ++ pad_dec 2 d ++ "T"
   ++ pad_dec 2 (ms / 3600000) ++ ":" ++ pad_dec 2 (ms / 60000 mod 60) ++ ":"
   ++ pad_dec 2 (ms / 1000 mod 60) ++ "." ++ pad_dec 3 (ms mod 1000) ++ "Z")%string.

(** [d.toISOString()]: a [RangeError] on an invalid date. *)
Definition toISOString (d : Date) : Res string :=
  match d with
  | Some t => Ok (iso_of_time t)
  | None => Throw RangeError
  end.

(** Arithmetic on numbers that may be NaN ([None]). *)
Definition minutes_between (now : Z) (kickoff : Date) : option Q :=
  match kickoff with
  | Some k => Some (inject_Z (now - k) / inject_Z (1000 * 60))%Q
  | None => None
  end.

Definition Qlt_bool (a b : Q) : bool := negb (Qle_bool b a).

(** [x >= a], [x < b] on a number that may be NaN: false on NaN. *)
Definition nan_ge (x : option Q) (a : Q) : bool :=
  match x with Some q => Qle_bool a q | None => false end.

Definition nan_lt (x : option Q) (b : Q) : bool :=
  match x with Some q => Qlt_bool q b | None => false end.

End JSDate.

(** ** The match normalizer ([lib/match-normalizer.ts]) *)

Module Normalizer.
Import JS JSDate.

(** The normalized match.  The fields hold whatever the normalizer stored:
    the types of the interface are erased at run time, and the pass-through
    of an already formatted match copies the upstream values as they are.
    An absent key reads as [JUndef]. *)
Record NormalizedMatch : Type := mkNormalizedMatch {
  id : json;
  league : json;
  homeTeam : json;
  awayTeam : json;
  kickoffTime : json;
  status : json;
  round : json;
  season : json;
  bestOdds : json;
  pageUrl : json;
  liveTime : json
}.

Definition leagueInfo (i n c l : string) : json :=
  JObj [("id", JStr i); ("name", JStr n); ("country", JStr c); ("logoUrl", JStr l)].

Module LEAGUE_CONFIGS.
Definition AUSTRIAN_BUNDESLIGA : json :=
  leagueInfo "OEBL1" "Österreichische Bundesliga" "Austria" "/logos/austrian-bundesliga.png".
Definition AUSTRIAN_2LIGA : json :=
  leagueInfo "OEBL2" "Österreichische 2. Liga" "Austria" "/logos/austrian-2liga.png".
Definition GERMAN_BUNDESLIGA : json :=
  leagueInfo "DE1" "Deutsche Bundesliga" "Germany" "/logos/bundesliga.png".
Definition GERMAN_2BUNDESLIGA : json :=
  leagueInfo "DE2" "Deutsche 2. Bundesliga" "Germany" "/logos/2bundesliga.png".
Definition PREMIER_LEAGUE : json :=
  leagueInfo "EPL" "Premier League" "England" "/logos/premier-league.png".
Definition CHAMPIONSHIP : json :=
  leagueInfo "EFL" "English Championship" "England" "/logos/championship.png".
Definition LEAGUE_ONE : json :=
  leagueInfo "EFL1" "English League One" "England" "/logos/league1.png".
End LEAGUE_CONFIGS.

Inductive Status : Type := SCHEDULED | LIVE | FINISHED | CANCELLED.

Definition status_string (s : Status) : string :=
  match s with
  | SCHEDULED => "SCHEDULED"
  | LIVE => "LIVE"
  | FINISHED => "FINISHED"
  | CANCELLED => "CANCELLED"
  end.

(** A parameter with a default value: the default replaces [undefined] only. *)
Definition default_arg (v d : json) : json :=
  match v with JUndef => d | _ => v end.

(** [name.split(' ').map(word => word[0]).join('').substring(0, 3).toUpperCase()];
    the method call is a [TypeError] on anything but a string. *)
Definition generateShortName (name : json) : Res string :=
  match name with
  | JStr s => Ok (toUpperCase (substring 0 3 (join_empty (map char0 (split_on " " s)))))
  | _ => Throw TypeError
  end.

(** [name.replace(/\s+/g, '-').toLowerCase()]. *)
Definition generateTeamId (name : json) : Res string :=
  match name with
  | JStr s => Ok (toLowerCase (replace_ws s))
  | _ => Throw TypeError
  end.

Definition determineStatus (kickoffTime : Date)
    (finished started cancelled ongoing : json) : M Status :=
  if truthy cancelled then ret CANCELLED
  else if truthy finished then ret FINISHED
  else
    now <- Date_now ;;
    let minutesElapsed := minutes_between now kickoffTime in
    if truthy started || (nan_ge minutesElapsed 0 && nan_lt minutesElapsed 120)
    then ret LIVE
    else if truthy ongoing then ret LIVE
    else ret SCHEDULED.

Definition parseUTCTime (timeString : json) : M Date :=
  match timeString with
  | JStr s =>
      h <- get_host ;;
      if includes s "T" && negb (includes s "Z") && negb (includes s "+")
      then lift (new_Date h (JStr (s ++ "Z")))
      else lift (new_Date h (JStr s))
  | _ => throw TypeError
  end.

(** The team literal shared by the weekend and the Bundesliga normalizers,
    for [t] the upstream team object:
    [{ id: t?.id || generateTeamId(t?.name || ''), name: t?.name || '',
       shortName: generateShortName(t?.name || ''), logoUrl: null,
       score: t?.score || null }]. *)
Definition teamOf (t : json) : M json :=
  let name := or_else (opt_get t "name") (JStr "") in
  tid <- (if truthy (opt_get t "id") then ret (opt_get t "id")
          else s <- lift (generateTeamId name) ;; ret (JStr s)) ;;
  shortName <- lift (generateShortName name) ;;
  ret (JObj [("id", tid); ("name", name); ("shortName", JStr shortName);
             ("logoUrl", JNull); ("score", or_else (opt_get t "score") JNull)]).

Definition normalizeAustrianWeekendMatch (match_ leagueConfig : json)
  : M NormalizedMatch :=
  let leagueConfig := default_arg leagueConfig LEAGUE_CONFIGS.AUSTRIAN_BUNDESLIGA in
  utcTime <- get match_ "utcTime" ;;
  kickoffUTC <- parseUTCTime utcTime ;;
  st <- get match_ "status" ;;
  status <- determineStatus kickoffUTC (opt_get st "finished") (opt_get st "started")
                            (opt_get st "cancelled") JUndef ;;
  mid <- get match_ "id" ;;
  home <- get match_ "homeTeam" ;;
  homeTeam <- teamOf home ;;
  away <- get match_ "awayTeam" ;;
  awayTeam <- teamOf away ;;
  iso <- lift (toISOString kickoffUTC) ;;
  round <- get match_ "round" ;;
  season <- get match_ "season" ;;
  bestOdds <- get match_ "bestOdds" ;;
  ret (mkNormalizedMatch mid leagueConfig homeTeam awayTeam (JStr iso)
         (JStr (status_string status)) round season bestOdds JUndef JUndef).

Definition normalizeGermanBundesligaMatch (match_ leagueConfig round : json)
  : M NormalizedMatch :=
  let leagueConfig := default_arg leagueConfig LEAGUE_CONFIGS.GERMAN_BUNDESLIGA in
  st <- get match_ "status" ;;
  kickoffUTC <- parseUTCTime (opt_get st "utcTime") ;;
  status <- determineStatus kickoffUTC (opt_get st "finished") (opt_get st "started")
                            (opt_get st "cancelled") (opt_get st "ongoing") ;;
  mid <- get match_ "id" ;;
  home <- get match_ "home" ;;
  homeTeam <- teamOf home ;;
  away <- get match_ "away" ;;
  awayTeam <- teamOf away ;;
  iso <- lift (toISOString kickoffUTC) ;;
  mround <- get match_ "round" ;;
  season <- get match_ "season" ;;
  pageUrl <- get match_ "pageUrl" ;;
  ret (mkNormalizedMatch mid leagueConfig homeTeam awayTeam (JStr iso)
         (JStr (status_string status)) (or_else round mround)
         (or_else season (JStr "2024/25")) JUndef pageUrl
         (or_else (opt_get (opt_get st "liveTime") "short") (opt_get st "liveTime"))).

(** [v?.replace(/\s+/g, '-').toLowerCase()]: the chain stops on a nullish
    [v]; otherwise the method call needs a string. *)
Definition slugOpt (v : json) : Res json :=
  match v with
  | JUndef | JNull => Ok JUndef
  | JStr s => Ok (JStr (toLowerCase (replace_ws s)))
  | _ => Throw TypeError
  end.

(** [{ odd: upstream || (base + Math.random() * spread), bookmaker }]: the
    random source is read only when the upstream price is falsy. *)
Definition oddOf (upstream : json) (base spread : Q) (bookmaker : string) : M json :=
  odd <- (if truthy upstream then ret upstream
          else r <- Math_random ;; ret (JNum (base + r * spread)%Q)) ;;
  ret (JObj [("odd", odd); ("bookmaker", JStr bookmaker)]).

(** The team literal of the Pinnacle normalizer, for [n] the upstream name:
    [{ id: generateTeamId(n || ''), name: n || '',
       shortName: generateShortName(n || ''), logoUrl: null }]. *)
Definition pinnacleTeamOf (n : json) : M json :=
  let name := or_else n (JStr "") in
  tid <- lift (generateTeamId name) ;;
  shortName <- lift (generateShortName name) ;;
  ret (JObj [("id", JStr tid); ("name", name); ("shortName", JStr shortName);
             ("logoUrl", JNull)]).

Definition normalizePinnacleMatch (match_ leagueConfig round : json)
  : M NormalizedMatch :=
  let leagueConfig := default_arg leagueConfig LEAGUE_CONFIGS.AUSTRIAN_2LIGA in
  starts <- get match_ "starts" ;;
  kickoffUTC <- parseUTCTime starts ;;
  now <- Date_now ;;
  let minutesElapsed := minutes_between now kickoffUTC in
  let status :=
    if nan_ge minutesElapsed 0 && nan_lt minutesElapsed 120 then LIVE
    else if nan_ge minutesElapsed 120 then FINISHED
    else SCHEDULED in
  periods <- get match_ "periods" ;;
  let moneyLine := or_else (opt_get (opt_get periods "num_0") "money_line") (JObj []) in
  oddHome <- oddOf (opt_get moneyLine "home") (1.85) (1.5) "bet365" ;;
  oddDraw <- oddOf (opt_get moneyLine "draw") (3.10) (0.8) "bwin" ;;
  oddAway <- oddOf (opt_get moneyLine "away") (2.75) (1.2) "tipico" ;;
  let bestOdds := JObj [("home", oddHome); ("draw", oddDraw); ("away", oddAway)] in
  h <- get_host ;;
  home <- get match_ "home" ;;
  homeSlug <- lift (slugOpt home) ;;
  homeStr <- lift (ToString h homeSlug) ;;
  away <- get match_ "away" ;;
  awaySlug <- lift (slugOpt away) ;;
  awayStr <- lift (ToString h awaySlug) ;;
  event_id <- get match_ "event_id" ;;
  eventStr <- lift (ToString h event_id) ;;
  homeTeam <- pinnacleTeamOf home ;;
  awayTeam <- pinnacleTeamOf away ;;
  iso <- lift (toISOString kickoffUTC) ;;
  ret (mkNormalizedMatch
         (JStr (homeStr ++ "-vs-" ++ awayStr ++ "-" ++ eventStr))
         leagueConfig homeTeam awayTeam (JStr iso)
         (JStr (status_string status)) (or_else round (JStr "12. Spieltag"))
         (JStr "2024/25") bestOdds JUndef JUndef).

Definition normalizeFormattedMatch (match_ : json) : M NormalizedMatch :=
  mid <- get match_ "id" ;;
  league <- get match_ "league" ;;
  homeTeam <- get match_ "homeTeam" ;;
  awayTeam <- get match_ "awayTeam" ;;
  kickoffTime <- get match_ "kickoffTime" ;;
  status <- get match_ "status" ;;
  round <- get match_ "round" ;;
  season <- get match_ "season" ;;
  bestOdds <- get match_ "bestOdds" ;;
  pageUrl <- get match_ "pageUrl" ;;
  liveTime <- get match_ "liveTime" ;;
  ret (mkNormalizedMatch mid league homeTeam awayTeam kickoffTime status round
         season bestOdds pageUrl liveTime).

Definition filterRelevantMatches (matches : list NormalizedMatch)
  : M (list NormalizedMatch) :=
  now <- Date_now ;;
  h <- get_host ;;
  filterM (fun m =>
             kickoff <- lift (new_Date h (kickoffTime m)) ;;
             let minutesElapsed := minutes_between now kickoff in
             ret (nan_lt minutesElapsed 120))
          matches.

(** [m.status === 'LIVE']. *)
Definition isLive (m : NormalizedMatch) : bool :=
  match status m with
  | JStr s => String.eqb s "LIVE"
  | _ => false
  end.

(** The comparator of [sortMatches]; the difference of two time values is
    NaN ([None]) when either date is invalid. *)
Definition compareMatches (a b : NormalizedMatch) : M (option Z) :=
  if isLive a && negb (isLive b) then ret (Some (-1))
  else if negb (isLive a) && isLive b then ret (Some 1)
  else
    h <- get_host ;;
    ka <- lift (new_Date h (kickoffTime a)) ;;
    kb <- lift (new_Date h (kickoffTime b)) ;;
    ret (match ka, kb with
         | Some x, Some y => Some (x - y)
         | _, _ => None
         end).

(** [arr.sort(cmp)] is a stable sort; it is written here as the insertion of
    each element, in order, behind everything that does not compare greater.
    A NaN from the comparator counts as zero. *)
Fixpoint insertBy {A} (cmp : A -> A -> M (option Z)) (x : A) (l : list A)
  : M (list A) :=
  match l with
  | [] => ret [x]
  | y :: l' =>
      c <- cmp x y ;;
      match c with
      | Some n => if n <? 0 then ret (x :: y :: l')
                  else r <- insertBy cmp x l' ;; ret (y :: r)
      | None => r <- insertBy cmp x l' ;; ret (y :: r)
      end
  end.

Fixpoint sortFrom {A} (cmp : A -> A -> M (option Z)) (acc l : list A)
  : M (list A) :=
  match l with
  | [] => ret acc
  | x :: l' => acc' <- insertBy cmp x acc ;; sortFrom cmp acc' l'
  end.

Definition sortMatches (matches : list NormalizedMatch)
  : M (list NormalizedMatch) :=
  sortFrom compareMatches [] matches.

Definition normalizeMatches (matches : list json) (source : string)
    (leagueConfig round : json) : M (list NormalizedMatch) :=
  normalizedMatches <-
    (if String.eqb source "austrian-weekend" then
       mapM (fun m => normalizeAustrianWeekendMatch m leagueConfig) matches
     else if String.eqb source "german-bundesliga" then
       mapM (fun m => normalizeGermanBundesligaMatch m
                        (or_else leagueConfig LEAGUE_CONFIGS.GERMAN_BUNDESLIGA) round)
            matches
     else if String.eqb source "german-2bundesliga" then
       mapM (fun m => normalizeGermanBundesligaMatch m
                        (or_else leagueConfig LEAGUE_CONFIGS.GERMAN_2BUNDESLIGA) round)
            matches
     else if String.eqb source "premier-league" then
       mapM (fun m => normalizeGermanBundesligaMatch m
                        (or_else leagueConfig LEAGUE_CONFIGS.PREMIER_LEAGUE) round)
            matches
     else if String.eqb source "pinnacle" then
       mapM (fun m => normalizePinnacleMatch m leagueConfig round) matches
     else if String.eqb source "formatted" then
       mapM normalizeFormattedMatch matches
     else
       _ <- console_warn ("Unknown match source format: " ++ source) ;;
       mapM normalizeFormattedMatch matches) ;;
  filteredMatches <- filterRelevantMatches normalizedMatches ;;
  sortMatches filteredMatches.

End Normalizer.

(** ** The unified league utilities ([lib/leagues/utils.ts]) *)

Module Utils.
Import JS JSDate.

Definition MINUTES_IN_MS : Z := 60 * 1000.
Definition MATCH_DURATION_MS : Z := 105 * MINUTES_IN_MS.
Definition GRACE_PERIOD_MS : Z := 120 * MINUTES_IN_MS.

Inductive Status : Type := LIVE | SCHEDULED | FINISHED.

(** [Match] and [CachedMatch] of [lib/leagues/types.ts], with the fields the
    utilities read. *)
Record Match : Type := mkMatch {
  id : Z;
  homeTeam : string;
  awayTeam : string;
  kickoffTime : string;
  status : Status;
  round : Z
}.

Record CachedMatch : Type := mkCachedMatch {
  fixture_id : Z;
  fixture_date : string;
  fixture_status_short : string;
  teams_home_name : string;
  teams_away_name : string
}.

Record LeagueConfig : Type := mkLeagueConfig {
  config_id : string;
  config_name : string;
  matchesPerRound : nat;
  seasonStartDate : string
}.

(** A subtraction whose right operand may be NaN, and [x < c] on the result. *)
Definition since (now : Z) (kickoff : Date) : option Z :=
  match kickoff with Some k => Some (now - k) | None => None end.

Definition lt_nan (x : option Z) (c : Z) : bool :=
  match x with Some v => v <? c | None => false end.

Definition calculateMatchStatus (kickoffTime : string) (cacheStatus : option string)
  : M Status :=
  h <- get_host ;;
  let kickoff := Date_parse h kickoffTime in
  now <- Date_now ;;
  let timeSinceKickoff := since now kickoff in
  if lt_nan timeSinceKickoff 0 then ret SCHEDULED
  else
    let byCache :=
      match cacheStatus with
      | Some cs =>
          if negb (String.eqb cs "") then
            let st := toUpperCase cs in
            if String.eqb st "FT" || String.eqb st "AET" || String.eqb st "PEN"
            then Some FINISHED
            else if String.eqb st "LIVE" || String.eqb st "1H" || String.eqb st "HT"
                    || String.eqb st "2H"
            then Some LIVE
            else None
          else None
      | None => None
      end in
    match byCache with
    | Some s => ret s
    | None =>
        if lt_nan timeSinceKickoff MATCH_DURATION_MS then ret LIVE
        else if lt_nan timeSinceKickoff GRACE_PERIOD_MS then ret FINISHED
        else ret FINISHED
    end.

(** [arr.slice(i, j)] for [0 <= i <= j]. *)
Definition slice {A} (i j : nat) (l : list A) : list A :=
  firstn (j - i) (skipn i l).

(** The grouping loop
    [for (let i = 0; i < matches.length; i += matchesPerRound)]; it does not
    end when [matchesPerRound] is 0 and the list is not empty, hence the fuel. *)
Fixpoint buildRounds {A} (fuel i mpr : nat) (matches : list A)
  : option (list (list A)) :=
  if (i <? List.length matches)%nat then
    match fuel with
    | O => None
    | S fuel' =>
        option_map (cons (slice i (i + mpr) matches))
                   (buildRounds fuel' (i + mpr) mpr matches)
    end
  else Some [].

(** [arr[arr.length - 1]] on a list that may be empty. *)
Fixpoint lastOf {A} (l : list A) : option A :=
  match l with
  | [] => None
  | [x] => Some x
  | _ :: l' => lastOf l'
  end.

(** The search loop over the rounds, [roundIndex] counting from 0; an empty
    round is passed over. *)
Fixpoint findRound (h : Host) (now : Z) (roundIndex : nat)
    (rounds : list (list CachedMatch)) : option nat :=
  match rounds with
  | [] => None
  | roundMatches :: rest =>
      match lastOf roundMatches with
      | None => findRound h now (S roundIndex) rest
      | Some lastMatch =>
          let lastKickoff := Date_parse h (fixture_date lastMatch) in
          let timeSinceLastKickoff := since now lastKickoff in
          if lt_nan timeSinceLastKickoff GRACE_PERIOD_MS
          then Some (S roundIndex)
          else findRound h now (S roundIndex) rest
      end
  end.

(** [calculateCurrentRound]; [None] when the grouping loop runs out of
    fuel.  The source also parses [config.seasonStartDate] and never uses the
    result. *)
Definition calculateCurrentRound (fuel : nat) (matches : list CachedMatch)
    (config : LeagueConfig) : M (option nat) :=
  now <- Date_now ;;
  h <- get_host ;;
  ret (match buildRounds fuel 0 (matchesPerRound config) matches with
       | None => None
       | Some rounds =>
           match findRound h now 0 rounds with
           | Some r => Some r
           | None => Some (List.length rounds)
           end
       end).

(** [matches.slice(startIndex, endIndex)] with
    [startIndex = (currentRound - 1) * matchesPerRound]; a negative start
    counts from the end of the list. *)
Definition filterCurrentRoundMatches (matches : list CachedMatch)
    (currentRound : nat) (config : LeagueConfig) : list CachedMatch :=
  let mpr := matchesPerRound config in
  match currentRound with
  | O => slice (List.length matches - mpr) 0 matches
  | S r => slice (r * mpr) (r * mpr + mpr) matches
  end.

Definition filterRelevantMatches (matches : list Match) : M (list Match) :=
  now <- Date_now ;;
  h <- get_host ;;
  ret (filter (fun m =>
                 let kickoff := Date_parse h (kickoffTime m) in
                 let timeSinceKickoff := since now kickoff in
                 match status m with
                 | SCHEDULED => true
                 | LIVE => true
                 | FINISHED => lt_nan timeSinceKickoff GRACE_PERIOD_MS
                 end)
              matches).

End Utils.

(** ** The German Bundesliga route ([app/api/matches/bundesliga/route.ts]) *)

Module BundesligaRoute.
Import JS JSDate.

Inductive DisplayStatus : Type := SCHEDULED | LIVE | FINISHED.

Definition nan_gt (x : option Q) (a : Q) : bool :=
  match x with Some q => Qlt_bool a q | None => false end.

Definition nan_le (x : option Q) (b : Q) : bool :=
  match x with Some q => Qle_bool q b | None => false end.

(** The body of the filtering loop of [GET] for one match of the round:
    the display status of a match that is included, [None] for a match that
    is skipped.  [matchTime > now] compares the two time values and is false
    on an invalid date. *)
Definition GET_displayStatus (now : Z) (matchTime : Date) : option DisplayStatus :=
  let timeDiff := minutes_between now matchTime in
  if match matchTime with Some t => now <? t | None => false end
  then Some SCHEDULED
  else if nan_gt timeDiff 0 && nan_le timeDiff 120 then
    if nan_le timeDiff 105 then Some LIVE else Some FINISHED
  else if nan_gt timeDiff 120 then None
  else None.

End BundesligaRoute.

(** ** Reference definitions, written from the wording of the specification *)

Module Spec.
Import JS JSDate.

(** The initials of the words of a name: a character that is not a space
    and stands first or right after a space. *)
Fixpoint initials (at_start : bool) (s : string) : string :=
  match s with
  | EmptyString => EmptyString
  | String c s' =>
      if Ascii.eqb c " " then initials true s'
      else if at_start then String c (initials false s')
      else initials false s'
  end.

(** Short name: the initials of each word, uppercased, truncated to three
    characters. *)
Definition shortName (name : string) : string :=
  substring 0 3 (toUpperCase (initials true name)).

(** Slug: lowercase, spaces to hyphens. *)
Definition slugify (name : string) : string :=
  map_string (fun c => if Ascii.eqb c " " then "-"%char else lower_char c) name.

(** The names whose white space is single spaces only. *)
Fixpoint singleSpaced (after_space : bool) (s : string) : bool :=
  match s with
  | EmptyString => true
  | String c s' =>
      if is_space c
      then Ascii.eqb c " " && negb after_space && singleSpaced true s'
      else singleSpaced false s'
  end.

(** Consecutive groups of [mpr] elements; the last group may be short.
    [n] bounds the number of groups. *)
Fixpoint groupsOf {A} (n mpr : nat) (l : list A) : list (list A) :=
  match n with
  | O => []
  | S n' =>
      match l with
      | [] => []
      | _ => firstn mpr l :: groupsOf n' mpr (skipn mpr l)
      end
  end.

Definition partition {A} (mpr : nat) (l : list A) : list (list A) :=
  groupsOf (List.length l) mpr l.








End Spec.

(** ** Notions used to state the properties *)

(** The world after one reading of the clock. *)
Definition ticked (w : JS.World) : JS.World :=
  JS.mkWorld (JS.host w) (JS.clock w) (JS.random w)
             (S (JS.clock_reads w)) (JS.random_draws w) (JS.console w).

(** The world after a warning on the console. *)
Definition warned (w : JS.World) (msg : string) : JS.World :=
  JS.mkWorld (JS.host w) (JS.clock w) (JS.random w)
             (JS.clock_reads w) (JS.random_draws w) (JS.console w ++ [msg]).

(** What the time filter of the normalizer decides for one match. *)
Definition keptByTime (h : JS.Host) (now : Z) (m : Normalizer.NormalizedMatch) : bool :=
  match JSDate.new_Date h (Normalizer.kickoffTime m) with
  | JS.Ok (Some k) => now - k <? 7200000
  | _ => false
  end.





(** The tags the dispatcher knows. *)
Definition supported (source : string) : bool :=
  String.eqb source "austrian-weekend" || String.eqb source "german-bundesliga"
  || String.eqb source "german-2bundesliga" || String.eqb source "premier-league"
  || String.eqb source "pinnacle" || String.eqb source "formatted".

(** What the pass-through makes of a record that is not nullish. *)
Definition formattedOf (r : JS.json) : Normalizer.NormalizedMatch :=
  Normalizer.mkNormalizedMatch
    (JS.opt_get r "id") (JS.opt_get r "league") (JS.opt_get r "homeTeam")
    (JS.opt_get r "awayTeam") (JS.opt_get r "kickoffTime") (JS.opt_get r "status")
    (JS.opt_get r "round") (JS.opt_get r "season") (JS.opt_get r "bestOdds")
    (JS.opt_get r "pageUrl") (JS.opt_get r "liveTime").

(** An already formatted record the pipeline can take: an object whose
    kickoff time can be turned into a date, valid or not. *)
Definition formattedRecord (r : JS.json) : Prop :=
  JS.nullish r = false
  /\ JS.has_own "toString" (JS.opt_get r "kickoffTime") = false.

(** The date the normalizer's parser makes of a timestamp string. *)
Definition utcInstant (h : JS.Host) (s : string) : JSDate.Date :=
  JSDate.Date_parse h
    (if JS.includes s "T" && negb (JS.includes s "Z") && negb (JS.includes s "+")
     then s ++ "Z" else s).

(** Where each upstream shape keeps its kickoff timestamp. *)
Definition timestampOf (source : string) (r : JS.json) : JS.json :=
  if String.eqb source "austrian-weekend" then JS.opt_get r "utcTime"
  else if String.eqb source "pinnacle" then JS.opt_get r "starts"
  else JS.opt_get (JS.opt_get r "status") "utcTime".

(** The tags whose normalizer parses the kickoff timestamp itself. *)
Definition parsingSource (source : string) : bool :=
  String.eqb source "austrian-weekend" || String.eqb source "german-bundesliga"
  || String.eqb source "german-2bundesliga" || String.eqb source "premier-league"
  || String.eqb source "pinnacle".

(** The money line the Pinnacle normalizer reads, and the records that carry
    all three prices. *)
Definition moneyLineOf (r : JS.json) : JS.json :=
  JS.or_else (JS.opt_get (JS.opt_get (JS.opt_get r "periods") "num_0") "money_line")
             (JS.JObj []).

Definition priced (r : JS.json) : Prop :=
  JS.truthy (JS.opt_get (moneyLineOf r) "home") = true
  /\ JS.truthy (JS.opt_get (moneyLineOf r) "draw") = true
  /\ JS.truthy (JS.opt_get (moneyLineOf r) "away") = true.

(** The computation fails in this world. *)
Definition throws {A} (m : JS.M A) (w : JS.World) : Prop :=
  exists e, fst (m w) = JS.Throw e.

(** The computation leaves the engine as it found it. *)
Definition keepsHost {A} (m : JS.M A) : Prop :=
  forall w, JS.host (snd (m w)) = JS.host w.

(** Two worlds with the same engine and the same clock; with [rnd], the
    same random source as well.  The console is free. *)
Definition agree (rnd : bool) (w1 w2 : JS.World) : Prop :=
  JS.host w1 = JS.host w2
  /\ (forall n, JS.clock w1 n = JS.clock w2 n)
  /\ JS.clock_reads w1 = JS.clock_reads w2
  /\ (rnd = true ->
      (forall n, JS.random w1 n = JS.random w2 n)
      /\ JS.random_draws w1 = JS.random_draws w2).

(** The computation gives the same result in worlds that agree, and leaves
    them in agreement. *)
Definition deterministic {A} (rnd : bool) (m : JS.M A) : Prop :=
  forall w1 w2, agree rnd w1 w2 ->
    fst (m w1) = fst (m w2) /\ agree rnd (snd (m w1)) (snd (m w2)).

(** ** Engines, worlds and records used in the examples *)

(** An engine on UTC whose fallback parser rejects everything. *)
Definition utcHost : JS.Host :=
  JS.mkHost (fun _ => 0) (fun _ => None) (fun _ => "").


(** A world whose clock stands at [now] and whose random source always
    draws [r]. *)
Definition worldAt (h : JS.Host) (now : Z) (r : Q) : JS.World :=
  JS.mkWorld h (fun _ => now) (fun _ => r) 0 0 [].

(** [2025-08-20T00:00:00Z], the instant of the first end-to-end scenario. *)
Definition scenarioNow : Z := 1755648000000.

(** The weekend record of the first end-to-end scenario. *)
Definition salzburgRapid : JS.json :=
  JS.JObj [("homeTeam", JS.JObj [("name", JS.JStr "RB Salzburg")]);
           ("awayTeam", JS.JObj [("name", JS.JStr "Rapid Wien")]);
           ("utcTime", JS.JStr "2025-08-22T18:30:00Z");
           ("status", JS.JObj [("finished", JS.JBool false);
                               ("started", JS.JBool false)])].

(** The scenario's fixture in the Bundesliga shape. *)
Definition salzburgRapidB : JS.json :=
  JS.JObj [("home", JS.JObj [("name", JS.JStr "RB Salzburg")]);
           ("away", JS.JObj [("name", JS.JStr "Rapid Wien")]);
           ("status", JS.JObj [("utcTime", JS.JStr "2025-08-22T18:30:00Z");
                               ("finished", JS.JBool false);
                               ("started", JS.JBool false)])].

(** A live match that kicked off at 2025-08-22T18:30:00Z. *)
Definition liveMatch : Normalizer.NormalizedMatch :=
  Normalizer.mkNormalizedMatch (JS.JStr "m1") Normalizer.LEAGUE_CONFIGS.AUSTRIAN_BUNDESLIGA
    (JS.JStr "RB Salzburg") (JS.JStr "Rapid Wien")
    (JS.JStr "2025-08-22T18:30:00.000Z") (JS.JStr "LIVE")
    JS.JUndef JS.JUndef JS.JUndef JS.JUndef JS.JUndef.

(** A weekend record whose month is 13. *)
Definition badTimestamp : JS.json :=
  JS.JObj [("homeTeam", JS.JObj [("name", JS.JStr "LASK")]);
           ("awayTeam", JS.JObj [("name", JS.JStr "Sturm Graz")]);
           ("utcTime", JS.JStr "2025-13-22T18:30:00Z");
           ("status", JS.JObj [("finished", JS.JBool false);
                               ("started", JS.JBool false)])].

(** An already formatted record. *)
Definition formattedSalzburg : JS.json :=
  JS.JObj [("id", JS.JStr "m1");
           ("league", Normalizer.LEAGUE_CONFIGS.AUSTRIAN_BUNDESLIGA);
           ("homeTeam", JS.JObj [("name", JS.JStr "RB Salzburg")]);
           ("awayTeam", JS.JObj [("name", JS.JStr "Rapid Wien")]);
           ("kickoffTime", JS.JStr "2025-08-22T18:30:00.000Z");
           ("status", JS.JStr "SCHEDULED")].

(** A Pinnacle record without a money line. *)
Definition pinnacleNoPrices : JS.json :=
  JS.JObj [("home", JS.JStr "SV Horn"); ("away", JS.JStr "FC Liefering");
           ("starts", JS.JStr "2025-08-22T18:30:00"); ("event_id", JS.JNum 1234)].

(** A cached fixture with the given kickoff string. *)
Definition fixtureAt (i : Z) (date : string) : Utils.CachedMatch :=
  Utils.mkCachedMatch i date "NS" "Home" "Away".

(** Two rounds of two matches and a third round of one. *)
Definition fiveFixtures : list Utils.CachedMatch :=
  [fixtureAt 1 "2025-08-22T16:00:00Z"; fixtureAt 2 "2025-08-22T18:30:00Z";
   fixtureAt 3 "2025-08-29T16:00:00Z"; fixtureAt 4 "2025-08-29T18:30:00Z";
   fixtureAt 5 "2025-09-05T18:30:00Z"].

Definition twoPerRound : Utils.LeagueConfig :=
  Utils.mkLeagueConfig "test-league" "Test League" 2 "2025-08-01".

(** ** The German Bundesliga route, from the parsed cache on
    ([app/api/matches/bundesliga/route.ts])

    [allMatches] is the array [cacheData.response.matches].  What
    [console.log] prints is not recorded, but the expressions it prints are
    evaluated, because they can throw. *)

Module BundesligaGET.
Import JS JSDate.

Definition matchesPerRound : Z := 9.

(** [arr.slice(start, end)]: a negative index counts from the end, and both
    indexes are clamped to the array. *)
Definition slice {A} (start end_ : Z) (l : list A) : list A :=
  let len := Z.of_nat (List.length l) in
  let k := if start <? 0 then Z.max (len + start) 0 else Z.min start len in
  let final := if end_ <? 0 then Z.max (len + end_) 0 else Z.min end_ len in
  firstn (Z.to_nat (final - k)) (skipn (Z.to_nat k) l).

Definition getMatchesForRound (allMatches : list json) (roundNumber : Z) : list json :=
  if roundNumber =? 6 then slice 44 54 allMatches
  else if roundNumber =? 7 then slice 54 63 allMatches
  else
    let startIndex := (roundNumber - 6) * matchesPerRound + 44 in
    let endIndex := startIndex + matchesPerRound in
    slice startIndex endIndex allMatches.

(** [new Date(match.status.utcTime)]. *)
Definition matchTimeOf (match_ : json) : M Date :=
  status <- get match_ "status" ;;
  utcTime <- get status "utcTime" ;;
  h <- get_host ;;
  lift (new_Date h utcTime).

(** [a > b] on two dates: false when either is invalid. *)
Definition date_gt (a b : Date) : bool :=
  match a, b with
  | Some x, Some y => y <? x
  | _, _ => false
  end.

(** The search for the last game of a round; [lastGameTime] is [null]
    ([None]) or a date, valid or not. *)
Fixpoint lastGameTimeOf (lastGameTime : option Date) (roundMatches : list json)
  : M (option Date) :=
  match roundMatches with
  | [] => ret lastGameTime
  | match_ :: rest =>
      matchTime <- matchTimeOf match_ ;;
      lastGameTimeOf
        (match lastGameTime with
         | None => Some matchTime
         | Some l => if date_gt matchTime l then Some matchTime else Some l
         end)
        rest
  end.

(** The loop [while (currentRound <= 34)]; [roundsLeft] is
    [35 - currentRound], the number of rounds the condition still admits.
    The log line of a round prints [lastGameTime.toISOString()]. *)
Fixpoint roundLoop (roundsLeft : nat) (allMatches : list json) (now : Z)
    (currentRound : Z) : M Z :=
  match roundsLeft with
  | O => ret currentRound
  | S roundsLeft' =>
      let roundMatches := getMatchesForRound allMatches currentRound in
      match roundMatches with
      | [] => ret currentRound
      | _ :: _ =>
          lastGameTime <- lastGameTimeOf None roundMatches ;;
          match lastGameTime with
          | Some lastGame =>
              _ <- lift (toISOString lastGame) ;;
              let timeSinceLastKickoff := minutes_between now lastGame in
              if nan_lt timeSinceLastKickoff 120 then ret currentRound
              else roundLoop roundsLeft' allMatches now (currentRound + 1)
          | None => ret currentRound
          end
      end
  end.

(** The round search, started at [currentRound = 6]. *)
Definition findCurrentRound (allMatches : list json) (now : Z) : M Z :=
  roundLoop 29 allMatches now 6.

Definition display_string (s : BundesligaRoute.DisplayStatus) : string :=
  match s with
  | BundesligaRoute.SCHEDULED => "SCHEDULED"
  | BundesligaRoute.LIVE => "LIVE"
  | BundesligaRoute.FINISHED => "FINISHED"
  end.

(** [{ ...match, displayStatus }] for an object: the member is replaced
    where the object has it and added at the end where it has not. *)
Fixpoint set_field (k : string) (v : json) (fs : list (string * json))
  : list (string * json) :=
  match fs with
  | [] => [(k, v)]
  | (k', v') :: fs' =>
      if String.eqb k k' then (k, v) :: fs' else (k', v') :: set_field k v fs'
  end.

Definition spread_with (o : json) (k : string) (v : json) : json :=
  match o with
  | JObj fs => JObj (set_field k v fs)
  | _ => JObj [(k, v)]
  end.

(** The body of the filtering loop for one match: what is pushed on
    [filteredMatches], if anything.  Every branch logs
    [match.home.name] and [match.away.name]. *)
Definition displayOf (now : Z) (match_ : json) : M (option json) :=
  matchTime <- matchTimeOf match_ ;;
  h <- get_host ;;
  home <- get match_ "home" ;;
  homeName <- get home "name" ;;
  _ <- lift (ToString h homeName) ;;
  away <- get match_ "away" ;;
  awayName <- get away "name" ;;
  _ <- lift (ToString h awayName) ;;
  ret (match BundesligaRoute.GET_displayStatus now matchTime with
       | Some displayStatus =>
           Some (spread_with match_ "displayStatus" (JStr (display_string displayStatus)))
       | None => None
       end).

Fixpoint filterLoop (now : Z) (roundMatches : list json) : M (list json) :=
  match roundMatches with
  | [] => ret []
  | match_ :: rest =>
      pushed <- displayOf now match_ ;;
      filteredMatches <- filterLoop now rest ;;
      ret (match pushed with
           | Some m => m :: filteredMatches
           | None => filteredMatches
           end)
  end.

Definition bookmakers : list string :=
  ["win2day"; "tipp3"; "bet365"; "bwin"; "interwetten"; "tipico"; "betway";
   "admiral"; "neo_bet"; "tipwin"; "mozzart"; "merkur_bets"; "rabona";
   "bet_at_home"; "lottoland"].

(** [bookmakers[Math.floor(Math.random() * bookmakers.length)]]. *)
Definition randomBookmaker : M json :=
  r <- Math_random ;;
  let i := Qfloor (r * inject_Z (Z.of_nat (List.length bookmakers)))%Q in
  ret (if (0 <=? i) && (i <? Z.of_nat (List.length bookmakers))
       then match nth_error bookmakers (Z.to_nat i) with
            | Some b => JStr b
            | None => JUndef
            end
       else JUndef).

(** [{ odd: base + Math.random() * spread, bookmaker: ... }]. *)
Definition mockOdd (base spread : Q) : M json :=
  r <- Math_random ;;
  bookmaker <- randomBookmaker ;;
  ret (JObj [("odd", JNum (base + r * spread)%Q); ("bookmaker", bookmaker)]).

(** The callback of [normalizedMatches.forEach]. *)
Definition addMockOdds (m : Normalizer.NormalizedMatch) : M Normalizer.NormalizedMatch :=
  if negb (truthy (Normalizer.bestOdds m)) then
    home <- mockOdd (1.85) (1.5) ;;
    draw <- mockOdd (3.10) (0.8) ;;
    away <- mockOdd (2.75) (1.2) ;;
    ret (Normalizer.mkNormalizedMatch
           (Normalizer.id m) (Normalizer.league m) (Normalizer.homeTeam m)
           (Normalizer.awayTeam m) (Normalizer.kickoffTime m) (Normalizer.status m)
           (Normalizer.round m) (Normalizer.season m)
           (JObj [("home", home); ("draw", draw); ("away", away)])
           (Normalizer.pageUrl m) (Normalizer.liveTime m))
  else ret m.

(** The handler from [const now = new Date()] to the response: the current
    round and the matches of the response. *)
Definition GET_matches (allMatches : list json)
  : M (Z * list Normalizer.NormalizedMatch) :=
  now <- Date_now ;;
  currentRound <- findCurrentRound allMatches now ;;
  let roundMatches := getMatchesForRound allMatches currentRound in
  filteredMatches <- filterLoop now roundMatches ;;
  normalizedMatches <-
    Normalizer.normalizeMatches filteredMatches "german-bundesliga"
      Normalizer.LEAGUE_CONFIGS.GERMAN_BUNDESLIGA
      (JStr (Z_to_string currentRound ++ ". Spieltag")) ;;
  withOdds <- mapM addMockOdds normalizedMatches ;;
  ret (currentRound, withOdds).

End BundesligaGET.

(** ** The conversion of a cached match ([lib/leagues/utils.ts]) *)

Module Leagues.
Import JS JSDate.

(** The [league] member that [convertCachedMatch] adds to the match. *)
Record League : Type := mkLeague {
  league_id : string;
  league_name : string
}.

(** The match that [convertCachedMatch] builds: the members the utilities
    read, and the league. *)
Record Converted : Type := mkConverted {
  converted_match : Utils.Match;
  converted_league : League
}.

Definition convertCachedMatch (cached : Utils.CachedMatch)
    (config : Utils.LeagueConfig) (roundNumber : Z) : M Converted :=
  status <- Utils.calculateMatchStatus (Utils.fixture_date cached)
              (Some (Utils.fixture_status_short cached)) ;;
  ret (mkConverted
         (Utils.mkMatch (Utils.fixture_id cached) (Utils.teams_home_name cached)
            (Utils.teams_away_name cached) (Utils.fixture_date cached)
            status roundNumber)
         (mkLeague (Utils.config_id config) (Utils.config_name config))).

End Leagues.

(** ** Notions used to state the further properties *)

(** Every character of the string satisfies the test. *)
Fixpoint allChars (p : ascii -> bool) (s : string) : bool :=
  match s with
  | EmptyString => true
  | String c s' => p c && allChars p s'
  end.

(** The strings on which the model of case mapping and of [\s] is exact:
    those of ASCII characters. *)
Definition isAscii (s : string) : bool :=
  allChars (fun c => (nat_of_ascii c <? 128)%nat) s.

(** The number of words of a name that are not empty. *)
Definition wordCount (name : string) : nat :=
  List.length (filter (fun wd => negb (String.eqb wd "")) (JS.split_on " " name)).

(** A team block whose name the normalizers can take: absent, falsy, or a
    string. *)
Definition nameUsable (t : JS.json) : Prop :=
  JS.truthy (JS.opt_get t "name") = false \/ exists n, JS.opt_get t "name" = JS.JStr n.

(** The name the normalizers use for a team block: the empty string unless
    the block has a string name. *)
Definition nameOf (t : JS.json) : string :=
  match JS.opt_get t "name" with
  | JS.JStr n => n
  | _ => ""
  end.

(** The object a normalized match is at run time. *)
Definition toRecord (m : Normalizer.NormalizedMatch) : JS.json :=
  JS.JObj [("id", Normalizer.id m); ("league", Normalizer.league m);
           ("homeTeam", Normalizer.homeTeam m); ("awayTeam", Normalizer.awayTeam m);
           ("kickoffTime", Normalizer.kickoffTime m); ("status", Normalizer.status m);
           ("round", Normalizer.round m); ("season", Normalizer.season m);
           ("bestOdds", Normalizer.bestOdds m); ("pageUrl", Normalizer.pageUrl m);
           ("liveTime", Normalizer.liveTime m)].

(** The sort key of a normalized match: live matches rank first, then the
    kickoff instant. *)
Definition rankOf (m : Normalizer.NormalizedMatch) : Z :=
  if Normalizer.isLive m then 0 else 1.

Definition timeOf (h : JS.Host) (m : Normalizer.NormalizedMatch) : Z :=
  match JSDate.new_Date h (Normalizer.kickoffTime m) with
  | JS.Ok (Some k) => k
  | _ => 0
  end.

Definition validKickoff (h : JS.Host) (m : Normalizer.NormalizedMatch) : Prop :=
  exists k, JSDate.new_Date h (Normalizer.kickoffTime m) = JS.Ok (Some k).

(** [a] sorts strictly before [b]. *)
Definition sortsBefore (h : JS.Host) (a b : Normalizer.NormalizedMatch) : bool :=
  (rankOf a <? rankOf b) || ((rankOf a =? rankOf b) && (timeOf h a <? timeOf h b)).

(** The computation leaves the engine and the clock as it found them; the
    count of clock readings can only go up. *)
Definition keepsEngine {A} (m : JS.M A) : Prop :=
  forall w, JS.host (snd (m w)) = JS.host w
            /\ JS.clock (snd (m w)) = JS.clock w
            /\ (JS.clock_reads w <= JS.clock_reads (snd (m w)))%nat.

(** The order of the output: a live match is never behind a match that is
    not live, and among matches that are both live or both not, the earlier
    kickoff comes first. *)
Definition inOrder (h : JS.Host) (a b : Normalizer.NormalizedMatch) : Prop :=
  (Normalizer.isLive b = true -> Normalizer.isLive a = true)
  /\ (Normalizer.isLive a = Normalizer.isLive b -> timeOf h a <= timeOf h b).

(** A list in which no element sorts strictly before an earlier one. *)
Definition sortedBy {A} (lt : A -> A -> bool) (l : list A) : Prop :=
  StronglySorted (fun a b => lt b a = false) l.

(** The cache codes that [calculateMatchStatus] reads as a match in play,
    in any letter case. *)
Definition liveCode (cs : string) : bool :=
  let st := JS.toUpperCase cs in
  String.eqb st "LIVE" || String.eqb st "1H" || String.eqb st "HT" || String.eqb st "2H".

(** The kickoff string is a valid date less than 120 minutes before [now],
    or after it. *)
Definition withinGrace (h : JS.Host) (now : Z) (kickoffTime : string) : Prop :=
  exists k, JSDate.Date_parse h kickoffTime = Some k /\ now - k < 120 * 60000.

(** A cached fixture that kicked off 14 hours before [scenarioNow] and
    still carries the half-time code, in lower case. *)
Definition staleHalfTime : Utils.CachedMatch :=
  Utils.mkCachedMatch 7 "2025-08-19T10:00:00Z" "ht" "Home" "Away".

(** A league configuration with no matches per round. *)
Definition nonePerRound : Utils.LeagueConfig :=
  Utils.mkLeagueConfig "test-league" "Test League" 0 "2025-08-01".

(** ** Notions used for the round trip of the kickoff time *)

(** The calendar of one era of 146097 days: the day of the era gives a year
    of the era, a month and a day that exist and that give the day back. *)
Definition civil_ok (doe : Z) : bool :=
  let yoe := (doe - doe / 1460 + doe / 36524 - doe / 146096) / 365 in
  let doy := doe - (365 * yoe + yoe / 4 - yoe / 100) in
  let mp := (5 * doy + 2) / 153 in
  let d := doy - (153 * mp + 2) / 5 + 1 in
  let m := if mp <? 10 then mp + 3 else mp - 9 in
  let y0 := if m <=? 2 then yoe + 1 else yoe in
  (0 <=? yoe) && (yoe <? 400) && (1 <=? m) && (m <=? 12) && (1 <=? d)
  && (d <=? JSDate.days_in_month y0 m)
  && (let mp' := if 2 <? m then m - 3 else m + 9 in
      let doy' := (153 * mp' + 2) / 5 + d - 1 in
      yoe * 365 + yoe / 4 - yoe / 100 + doy' =? doe).

(** [p] holds on the [n] integers from [start]. *)
Fixpoint all_range (n : positive) (start : Z) (p : Z -> bool) : bool :=
  match n with
  | xH => p start
  | xO q => all_range q start p && all_range q (start + Zpos q) p
  | xI q => p start && all_range q (start + 1) p && all_range q (start + 1 + Zpos q) p
  end.

(** An engine whose fallback parser yields time values in the range of
    dates, as every date object holds one. *)
Definition hostInRange (h : JS.Host) : Prop :=
  forall s k, JS.legacyParse h s = Some k -> Z.abs k <= JSDate.maxTime.

(** The status the Pinnacle normalizer derives from the time elapsed. *)
Definition pinnacleStatus (t k : Z) : Normalizer.Status :=
  if (0 <=? t - k) && (t - k <? 7200000) then Normalizer.LIVE
  else if 7200000 <=? t - k then Normalizer.FINISHED
  else Normalizer.SCHEDULED.

(** What a normalizer that parses the timestamp [ts] of its record leaves in
    the match [m], the clock reading [t] at its start: the kickoff time is the
    print of the instant the timestamp denotes, and the status is not
    SCHEDULED inside the two hours after the kickoff. *)
Definition recordFacts (h : JS.Host) (t : Z) (ts : JS.json) (m : Normalizer.NormalizedMatch)
  : Prop :=
  exists s k,
    ts = JS.JStr s /\ utcInstant h s = Some k
    /\ Normalizer.kickoffTime m = JS.JStr (JSDate.iso_of_time k)
    /\ (Normalizer.status m = JS.JStr "SCHEDULED" -> ~ (0 <= t - k < 7200000)).

(** The normalizer that [normalizeMatches] applies to each record under a
    tag. *)
Definition normalizerOf (source : string) (cfg round r : JS.json)
  : JS.M Normalizer.NormalizedMatch :=
  if String.eqb source "austrian-weekend" then
    Normalizer.normalizeAustrianWeekendMatch r cfg
  else if String.eqb source "german-bundesliga" then
    Normalizer.normalizeGermanBundesligaMatch r
      (JS.or_else cfg Normalizer.LEAGUE_CONFIGS.GERMAN_BUNDESLIGA) round
  else if String.eqb source "german-2bundesliga" then
    Normalizer.normalizeGermanBundesligaMatch r
      (JS.or_else cfg Normalizer.LEAGUE_CONFIGS.GERMAN_2BUNDESLIGA) round
  else if String.eqb source "premier-league" then
    Normalizer.normalizeGermanBundesligaMatch r
      (JS.or_else cfg Normalizer.LEAGUE_CONFIGS.PREMIER_LEAGUE) round
  else if String.eqb source "pinnacle" then
    Normalizer.normalizePinnacleMatch r cfg round
  else Normalizer.normalizeFormattedMatch r.


(** ** Notions used for the Bundesliga route *)

(** The kickoff date the route reads off a record,
    [new Date(match.status.utcTime)]; invalid where the conversion fails. *)
Definition routeDate (h : JS.Host) (m : JS.json) : JSDate.Date :=
  match JSDate.new_Date h (JS.opt_get (JS.opt_get m "status") "utcTime") with
  | JS.Ok d => d
  | JS.Throw _ => None
  end.

(** The latest of the valid kickoff dates of a list of records. *)
Fixpoint latestKickoff (h : JS.Host) (ms : list JS.json) : option Z :=
  match ms with
  | [] => None
  | m :: rest =>
      match routeDate h m, latestKickoff h rest with
      | Some k, Some k' => Some (Z.max k k')
      | Some k, None => Some k
      | None, later => later
      end
  end.

(** A record whose [status.utcTime] is a string. *)
Definition timestamped (m : JS.json) : Prop :=
  exists s, JS.opt_get (JS.opt_get m "status") "utcTime" = JS.JStr s.

(** A Bundesliga record of a match played ten days before [scenarioNow]. *)
Definition playedMatch : JS.json :=
  JS.JObj [("id", JS.JNum 41);
           ("home", JS.JObj [("name", JS.JStr "LASK")]);
           ("away", JS.JObj [("name", JS.JStr "Sturm Graz")]);
           ("status", JS.JObj [("utcTime", JS.JStr "2025-08-10T18:30:00Z");
                               ("finished", JS.JBool true);
                               ("started", JS.JBool true)])].

(** A Bundesliga record whose kickoff time is no date. *)
Definition unreadableMatch : JS.json :=
  JS.JObj [("home", JS.JObj [("name", JS.JStr "LASK")]);
           ("away", JS.JObj [("name", JS.JStr "Sturm Graz")]);
           ("status", JS.JObj [("utcTime", JS.JStr "to be announced")])].

(** A cache whose round 6 is played and whose round 7 holds one match to
    come. *)
Definition cacheInRound7 : list JS.json := repeat playedMatch 54 ++ [salzburgRapidB].


(** * Properties *)

Import JS JSDate.

(** ** Short names and team ids *)

Lemma split_on_initials (s : string) :
  join_empty (map char0 (split_on " " s)) = Spec.initials true s
  /\ join_empty (map char0 (tl (split_on " " s))) = Spec.initials false s.
Proof.
  induction s as [| c s [IHt IHf]]; simpl.
  - split; reflexivity.
  - destruct (Ascii.eqb c " ") eqn:E; simpl.
    + split; assumption.
    + destruct (split_on " " s) as [| w ws] eqn:Es; simpl in *.
      * split; [rewrite <- IHf; reflexivity | assumption].
      * split; [rewrite <- IHf; reflexivity | assumption].
Qed.

Lemma substring_map_string (f : ascii -> ascii) (n : nat) (s : string) :
  substring 0 n (map_string f s) = map_string f (substring 0 n s).
Proof.
  revert s; induction n as [| n IH]; intros [| c s]; simpl; try reflexivity.
  now rewrite IH.
Qed.

Lemma generateShortName_spec (s : string) :
  Normalizer.generateShortName (JStr s) = Ok (Spec.shortName s).
Proof.
  unfold Normalizer.generateShortName, Spec.shortName, toUpperCase.
  rewrite (proj1 (split_on_initials s)), substring_map_string. reflexivity.
Qed.

Lemma lower_char_not_space (c : ascii) :
  is_space c = false -> Ascii.eqb c " " = false.
Proof.
  intros H. destruct (Ascii.eqb_spec c " ") as [-> |]; [discriminate | reflexivity].
Qed.

Lemma replace_ws_single (b : bool) (s : string) :
  Spec.singleSpaced b s = true ->
  toLowerCase (replace_ws_from b s) = Spec.slugify s.
Proof.
  unfold toLowerCase, Spec.slugify.
  revert b; induction s as [| c s IH]; intros b H; simpl in *; [reflexivity |].
  destruct (is_space c) eqn:Ec.
  - apply andb_prop in H as [H Hs]. apply andb_prop in H as [Hc Hb].
    apply negb_true_iff in Hb; subst b.
    simpl. rewrite Hc. f_equal. apply IH, Hs.
  - simpl. rewrite (lower_char_not_space c Ec). f_equal. apply IH, H.
Qed.

Lemma generateTeamId_spec (s : string) :
  Spec.singleSpaced false s = true ->
  Normalizer.generateTeamId (JStr s) = Ok (Spec.slugify s).
Proof.
  intros H. unfold Normalizer.generateTeamId, replace_ws.
  now rewrite replace_ws_single.
Qed.

Lemma teamOf_name (t : json) (s : string) (w : World) :
  opt_get t "name" = JStr s ->
  Normalizer.teamOf t w =
    (Ok (JObj [("id", if truthy (opt_get t "id") then opt_get t "id"
                      else JStr (toLowerCase (replace_ws s)));
               ("name", JStr s);
               ("shortName", JStr (Spec.shortName s));
               ("logoUrl", JNull);
               ("score", or_else (opt_get t "score") JNull)]), w).
Proof.
  intros Hn. unfold Normalizer.teamOf. rewrite Hn.
  assert (Hor : or_else (JStr s) (JStr "") = JStr s).
  { unfold or_else; simpl. destruct s; reflexivity. }
  rewrite Hor, generateShortName_spec.
  unfold bind, lift, ret; simpl.
  destruct (truthy (opt_get t "id")); reflexivity.
Qed.

Example scenarioNow_parse (h : Host) :
  Date_parse h "2025-08-20T00:00:00Z" = Some scenarioNow.
Proof. reflexivity. Qed.





(** ** Kickoff parsing *)

(** The date the normalizer's parser builds from a string. *)
Lemma parseUTCTime_string (s : string) (w : World) :
  Normalizer.parseUTCTime (JStr s) w =
    (Ok (Date_parse (host w)
           (if includes s "T" && negb (includes s "Z") && negb (includes s "+")
            then s ++ "Z" else s)), w).
Proof.
  unfold Normalizer.parseUTCTime, bind, get_host, lift; simpl.
  destruct (includes s "T" && negb (includes s "Z") && negb (includes s "+"));
    reflexivity.
Qed.














(** ** Status classification *)

(** The comparisons on elapsed minutes, on the millisecond counts. *)
Lemma Qle_bool_minutes_l (d c : Z) :
  Qle_bool (inject_Z d / inject_Z (1000 * 60)) (inject_Z c) = (d <=? c * 60000).
Proof.
  unfold Qle_bool, Qdiv, Qmult, Qinv, inject_Z; simpl.
  destruct (Z.leb_spec (d * 1 * 1) (c * 60000)), (Z.leb_spec d (c * 60000)); lia.
Qed.

Lemma Qle_bool_minutes_r (d c : Z) :
  Qle_bool (inject_Z c) (inject_Z d / inject_Z (1000 * 60)) = (c * 60000 <=? d).
Proof.
  unfold Qle_bool, Qdiv, Qmult, Qinv, inject_Z; simpl.
  destruct (Z.leb_spec (c * 60000) (d * 1 * 1)), (Z.leb_spec (c * 60000) d); lia.
Qed.

Lemma minutes_ge (now k c : Z) :
  nan_ge (minutes_between now (Some k)) (inject_Z c) = (c * 60000 <=? now - k).
Proof. apply Qle_bool_minutes_r. Qed.

Lemma minutes_lt (now k c : Z) :
  nan_lt (minutes_between now (Some k)) (inject_Z c) = (now - k <? c * 60000).
Proof.
  unfold nan_lt, Qlt_bool, minutes_between. rewrite Qle_bool_minutes_r.
  destruct (Z.leb_spec (c * 60000) (now - k)), (Z.ltb_spec (now - k) (c * 60000));
    simpl; lia.
Qed.

Lemma minutes_gt (now k c : Z) :
  BundesligaRoute.nan_gt (minutes_between now (Some k)) (inject_Z c)
  = (c * 60000 <? now - k).
Proof.
  unfold BundesligaRoute.nan_gt, Qlt_bool, minutes_between.
  rewrite Qle_bool_minutes_l.
  destruct (Z.leb_spec (now - k) (c * 60000)), (Z.ltb_spec (c * 60000) (now - k));
    simpl; lia.
Qed.

Lemma minutes_le (now k c : Z) :
  BundesligaRoute.nan_le (minutes_between now (Some k)) (inject_Z c)
  = (now - k <=? c * 60000).
Proof. apply Qle_bool_minutes_l. Qed.

Lemma minutes_ge_0 (now k : Z) :
  nan_ge (minutes_between now (Some k)) 0 = (0 <=? now - k).
Proof. exact (minutes_ge now k 0). Qed.

Lemma minutes_lt_120 (now k : Z) :
  nan_lt (minutes_between now (Some k)) 120 = (now - k <? 7200000).
Proof. exact (minutes_lt now k 120). Qed.

Lemma minutes_ge_120 (now k : Z) :
  nan_ge (minutes_between now (Some k)) 120 = (7200000 <=? now - k).
Proof. exact (minutes_ge now k 120). Qed.

Lemma determineStatus_by_time (k : Z) (f s c o : json) (w : World) :
  truthy f = false -> truthy s = false -> truthy c = false -> truthy o = false ->
  fst (Normalizer.determineStatus (Some k) f s c o w)
  = Ok (if (0 <=? clock w (clock_reads w) - k)
           && (clock w (clock_reads w) - k <? 7200000)
        then Normalizer.LIVE else Normalizer.SCHEDULED).
Proof.
  intros Hf Hs Hc Ho. unfold Normalizer.determineStatus.
  rewrite Hf, Hs, Hc, Ho. unfold bind, Date_now.
  rewrite minutes_ge_0, minutes_lt_120. simpl.
  destruct ((0 <=? clock w (clock_reads w) - k)
            && (clock w (clock_reads w) - k <? 7200000)); reflexivity.
Qed.

Lemma calculateMatchStatus_by_time (kickoffTime : string) (k : Z) (w : World) :
  Date_parse (host w) kickoffTime = Some k ->
  fst (Utils.calculateMatchStatus kickoffTime None w)
  = Ok (if clock w (clock_reads w) - k <? 0 then Utils.SCHEDULED
        else if clock w (clock_reads w) - k <? 6300000 then Utils.LIVE
        else Utils.FINISHED).
Proof.
  intros Hk. unfold Utils.calculateMatchStatus, bind, get_host, Date_now; simpl.
  rewrite Hk; simpl.
  change Utils.MATCH_DURATION_MS with 6300000.
  change Utils.GRACE_PERIOD_MS with 7200000.
  destruct (clock w (clock_reads w) - k <? 0); [reflexivity |].
  destruct (clock w (clock_reads w) - k <? 6300000); [reflexivity |].
  destruct (clock w (clock_reads w) - k <? 7200000); reflexivity.
Qed.

Lemma GET_displayStatus_by_time (now k : Z) :
  BundesligaRoute.GET_displayStatus now (Some k)
  = if now - k <? 0 then Some BundesligaRoute.SCHEDULED
    else if (0 <? now - k) && (now - k <=? 6300000) then Some BundesligaRoute.LIVE
    else if (0 <? now - k) && (now - k <=? 7200000) then Some BundesligaRoute.FINISHED
    else None.
Proof.
  unfold BundesligaRoute.GET_displayStatus.
  rewrite (minutes_gt now k 0 : BundesligaRoute.nan_gt _ 0 = (0 <? _)).
  rewrite (minutes_le now k 120 : BundesligaRoute.nan_le _ 120 = (_ <=? 7200000)).
  rewrite (minutes_le now k 105 : BundesligaRoute.nan_le _ 105 = (_ <=? 6300000)).
  rewrite (minutes_gt now k 120 : BundesligaRoute.nan_gt _ 120 = (7200000 <? _)).
  destruct (Z.ltb_spec now k), (Z.ltb_spec (now - k) 0); try lia; [reflexivity |].
  destruct (0 <? now - k); simpl.
  - destruct (Z.leb_spec (now - k) 7200000), (Z.leb_spec (now - k) 6300000);
      try lia; try reflexivity.
    destruct (7200000 <? now - k); reflexivity.
  - destruct (7200000 <? now - k); reflexivity.
Qed.

(** C2, as the specification states it, fails on the normalizer's
    classifier: without flags, 110 minutes after kickoff, [determineStatus]
    answers LIVE, not FINISHED. *)
Lemma determineStatus_live_after_105_minutes :
  ~ (forall (k : Z) (w : World),
        105 * 60000 <= clock w (clock_reads w) - k ->
        fst (Normalizer.determineStatus (Some k) JUndef JUndef JUndef JUndef w)
        = Ok Normalizer.FINISHED).
Proof.
  intros H.
  assert (Hrun := H 1755887400000
                    (worldAt utcHost (1755887400000 + 110 * 60000) 0)
                    ltac:(simpl; lia)).
  vm_compute in Hrun. discriminate Hrun.
Qed.

(** C2 (amended): with elapsed = now - kickoff and no status code or flags,
    [calculateMatchStatus] returns SCHEDULED before kickoff, LIVE for an
    elapsed time in [0, 105) minutes and FINISHED from 105 minutes on;
    [determineStatus] returns SCHEDULED before kickoff and LIVE for an
    elapsed time in [0, 120) minutes; the display status of the Bundesliga
    route is SCHEDULED before kickoff, LIVE for an elapsed time in (0, 105]
    minutes and FINISHED in (105, 120]. *)
Theorem status_by_elapsed_time :
  (forall (kickoffTime : string) (k : Z) (w : World),
      Date_parse (host w) kickoffTime = Some k ->
      let elapsed := clock w (clock_reads w) - k in
      (elapsed < 0 ->
       fst (Utils.calculateMatchStatus kickoffTime None w) = Ok Utils.SCHEDULED)
      /\ (0 <= elapsed < 105 * 60000 ->
          fst (Utils.calculateMatchStatus kickoffTime None w) = Ok Utils.LIVE)
      /\ (105 * 60000 <= elapsed ->
          fst (Utils.calculateMatchStatus kickoffTime None w) = Ok Utils.FINISHED))
  /\ (forall (k : Z) (finished started cancelled ongoing : json) (w : World),
         truthy finished = false -> truthy started = false ->
         truthy cancelled = false -> truthy ongoing = false ->
         let elapsed := clock w (clock_reads w) - k in
         let run := fst (Normalizer.determineStatus (Some k) finished started
                           cancelled ongoing w) in
         (elapsed < 0 -> run = Ok Normalizer.SCHEDULED)
         /\ (0 <= elapsed < 120 * 60000 -> run = Ok Normalizer.LIVE))
  /\ (forall now k : Z,
         let elapsed := now - k in
         let shown := BundesligaRoute.GET_displayStatus now (Some k) in
         (elapsed < 0 -> shown = Some BundesligaRoute.SCHEDULED)
         /\ (0 < elapsed <= 105 * 60000 -> shown = Some BundesligaRoute.LIVE)
         /\ (105 * 60000 < elapsed <= 120 * 60000 ->
             shown = Some BundesligaRoute.FINISHED)).
Proof.
  split; [| split].
  - intros kt k w Hk elapsed. subst elapsed.
    rewrite (calculateMatchStatus_by_time kt k w Hk).
    repeat split; intros H.
    + destruct (Z.ltb_spec (clock w (clock_reads w) - k) 0); [reflexivity | lia].
    + destruct (Z.ltb_spec (clock w (clock_reads w) - k) 0); [lia |].
      destruct (Z.ltb_spec (clock w (clock_reads w) - k) 6300000); [reflexivity | lia].
    + destruct (Z.ltb_spec (clock w (clock_reads w) - k) 0); [lia |].
      destruct (Z.ltb_spec (clock w (clock_reads w) - k) 6300000); [lia | reflexivity].
  - intros k f s c o w Hf Hs Hc Ho elapsed run. subst elapsed run.
    rewrite (determineStatus_by_time k f s c o w Hf Hs Hc Ho).
    split; intros H.
    + destruct (Z.leb_spec 0 (clock w (clock_reads w) - k)); [lia | reflexivity].
    + destruct (Z.leb_spec 0 (clock w (clock_reads w) - k)); [| lia].
      destruct (Z.ltb_spec (clock w (clock_reads w) - k) 7200000); [reflexivity | lia].
  - intros now k elapsed shown. subst elapsed shown.
    rewrite GET_displayStatus_by_time.
    repeat split; intros H.
    + destruct (Z.ltb_spec (now - k) 0); [reflexivity | lia].
    + destruct (Z.ltb_spec (now - k) 0); [lia |].
      destruct (Z.ltb_spec 0 (now - k)); [| lia].
      destruct (Z.leb_spec (now - k) 6300000); [reflexivity | lia].
    + destruct (Z.ltb_spec (now - k) 0); [lia |].
      destruct (Z.ltb_spec 0 (now - k)); [| lia].
      destruct (Z.leb_spec (now - k) 6300000); [lia |].
      destruct (Z.leb_spec (now - k) 7200000); [reflexivity | lia].
Qed.

Lemma status_by_elapsed_time_witness :
  fst (Utils.calculateMatchStatus "2025-08-22T18:30:00Z" None
         (worldAt utcHost (1755887400000 + 110 * 60000) 0)) = Ok Utils.FINISHED
  /\ fst (Normalizer.determineStatus (Some 1755887400000) (JBool false) (JBool false)
            JUndef JUndef (worldAt utcHost (1755887400000 + 30 * 60000) 0))
     = Ok Normalizer.LIVE
  /\ BundesligaRoute.GET_displayStatus (1755887400000 + 110 * 60000)
       (Some 1755887400000) = Some BundesligaRoute.FINISHED.
Proof.
  destruct status_by_elapsed_time as [Hcalc [Hdet Hroute]].
  split; [| split].
  - apply (Hcalc "2025-08-22T18:30:00Z" 1755887400000
             (worldAt utcHost (1755887400000 + 110 * 60000) 0) eq_refl).
    simpl; lia.
  - apply (Hdet 1755887400000 (JBool false) (JBool false) JUndef JUndef
             (worldAt utcHost (1755887400000 + 30 * 60000) 0)
             eq_refl eq_refl eq_refl eq_refl).
    simpl; lia.
  - apply (Hroute (1755887400000 + 110 * 60000) 1755887400000). lia.
Defined.

(** ** The relevance filters *)

Lemma new_Date_no_throw (h : Host) (v : json) :
  has_own "toString" v = false -> exists d, new_Date h v = Ok d.
Proof.
  intros H. destruct v as [| | b | q | s | fs]; simpl; eauto.
  simpl in H. unfold has_own. rewrite H. eauto.
Qed.

(** A predicate that neither throws nor touches the world filters as
    [List.filter] does. *)
Lemma filterM_pure {A} (p : A -> M bool) (f : A -> bool) (l : list A) (w : World) :
  (forall x, In x l -> p x w = (Ok (f x), w)) ->
  filterM p l w = (Ok (filter f l), w).
Proof.
  induction l as [| x l IH]; intros Hp; simpl; [reflexivity |].
  unfold bind. rewrite (Hp x (or_introl eq_refl)).
  rewrite IH by (intros y Hy; apply Hp; now right). simpl.
  destruct (f x); reflexivity.
Qed.

Lemma Normalizer_filterRelevantMatches_run
    (ms : list Normalizer.NormalizedMatch) (w : World) :
  (forall m, In m ms -> has_own "toString" (Normalizer.kickoffTime m) = false) ->
  Normalizer.filterRelevantMatches ms w
  = (Ok (filter (keptByTime (host w) (clock w (clock_reads w))) ms), ticked w).
Proof.
  intros Hms. unfold Normalizer.filterRelevantMatches, bind, Date_now, get_host.
  fold (ticked w).
  apply (filterM_pure _ (keptByTime (host w) (clock w (clock_reads w)))).
  intros m Hm. unfold keptByTime, lift, bind, ret.
  change (host (ticked w)) with (host w).
  destruct (new_Date_no_throw (host w) _ (Hms m Hm)) as [d ->].
  destruct d as [k |]; [| reflexivity].
  now rewrite minutes_lt_120.
Qed.

Lemma keptByTime_iff (h : Host) (now : Z) (m : Normalizer.NormalizedMatch) :
  keptByTime h now m = true
  <-> exists k, new_Date h (Normalizer.kickoffTime m) = Ok (Some k)
                /\ now - k < 120 * 60000.
Proof.
  unfold keptByTime. split.
  - destruct (new_Date h (Normalizer.kickoffTime m)) as [[k |] | e];
      try discriminate.
    intros H. exists k. split; [reflexivity | lia].
  - intros [k [-> H]]. apply Z.ltb_lt. lia.
Qed.

Lemma Utils_filterRelevantMatches_run (ms : list Utils.Match) (w : World) :
  Utils.filterRelevantMatches ms w
  = (Ok (filter (fun m =>
                   match Utils.status m with
                   | Utils.FINISHED =>
                       Utils.lt_nan
                         (Utils.since (clock w (clock_reads w))
                            (Date_parse (host w) (Utils.kickoffTime m)))
                         7200000
                   | _ => true
                   end) ms), ticked w).
Proof. reflexivity. Qed.

(** C3, as the specification states it, fails on the normalizer's filter: a
    LIVE match that kicked off 150 minutes ago is dropped. *)
Lemma live_match_dropped_after_grace :
  ~ (forall (ms : list Normalizer.NormalizedMatch) (w : World)
            (m : Normalizer.NormalizedMatch),
        In m ms -> Normalizer.status m <> JStr "FINISHED" ->
        exists out,
          fst (Normalizer.filterRelevantMatches ms w) = Ok out /\ In m out).
Proof.
  intros H.
  destruct (H [liveMatch] (worldAt utcHost (1755887400000 + 150 * 60000) 0)
              liveMatch (or_introl eq_refl)) as [out [Hrun Hin]].
  - discriminate.
  - vm_compute in Hrun. injection Hrun as <-. exact Hin.
Qed.

(** C3 (amended): the filter of the league utilities keeps a match if and
    only if its status is not FINISHED, or it is FINISHED and
    now - kickoffTime is below 120 minutes (its statuses are SCHEDULED, LIVE
    and FINISHED); the filter of the normalizer looks at the time only and
    keeps a match if and only if its kickoff time is a valid date and
    now - kickoffTime is below 120 minutes, whatever the status. *)
Theorem relevance_filters :
  (forall (ms : list Utils.Match) (w : World),
      exists out,
        fst (Utils.filterRelevantMatches ms w) = Ok out
        /\ forall m,
             In m out <->
             In m ms
             /\ (Utils.status m <> Utils.FINISHED
                 \/ (Utils.status m = Utils.FINISHED
                     /\ exists k,
                          Date_parse (host w) (Utils.kickoffTime m) = Some k
                          /\ clock w (clock_reads w) - k < 120 * 60000)))
  /\ (forall (ms : list Normalizer.NormalizedMatch) (w : World),
         (forall m, In m ms -> has_own "toString" (Normalizer.kickoffTime m) = false) ->
         exists out,
           fst (Normalizer.filterRelevantMatches ms w) = Ok out
           /\ forall m,
                In m out <->
                In m ms
                /\ exists k,
                     new_Date (host w) (Normalizer.kickoffTime m) = Ok (Some k)
                     /\ clock w (clock_reads w) - k < 120 * 60000).
Proof.
  split.
  - intros ms w. rewrite Utils_filterRelevantMatches_run.
    eexists. split; [reflexivity |].
    intros m. rewrite filter_In. apply and_iff_compat_l.
    destruct (Utils.status m); split; intros H;
      try (left; discriminate); try reflexivity.
    + right. split; [reflexivity |].
      destruct (Date_parse (host w) (Utils.kickoffTime m)) as [k |];
        simpl in H; [| discriminate].
      exists k. split; [reflexivity |]. apply Z.ltb_lt in H. lia.
    + destruct H as [H | [_ [k [-> H]]]]; [now contradiction H |].
      simpl. apply Z.ltb_lt. lia.
  - intros ms w Hms. rewrite (Normalizer_filterRelevantMatches_run ms w Hms).
    eexists. split; [reflexivity |].
    intros m. rewrite filter_In, keptByTime_iff. reflexivity.
Qed.

Lemma relevance_filters_witness :
  exists out,
    fst (Normalizer.filterRelevantMatches [liveMatch]
           (worldAt utcHost (1755887400000 + 30 * 60000) 0)) = Ok out
    /\ In liveMatch out.
Proof.
  destruct relevance_filters as [_ Hnorm].
  destruct (Hnorm [liveMatch] (worldAt utcHost (1755887400000 + 30 * 60000) 0))
    as [out [Hrun Hin]].
  - intros m [<- | []]. reflexivity.
  - exists out. split; [exact Hrun |].
    apply Hin. split; [now left |].
    exists 1755887400000. split; [reflexivity | simpl; lia].
Defined.

(** ** Convergence of the weekend and the Bundesliga normalizers *)

Lemma get_not_nullish (o : json) (k : string) (w : World) :
  nullish o = false -> get o k w = (Ok (opt_get o k), w).
Proof. intros H. unfold get. now rewrite H. Qed.






(** ** Frame properties of the effectful code *)

Lemma keepsHost_ret {A : Type} (a : A) : keepsHost (ret a).
Proof. intros w; reflexivity. Qed.

Lemma keepsHost_throw {A : Type} (e : exn) : keepsHost (@throw A e).
Proof. intros w; reflexivity. Qed.

Lemma keepsHost_lift {A : Type} (r : Res A) : keepsHost (lift r).
Proof. intros w; reflexivity. Qed.

Lemma keepsHost_bind {A B : Type} (m : M A) (k : A -> M B) :
  keepsHost m -> (forall a, keepsHost (k a)) -> keepsHost (bind m k).
Proof.
  intros Hm Hk w. unfold bind. specialize (Hm w).
  destruct (m w) as [[a | e] w']; simpl in *; [| assumption].
  now rewrite (Hk a w').
Qed.

Lemma keepsHost_mapM {A B : Type} (f : A -> M B) (l : list A) :
  (forall x, keepsHost (f x)) -> keepsHost (mapM f l).
Proof.
  intros Hf. induction l as [| x l IH]; simpl.
  - apply keepsHost_ret.
  - apply keepsHost_bind; [apply Hf | intros y].
    unfold keepsHost, bind in *. intros w. specialize (IH w).
    destruct (mapM f l w) as [[ys | e] w']; simpl in *; assumption.
Qed.

Lemma deterministic_ret {A : Type} (rnd : bool) (a : A) : deterministic rnd (ret a).
Proof. intros w1 w2 H; split; [reflexivity | exact H]. Qed.

Lemma deterministic_throw {A : Type} (rnd : bool) (e : exn) : deterministic rnd (@throw A e).
Proof. intros w1 w2 H; split; [reflexivity | exact H]. Qed.

Lemma deterministic_lift {A : Type} (rnd : bool) (r : Res A) : deterministic rnd (lift r).
Proof. intros w1 w2 H; split; [reflexivity | exact H]. Qed.

Lemma deterministic_bind {A B : Type} (rnd : bool) (m : M A) (k : A -> M B) :
  deterministic rnd m -> (forall a, deterministic rnd (k a)) ->
  deterministic rnd (bind m k).
Proof.
  intros Hm Hk w1 w2 H. unfold bind. destruct (Hm w1 w2 H) as [Hr Hw].
  destruct (m w1) as [[a1 | e1] w1'], (m w2) as [[a2 | e2] w2'];
    simpl in *; try discriminate Hr.
  - injection Hr as <-. now apply Hk.
  - injection Hr as ->. split; [reflexivity | assumption].
Qed.

Lemma deterministic_mapM {A B : Type} (rnd : bool) (f : A -> M B) (l : list A) :
  (forall x, deterministic rnd (f x)) -> deterministic rnd (mapM f l).
Proof.
  intros Hf. induction l as [| x l IH]; simpl.
  - apply deterministic_ret.
  - apply deterministic_bind; [apply Hf | intros y].
    intros w1 w2 H. unfold bind. destruct (IH w1 w2 H) as [Hr Hw].
    destruct (mapM f l w1) as [[a1 | e1] w1'], (mapM f l w2) as [[a2 | e2] w2'];
      simpl in *; try discriminate Hr.
    + injection Hr as <-. split; [reflexivity | assumption].
    + injection Hr as ->. split; [reflexivity | assumption].
Qed.

Lemma deterministic_filterM {A : Type} (rnd : bool) (p : A -> M bool) (l : list A) :
  (forall x, deterministic rnd (p x)) -> deterministic rnd (filterM p l).
Proof.
  intros Hp. induction l as [| x l IH]; simpl.
  - intros w1 w2 H; split; [reflexivity | exact H].
  - intros w1 w2 H. unfold bind. destruct (Hp x w1 w2 H) as [Hr Hw].
    destruct (p x w1) as [[b1 | e1] w1'], (p x w2) as [[b2 | e2] w2'];
      simpl in *; try discriminate Hr;
      [| injection Hr as ->; split; [reflexivity | assumption]].
    injection Hr as <-. destruct (IH w1' w2' Hw) as [Hr' Hw'].
    destruct (filterM p l w1') as [[a1 | e1] w1''],
             (filterM p l w2') as [[a2 | e2] w2''];
      simpl in *; try discriminate Hr'.
    * injection Hr' as <-. split; [reflexivity | assumption].
    * injection Hr' as ->. split; [reflexivity | assumption].
Qed.

Lemma keepsHost_Date_now : keepsHost Date_now.
Proof. intros w; reflexivity. Qed.

Lemma keepsHost_Math_random : keepsHost Math_random.
Proof. intros w; reflexivity. Qed.

Lemma keepsHost_get_host : keepsHost get_host.
Proof. intros w; reflexivity. Qed.

Lemma keepsHost_get (o : json) (k : string) : keepsHost (get o k).
Proof. intros w; unfold get; destruct (nullish o); reflexivity. Qed.

Lemma deterministic_Date_now (rnd : bool) : deterministic rnd Date_now.
Proof.
  intros w1 w2 (Hh & Hc & Hn & Hr). unfold Date_now; simpl. split.
  - now rewrite Hn, Hc.
  - repeat split; simpl; try assumption; try (now rewrite Hn); now apply Hr.
Qed.

Lemma deterministic_Math_random : deterministic true Math_random.
Proof.
  intros w1 w2 (Hh & Hc & Hn & Hr). destruct (Hr eq_refl) as [Hrs Hrn].
  unfold Math_random; simpl. split.
  - now rewrite Hrn, Hrs.
  - repeat split; simpl; try assumption. now rewrite Hrn.
Qed.

Lemma deterministic_get_host (rnd : bool) : deterministic rnd get_host.
Proof.
  intros w1 w2 H. unfold get_host; simpl. split; [| exact H].
  now rewrite (proj1 H).
Qed.

Lemma deterministic_console_warn (rnd : bool) (msg : string) :
  deterministic rnd (console_warn msg).
Proof.
  intros w1 w2 (Hh & Hc & Hn & Hr). unfold console_warn; simpl.
  split; [reflexivity |]. repeat split; simpl; try assumption; now apply Hr.
Qed.

Lemma deterministic_get (rnd : bool) (o : json) (k : string) :
  deterministic rnd (get o k).
Proof.
  unfold get. destruct (nullish o);
    [apply deterministic_throw | apply deterministic_ret].
Qed.

Create HintDb frame.

#[local] Hint Resolve keepsHost_ret keepsHost_throw keepsHost_lift keepsHost_Date_now
  keepsHost_Math_random keepsHost_get_host keepsHost_get
  deterministic_ret deterministic_throw deterministic_lift deterministic_Date_now
  deterministic_Math_random deterministic_get_host deterministic_console_warn
  deterministic_get : frame.

(** One step through a computation: a primitive, a bind, or a case
    distinction on what the code branches on. *)
Ltac frame_step :=
  first
    [ solve [auto with frame]
    | apply keepsHost_bind; [| intros ?]
    | apply deterministic_bind; [| intros ?]
    | match goal with
      | |- keepsHost (if ?b then _ else _) => destruct b
      | |- keepsHost (match ?x with _ => _ end) => destruct x
      | |- deterministic _ (if ?b then _ else _) => destruct b
      | |- deterministic _ (match ?x with _ => _ end) => destruct x
      end ].

Ltac frame := cbv zeta; repeat frame_step.

Lemma keepsHost_parseUTCTime (v : json) : keepsHost (Normalizer.parseUTCTime v).
Proof. unfold Normalizer.parseUTCTime; frame. Qed.

Lemma keepsHost_determineStatus (d : Date) (f s c o : json) :
  keepsHost (Normalizer.determineStatus d f s c o).
Proof. unfold Normalizer.determineStatus; frame. Qed.

Lemma keepsHost_teamOf (t : json) : keepsHost (Normalizer.teamOf t).
Proof. unfold Normalizer.teamOf; frame. Qed.

Lemma keepsHost_pinnacleTeamOf (n : json) : keepsHost (Normalizer.pinnacleTeamOf n).
Proof. unfold Normalizer.pinnacleTeamOf; frame. Qed.

Lemma keepsHost_oddOf (u : json) (b sp : Q) (bk : string) :
  keepsHost (Normalizer.oddOf u b sp bk).
Proof. unfold Normalizer.oddOf; frame. Qed.

Lemma deterministic_parseUTCTime (rnd : bool) (v : json) :
  deterministic rnd (Normalizer.parseUTCTime v).
Proof. unfold Normalizer.parseUTCTime; frame. Qed.

Lemma deterministic_determineStatus (rnd : bool) (d : Date) (f s c o : json) :
  deterministic rnd (Normalizer.determineStatus d f s c o).
Proof. unfold Normalizer.determineStatus; frame. Qed.

Lemma deterministic_teamOf (rnd : bool) (t : json) :
  deterministic rnd (Normalizer.teamOf t).
Proof. unfold Normalizer.teamOf; frame. Qed.

Lemma deterministic_pinnacleTeamOf (rnd : bool) (n : json) :
  deterministic rnd (Normalizer.pinnacleTeamOf n).
Proof. unfold Normalizer.pinnacleTeamOf; frame. Qed.

(** Drawing a price is deterministic given the random source; with an
    upstream price it does not read the random source at all. *)
Lemma deterministic_oddOf (u : json) (b sp : Q) (bk : string) :
  deterministic true (Normalizer.oddOf u b sp bk).
Proof. unfold Normalizer.oddOf; frame. Qed.

Lemma deterministic_oddOf_priced (rnd : bool) (u : json) (b sp : Q) (bk : string) :
  truthy u = true -> deterministic rnd (Normalizer.oddOf u b sp bk).
Proof. intros Hu. unfold Normalizer.oddOf. rewrite Hu. frame. Qed.

#[local] Hint Resolve keepsHost_parseUTCTime keepsHost_determineStatus
  keepsHost_teamOf keepsHost_pinnacleTeamOf keepsHost_oddOf
  deterministic_parseUTCTime deterministic_determineStatus deterministic_teamOf
  deterministic_pinnacleTeamOf deterministic_oddOf : frame.

Lemma keepsHost_normalizeAustrianWeekendMatch (r cfg : json) :
  keepsHost (Normalizer.normalizeAustrianWeekendMatch r cfg).
Proof. unfold Normalizer.normalizeAustrianWeekendMatch; frame. Qed.

Lemma keepsHost_normalizeGermanBundesligaMatch (r cfg rnd : json) :
  keepsHost (Normalizer.normalizeGermanBundesligaMatch r cfg rnd).
Proof. unfold Normalizer.normalizeGermanBundesligaMatch; frame. Qed.

Lemma keepsHost_normalizePinnacleMatch (r cfg rnd : json) :
  keepsHost (Normalizer.normalizePinnacleMatch r cfg rnd).
Proof. unfold Normalizer.normalizePinnacleMatch; frame. Qed.

Lemma deterministic_normalizeAustrianWeekendMatch (rnd : bool) (r cfg : json) :
  deterministic rnd (Normalizer.normalizeAustrianWeekendMatch r cfg).
Proof. unfold Normalizer.normalizeAustrianWeekendMatch; frame. Qed.

Lemma deterministic_normalizeGermanBundesligaMatch (rnd : bool) (r cfg round : json) :
  deterministic rnd (Normalizer.normalizeGermanBundesligaMatch r cfg round).
Proof. unfold Normalizer.normalizeGermanBundesligaMatch; frame. Qed.

Lemma deterministic_normalizePinnacleMatch (r cfg round : json) :
  deterministic true (Normalizer.normalizePinnacleMatch r cfg round).
Proof. unfold Normalizer.normalizePinnacleMatch; frame. Qed.

Lemma deterministic_normalizeFormattedMatch (rnd : bool) (r : json) :
  deterministic rnd (Normalizer.normalizeFormattedMatch r).
Proof. unfold Normalizer.normalizeFormattedMatch; frame. Qed.

Lemma deterministic_filterRelevantMatches (rnd : bool)
    (ms : list Normalizer.NormalizedMatch) :
  deterministic rnd (Normalizer.filterRelevantMatches ms).
Proof.
  unfold Normalizer.filterRelevantMatches; frame.
  apply deterministic_filterM. intros m. frame.
Qed.

Lemma deterministic_compareMatches (rnd : bool) (a b : Normalizer.NormalizedMatch) :
  deterministic rnd (Normalizer.compareMatches a b).
Proof. unfold Normalizer.compareMatches; frame. Qed.

Lemma deterministic_insertBy {A : Type} (rnd : bool) (cmp : A -> A -> M (option Z))
    (x : A) (l : list A) :
  (forall a b, deterministic rnd (cmp a b)) ->
  deterministic rnd (Normalizer.insertBy cmp x l).
Proof.
  intros Hc. induction l as [| y l IH]; simpl; frame; apply Hc.
Qed.

Lemma deterministic_sortFrom {A : Type} (rnd : bool) (cmp : A -> A -> M (option Z))
    (acc l : list A) :
  (forall a b, deterministic rnd (cmp a b)) ->
  deterministic rnd (Normalizer.sortFrom cmp acc l).
Proof.
  intros Hc. revert acc. induction l as [| x l IH]; intros acc; simpl.
  - apply deterministic_ret.
  - apply deterministic_bind; [now apply deterministic_insertBy | intros acc'].
    apply IH.
Qed.

Lemma deterministic_sortMatches (rnd : bool) (ms : list Normalizer.NormalizedMatch) :
  deterministic rnd (Normalizer.sortMatches ms).
Proof.
  apply deterministic_sortFrom. intros a b. apply deterministic_compareMatches.
Qed.

Lemma deterministic_bind_ret {A B : Type} (rnd : bool) (a : A) (k : A -> M B) :
  deterministic rnd (k a) -> deterministic rnd (bind (ret a) k).
Proof. intros Hk w1 w2 H. exact (Hk w1 w2 H). Qed.

Lemma get_ret (o : json) (k : string) :
  nullish o = false -> get o k = ret (opt_get o k).
Proof. intros H. unfold get. now rewrite H. Qed.

Lemma deterministic_normalizePinnacleMatch_priced (rnd : bool) (r cfg round : json) :
  priced r -> deterministic rnd (Normalizer.normalizePinnacleMatch r cfg round).
Proof.
  intros (Hh & Hd & Ha). unfold moneyLineOf in Hh, Hd, Ha.
  destruct (nullish r) eqn:Hr.
  - intros w1 w2 H. unfold Normalizer.normalizePinnacleMatch, bind, get.
    rewrite Hr. split; [reflexivity | exact H].
  - unfold Normalizer.normalizePinnacleMatch. rewrite !(get_ret r) by assumption.
    cbv zeta.
    repeat first
      [ solve [auto with frame]
      | apply deterministic_oddOf_priced; assumption
      | match goal with
        | |- deterministic _ (bind (ret _) _) => apply deterministic_bind_ret
        end
      | frame_step ].
Qed.

(** The dispatcher is deterministic given the engine, the clock and the
    random source. *)
Lemma deterministic_normalizeMatches (ms : list json) (source : string)
    (cfg round : json) :
  deterministic true (Normalizer.normalizeMatches ms source cfg round).
Proof.
  unfold Normalizer.normalizeMatches.
  apply deterministic_bind;
    [| intros nms; apply deterministic_bind;
       [apply deterministic_filterRelevantMatches
       | intros fms; apply deterministic_sortMatches]].
  repeat match goal with
         | |- deterministic _ (if ?b then _ else _) => destruct b
         end;
    try (apply deterministic_bind; [apply deterministic_console_warn | intros _]);
    apply deterministic_mapM; intros r;
    first [ apply deterministic_normalizeAustrianWeekendMatch
          | apply deterministic_normalizeGermanBundesligaMatch
          | apply deterministic_normalizePinnacleMatch
          | apply deterministic_normalizeFormattedMatch ].
Qed.

(** Apart from Pinnacle records without prices, it does not depend on the
    random source either. *)
Lemma deterministic_mapM_In {A B : Type} (rnd : bool) (f : A -> M B) (l : list A) :
  (forall x, In x l -> deterministic rnd (f x)) -> deterministic rnd (mapM f l).
Proof.
  induction l as [| x l IH]; intros Hf; simpl.
  - apply deterministic_ret.
  - apply deterministic_bind; [apply Hf; now left | intros y].
    apply deterministic_bind; [| intros ys; apply deterministic_ret].
    apply IH. intros z Hz. apply Hf. now right.
Qed.

Lemma deterministic_normalizeMatches_no_random (ms : list json) (source : string)
    (cfg round : json) :
  String.eqb source "pinnacle" = false \/ (forall r, In r ms -> priced r) ->
  deterministic false (Normalizer.normalizeMatches ms source cfg round).
Proof.
  intros Hsrc. unfold Normalizer.normalizeMatches.
  apply deterministic_bind;
    [| intros nms; apply deterministic_bind;
       [apply deterministic_filterRelevantMatches
       | intros fms; apply deterministic_sortMatches]].
  destruct (String.eqb source "austrian-weekend");
    [apply deterministic_mapM; intros r;
     apply deterministic_normalizeAustrianWeekendMatch |].
  do 3 (match goal with
        | |- deterministic _ (if ?b then _ else _) =>
            destruct b;
            [apply deterministic_mapM; intros r;
             apply deterministic_normalizeGermanBundesligaMatch |]
        end).
  destruct (String.eqb source "pinnacle").
  - destruct Hsrc as [Hsrc | Hpr]; [discriminate Hsrc |].
    apply deterministic_mapM_In. intros r Hr.
    apply deterministic_normalizePinnacleMatch_priced, Hpr, Hr.
  - destruct (String.eqb source "formatted").
    + apply deterministic_mapM; intros r.
      apply deterministic_normalizeFormattedMatch.
    + apply deterministic_bind; [apply deterministic_console_warn | intros _].
      apply deterministic_mapM; intros r.
      apply deterministic_normalizeFormattedMatch.
Qed.

(** C10, as the specification states it, fails on the code: with the same
    arguments and the same clock, a Pinnacle record without a money line gets
    other prices when the random source draws other numbers. *)
Lemma pinnacle_odds_depend_on_random_draws :
  ~ (forall (ms : list json) (source : string) (cfg round : json)
            (w1 w2 : World) (now : Z),
        host w1 = host w2 ->
        (forall n, clock w1 n = now) -> (forall n, clock w2 n = now) ->
        fst (Normalizer.normalizeMatches ms source cfg round w1)
        = fst (Normalizer.normalizeMatches ms source cfg round w2)).
Proof.
  intros H.
  specialize (H [pinnacleNoPrices] "pinnacle" JUndef JUndef
                (worldAt utcHost scenarioNow 0) (worldAt utcHost scenarioNow (1 # 2))
                scenarioNow eq_refl (fun _ => eq_refl) (fun _ => eq_refl)).
  vm_compute in H. discriminate H.
Qed.

(** C10 (amended): two evaluations of [normalizeMatches] with identical
    arguments produce identical outputs when the engine is the same, the
    wall clock gives the same readings and the random source gives the same
    draws; the clock is read inside the code, not passed in.  The random
    source matters only for Pinnacle records that lack a money-line price:
    for any other shape tag, and for Pinnacle batches whose records carry
    all three prices, the same engine and clock readings are enough. *)
Theorem normalizeMatches_deterministic
    (ms : list json) (source : string) (cfg round : json) (w1 w2 : World) :
  (agree true w1 w2 ->
   fst (Normalizer.normalizeMatches ms source cfg round w1)
   = fst (Normalizer.normalizeMatches ms source cfg round w2))
  /\ (agree false w1 w2 ->
      source <> "pinnacle" \/ (forall r, In r ms -> priced r) ->
      fst (Normalizer.normalizeMatches ms source cfg round w1)
      = fst (Normalizer.normalizeMatches ms source cfg round w2)).
Proof.
  split.
  - intros H. apply (deterministic_normalizeMatches ms source cfg round w1 w2 H).
  - intros H Hsrc.
    apply (deterministic_normalizeMatches_no_random ms source cfg round); [| exact H].
    destruct Hsrc as [Hne | Hpr]; [left | now right].
    now apply String.eqb_neq.
Qed.

Lemma normalizeMatches_deterministic_witness :
  fst (Normalizer.normalizeMatches [salzburgRapid; badTimestamp] "austrian-weekend"
         JUndef JUndef (worldAt utcHost scenarioNow 0))
  = fst (Normalizer.normalizeMatches [salzburgRapid; badTimestamp] "austrian-weekend"
           JUndef JUndef (worldAt utcHost scenarioNow (1 # 2)))
  /\ fst (Normalizer.normalizeMatches [pinnacleNoPrices] "pinnacle" JUndef JUndef
            (worldAt utcHost scenarioNow (1 # 2)))
     = fst (Normalizer.normalizeMatches [pinnacleNoPrices] "pinnacle" JUndef JUndef
              (warned (worldAt utcHost scenarioNow (1 # 2)) "note")).
Proof.
  split.
  - destruct (normalizeMatches_deterministic [salzburgRapid; badTimestamp]
                "austrian-weekend" JUndef JUndef
                (worldAt utcHost scenarioNow 0)
                (worldAt utcHost scenarioNow (1 # 2))) as [_ Hclock].
    apply Hclock.
    + unfold agree; simpl. repeat split; discriminate.
    + left. discriminate.
  - destruct (normalizeMatches_deterministic [pinnacleNoPrices] "pinnacle"
                JUndef JUndef
                (worldAt utcHost scenarioNow (1 # 2))
                (warned (worldAt utcHost scenarioNow (1 # 2)) "note"))
      as [Hall _].
    apply Hall. unfold agree; simpl. repeat split.
Defined.

(** ** The dispatcher on bad records and unknown tags *)

Lemma bind_throws {A B : Type} (m : M A) (k : A -> M B) (w : World) :
  (forall a w', m w = (Ok a, w') -> throws (k a) w') -> throws (bind m k) w.
Proof.
  intros Hk. unfold throws, bind in *.
  destruct (m w) as [[a | e] w'] eqn:Em; [now apply Hk | now exists e].
Qed.

Lemma get_inv (o : json) (k : string) (w w' : World) (a : json) :
  get o k w = (Ok a, w') -> a = opt_get o k /\ w' = w.
Proof.
  unfold get. destruct (nullish o); intros H; [discriminate H |].
  injection H as <- <-. now split.
Qed.

Lemma parseUTCTime_inv (s : string) (w w' : World) (d : Date) :
  Normalizer.parseUTCTime (JStr s) w = (Ok d, w') ->
  d = utcInstant (host w) s /\ w' = w.
Proof.
  rewrite parseUTCTime_string. intros H. injection H as <- <-. now split.
Qed.

(** Once the kickoff date is invalid, every path through a normalizer ends
    in a throw: at the latest when the date is printed. *)
Ltac throws_to_end :=
  repeat (apply bind_throws; intros ? ? ?);
  match goal with
  | H : lift (toISOString None) _ = (Ok _, _) |- _ => discriminate H
  end.

Lemma normalizeAustrianWeekendMatch_invalid (r cfg : json) (s : string) (w : World) :
  opt_get r "utcTime" = JStr s -> utcInstant (host w) s = None ->
  throws (Normalizer.normalizeAustrianWeekendMatch r cfg) w.
Proof.
  intros Hs Hd. unfold Normalizer.normalizeAustrianWeekendMatch. cbv zeta.
  apply bind_throws. intros utc w1 H1. apply get_inv in H1 as [-> ->].
  rewrite Hs. apply bind_throws. intros d w2 H2.
  apply parseUTCTime_inv in H2 as [-> ->]. rewrite Hd.
  throws_to_end.
Qed.

Lemma normalizeGermanBundesligaMatch_invalid (r cfg rnd : json) (s : string)
    (w : World) :
  opt_get (opt_get r "status") "utcTime" = JStr s -> utcInstant (host w) s = None ->
  throws (Normalizer.normalizeGermanBundesligaMatch r cfg rnd) w.
Proof.
  intros Hs Hd. unfold Normalizer.normalizeGermanBundesligaMatch. cbv zeta.
  apply bind_throws. intros st w1 H1. apply get_inv in H1 as [-> ->].
  rewrite Hs. apply bind_throws. intros d w2 H2.
  apply parseUTCTime_inv in H2 as [-> ->]. rewrite Hd.
  throws_to_end.
Qed.

Lemma normalizePinnacleMatch_invalid (r cfg rnd : json) (s : string) (w : World) :
  opt_get r "starts" = JStr s -> utcInstant (host w) s = None ->
  throws (Normalizer.normalizePinnacleMatch r cfg rnd) w.
Proof.
  intros Hs Hd. unfold Normalizer.normalizePinnacleMatch. cbv zeta.
  apply bind_throws. intros st w1 H1. apply get_inv in H1 as [-> ->].
  rewrite Hs. apply bind_throws. intros d w2 H2.
  apply parseUTCTime_inv in H2 as [-> ->]. rewrite Hd.
  throws_to_end.
Qed.

(** A record on which the callback throws in every world of this engine
    makes the whole map throw. *)
Lemma mapM_throws {A B : Type} (f : A -> M B) (l : list A) (r : A) (w : World) :
  (forall x, keepsHost (f x)) -> In r l ->
  (forall w', host w' = host w -> throws (f r) w') ->
  throws (mapM f l) w.
Proof.
  intros Hf. revert w. induction l as [| x l IH]; intros w Hin Hr; [destruct Hin |].
  simpl. apply bind_throws. intros y w1 Hx.
  destruct Hin as [-> | Hin].
  - destruct (Hr w eq_refl) as [e He]. rewrite Hx in He. discriminate He.
  - apply bind_throws. intros ys w2 Hys. exfalso.
    assert (Hh : host w1 = host w) by (rewrite <- (Hf x w), Hx; reflexivity).
    destruct (IH w1 Hin) as [e He].
    + intros w' Hw'. apply Hr. now rewrite Hw'.
    + rewrite Hys in He. discriminate He.
Qed.

Lemma normalizeMatches_invalid_timestamp (ms : list json) (source : string)
    (cfg round r : json) (s : string) (w : World) :
  parsingSource source = true -> In r ms ->
  timestampOf source r = JStr s -> utcInstant (host w) s = None ->
  throws (Normalizer.normalizeMatches ms source cfg round) w.
Proof.
  intros Hsrc Hin Hts Hd. unfold Normalizer.normalizeMatches.
  apply bind_throws. intros nms w1 Hmap. exfalso.
  assert (Hthrow : throws
            (if String.eqb source "austrian-weekend" then
               mapM (fun m => Normalizer.normalizeAustrianWeekendMatch m cfg) ms
             else if String.eqb source "german-bundesliga" then
               mapM (fun m => Normalizer.normalizeGermanBundesligaMatch m
                      (or_else cfg Normalizer.LEAGUE_CONFIGS.GERMAN_BUNDESLIGA) round) ms
             else if String.eqb source "german-2bundesliga" then
               mapM (fun m => Normalizer.normalizeGermanBundesligaMatch m
                      (or_else cfg Normalizer.LEAGUE_CONFIGS.GERMAN_2BUNDESLIGA) round) ms
             else if String.eqb source "premier-league" then
               mapM (fun m => Normalizer.normalizeGermanBundesligaMatch m
                      (or_else cfg Normalizer.LEAGUE_CONFIGS.PREMIER_LEAGUE) round) ms
             else if String.eqb source "pinnacle" then
               mapM (fun m => Normalizer.normalizePinnacleMatch m cfg round) ms
             else if String.eqb source "formatted" then
               mapM Normalizer.normalizeFormattedMatch ms
             else
               _ <- console_warn ("Unknown match source format: " ++ source) ;;
               mapM Normalizer.normalizeFormattedMatch ms) w).
  { unfold parsingSource in Hsrc. unfold timestampOf in Hts.
    destruct (String.eqb source "austrian-weekend") eqn:E1.
    { apply (mapM_throws _ ms r w); [| exact Hin |].
      - intros x. apply keepsHost_normalizeAustrianWeekendMatch.
      - intros w' Hw'. apply (normalizeAustrianWeekendMatch_invalid r cfg s);
          [exact Hts | now rewrite Hw']. }
    destruct (String.eqb source "pinnacle") eqn:E5.
    { assert (E : forall t, String.eqb source t = true -> t = "pinnacle").
      { intros t Ht. apply String.eqb_eq in Ht, E5. congruence. }
      destruct (String.eqb source "german-bundesliga") eqn:E2;
        [now specialize (E _ E2) |].
      destruct (String.eqb source "german-2bundesliga") eqn:E3;
        [now specialize (E _ E3) |].
      destruct (String.eqb source "premier-league") eqn:E4;
        [now specialize (E _ E4) |].
      apply (mapM_throws _ ms r w); [| exact Hin |].
      - intros x. apply keepsHost_normalizePinnacleMatch.
      - intros w' Hw'. apply (normalizePinnacleMatch_invalid r cfg round s);
          [exact Hts | now rewrite Hw']. }
    repeat match goal with
           | |- throws (if ?b then _ else _) _ =>
               destruct b eqn:?;
               [apply (mapM_throws _ ms r w); [| exact Hin |];
                [intros x; apply keepsHost_normalizeGermanBundesligaMatch
                | intros w' Hw';
                  apply (normalizeGermanBundesligaMatch_invalid r _ round s);
                  [exact Hts | now rewrite Hw']] |]
           end.
    simpl in Hsrc. discriminate Hsrc. }
  destruct Hthrow as [e He]. rewrite Hmap in He. discriminate He.
Qed.

Lemma mapM_pure {A B : Type} (f : A -> M B) (g : A -> B) (l : list A) (w : World) :
  (forall x, In x l -> f x w = (Ok (g x), w)) ->
  mapM f l w = (Ok (map g l), w).
Proof.
  induction l as [| x l IH]; intros Hf; simpl; [reflexivity |].
  unfold bind. rewrite (Hf x (or_introl eq_refl)).
  rewrite IH by (intros y Hy; apply Hf; now right). reflexivity.
Qed.

Lemma normalizeFormattedMatch_run (r : json) (w : World) :
  nullish r = false ->
  Normalizer.normalizeFormattedMatch r w = (Ok (formattedOf r), w).
Proof.
  intros Hr. unfold Normalizer.normalizeFormattedMatch, bind.
  rewrite !(get_not_nullish r) by assumption. reflexivity.
Qed.

Lemma compareMatches_run (a b : Normalizer.NormalizedMatch) (w : World) :
  has_own "toString" (Normalizer.kickoffTime a) = false ->
  has_own "toString" (Normalizer.kickoffTime b) = false ->
  exists c, Normalizer.compareMatches a b w = (Ok c, w).
Proof.
  intros Ha Hb. unfold Normalizer.compareMatches.
  destruct (Normalizer.isLive a && negb (Normalizer.isLive b)); [now eexists |].
  destruct (negb (Normalizer.isLive a) && Normalizer.isLive b); [now eexists |].
  unfold bind, get_host, lift.
  destruct (new_Date_no_throw (host w) _ Ha) as [da ->].
  destruct (new_Date_no_throw (host w) _ Hb) as [db ->].
  now eexists.
Qed.

(** Sorting with a comparator that never throws and leaves the world alone
    rearranges the list. *)
Lemma insertBy_permutation {A : Type} (cmp : A -> A -> M (option Z)) (P : A -> Prop)
    (x : A) (l : list A) (w : World) :
  (forall a b, P a -> P b -> exists c, cmp a b w = (Ok c, w)) ->
  P x -> Forall P l ->
  exists out, Normalizer.insertBy cmp x l w = (Ok out, w)
              /\ Permutation (x :: l) out.
Proof.
  intros Hc Hx. induction l as [| y l IH]; intros Hl; simpl.
  - exists [x]. split; [reflexivity | apply Permutation_refl].
  - inversion Hl as [| y' l' Hy Hl']; subst.
    destruct (Hc x y Hx Hy) as [c Hcmp]. unfold bind. rewrite Hcmp.
    destruct (IH Hl') as [out [Hrun Hperm]].
    assert (Hrest : (r <- Normalizer.insertBy cmp x l ;; ret (y :: r)) w
                    = (Ok (y :: out), w))
      by (unfold bind; rewrite Hrun; reflexivity).
    assert (Hp : Permutation (x :: y :: l) (y :: out))
      by (rewrite perm_swap; now apply perm_skip).
    destruct c as [n |].
    + destruct (n <? 0).
      * exists (x :: y :: l). split; [reflexivity | apply Permutation_refl].
      * exists (y :: out). split; assumption.
    + exists (y :: out). split; assumption.
Qed.

Lemma sortFrom_permutation {A : Type} (cmp : A -> A -> M (option Z)) (P : A -> Prop)
    (acc l : list A) (w : World) :
  (forall a b, P a -> P b -> exists c, cmp a b w = (Ok c, w)) ->
  Forall P acc -> Forall P l ->
  exists out, Normalizer.sortFrom cmp acc l w = (Ok out, w)
              /\ Permutation (acc ++ l) out.
Proof.
  intros Hc. revert acc. induction l as [| x l IH]; intros acc Hacc Hl; simpl.
  - exists acc. split; [reflexivity |]. rewrite app_nil_r. apply Permutation_refl.
  - inversion Hl as [| x' l' Hx Hl']; subst.
    destruct (insertBy_permutation cmp P x acc w Hc Hx Hacc) as [acc' [Hrun Hperm]].
    unfold bind. rewrite Hrun.
    assert (Hacc' : Forall P acc').
    { apply Forall_forall. intros z Hz.
      apply (Permutation_in _ (Permutation_sym Hperm)) in Hz.
      destruct Hz as [<- | Hz]; [exact Hx |].
      now apply (proj1 (Forall_forall P acc) Hacc). }
    destruct (IH acc' Hacc' Hl') as [out [Hrun' Hperm']].
    exists out. split; [exact Hrun' |].
    rewrite <- Hperm'. rewrite <- Hperm.
    apply Permutation_sym, Permutation_middle.
Qed.

Lemma sortMatches_permutation (ms : list Normalizer.NormalizedMatch) (w : World) :
  Forall (fun m => has_own "toString" (Normalizer.kickoffTime m) = false) ms ->
  exists out, Normalizer.sortMatches ms w = (Ok out, w) /\ Permutation ms out.
Proof.
  intros Hms.
  apply (sortFrom_permutation Normalizer.compareMatches
           (fun m => has_own "toString" (Normalizer.kickoffTime m) = false) [] ms w);
    [| constructor | exact Hms].
  intros a b Ha Hb. now apply compareMatches_run.
Qed.

(** The pass-through pipeline on records it can take: the records are
    copied, filtered by time and rearranged, and nothing throws. *)
Lemma normalizeMatches_formatted_run (ms : list json) (cfg round : json) (w : World) :
  (forall r, In r ms -> formattedRecord r) ->
  exists out,
    Normalizer.normalizeMatches ms "formatted" cfg round w = (Ok out, ticked w)
    /\ Permutation
         (filter (keptByTime (host w) (clock w (clock_reads w))) (map formattedOf ms))
         out.
Proof.
  intros Hms. unfold Normalizer.normalizeMatches. simpl String.eqb. cbv iota.
  unfold bind at 1.
  rewrite (mapM_pure _ formattedOf)
    by (intros r Hr; apply normalizeFormattedMatch_run, (Hms r Hr)).
  assert (Hk : forall m, In m (map formattedOf ms) ->
                         has_own "toString" (Normalizer.kickoffTime m) = false).
  { intros m Hm. apply in_map_iff in Hm as [r [<- Hr]]. apply (Hms r Hr). }
  unfold bind. rewrite (Normalizer_filterRelevantMatches_run _ w Hk).
  apply sortMatches_permutation. apply Forall_forall. intros m Hm.
  apply filter_In in Hm as [Hm _]. now apply Hk.
Qed.

(** C7, as the specification states it, fails on the code: the weekend
    batch of the scenario's record and a record whose month is 13 is lost as
    a whole to the [RangeError] of [toISOString], while the good record alone
    is normalized. *)
Lemma bad_timestamp_aborts_batch :
  (exists m,
      fst (Normalizer.normalizeMatches [salzburgRapid] "austrian-weekend"
             JUndef JUndef (worldAt utcHost scenarioNow 0)) = Ok [m])
  /\ fst (Normalizer.normalizeMatches [salzburgRapid; badTimestamp] "austrian-weekend"
            JUndef JUndef (worldAt utcHost scenarioNow 0)) = Throw RangeError
  /\ ~ (forall (ms : list json) (source : string) (cfg round : json) (w : World),
           exists out, fst (Normalizer.normalizeMatches ms source cfg round w) = Ok out).
Proof.
  split; [| split].
  - vm_compute. eexists. reflexivity.
  - vm_compute. reflexivity.
  - intros H.
    destruct (H [salzburgRapid; badTimestamp] "austrian-weekend" JUndef JUndef
                (worldAt utcHost scenarioNow 0)) as [out Hout].
    vm_compute in Hout. discriminate Hout.
Qed.

(** C7 (amended): under the tags whose normalizer parses the kickoff
    timestamp (austrian-weekend, german-bundesliga, german-2bundesliga,
    premier-league, pinnacle), a record whose timestamp string does not parse
    into a valid date makes [normalizeMatches] throw, and the batch is lost;
    under the tag formatted, a batch of records that are objects is
    normalized without a throw, and the output is a rearrangement of the
    records whose kickoff time is a valid date less than 120 minutes old, so
    a record with an unparseable kickoff time is dropped and the others are
    kept. *)
Theorem unparseable_timestamp_handling :
  (forall (ms : list json) (source : string) (cfg round r : json) (s : string)
          (w : World),
      parsingSource source = true -> In r ms ->
      timestampOf source r = JStr s -> utcInstant (host w) s = None ->
      exists e, fst (Normalizer.normalizeMatches ms source cfg round w) = Throw e)
  /\ (forall (ms : list json) (cfg round : json) (w : World),
         (forall r, In r ms -> formattedRecord r) ->
         exists out,
           fst (Normalizer.normalizeMatches ms "formatted" cfg round w) = Ok out
           /\ Permutation
                (filter (keptByTime (host w) (clock w (clock_reads w)))
                        (map formattedOf ms)) out
           /\ forall m, In m out ->
                exists k, new_Date (host w) (Normalizer.kickoffTime m) = Ok (Some k)).
Proof.
  split.
  - intros ms source cfg round r s w Hsrc Hin Hts Hd.
    exact (normalizeMatches_invalid_timestamp ms source cfg round r s w Hsrc Hin Hts Hd).
  - intros ms cfg round w Hms.
    destruct (normalizeMatches_formatted_run ms cfg round w Hms) as [out [Hrun Hperm]].
    exists out. rewrite Hrun. split; [reflexivity |]. split; [exact Hperm |].
    intros m Hm. apply (Permutation_in _ (Permutation_sym Hperm)) in Hm.
    apply filter_In in Hm as [_ Hk]. apply keptByTime_iff in Hk as [k [Hk _]].
    now exists k.
Qed.

Lemma unparseable_timestamp_handling_witness :
  (exists e,
      fst (Normalizer.normalizeMatches [salzburgRapid; badTimestamp] "austrian-weekend"
             JUndef JUndef (worldAt utcHost scenarioNow 0)) = Throw e)
  /\ (exists out,
         fst (Normalizer.normalizeMatches
                [formattedSalzburg; JObj [("kickoffTime", JStr "2025-13-22T18:30:00Z")]]
                "formatted" JUndef JUndef (worldAt utcHost scenarioNow 0)) = Ok out
         /\ Permutation [formattedOf formattedSalzburg] out).
Proof.
  destruct unparseable_timestamp_handling as [Hthrow Hformatted].
  split.
  - apply (Hthrow [salzburgRapid; badTimestamp] "austrian-weekend" JUndef JUndef
             badTimestamp "2025-13-22T18:30:00Z" (worldAt utcHost scenarioNow 0));
      [reflexivity | right; now left | reflexivity | reflexivity].
  - destruct (Hformatted
                [formattedSalzburg; JObj [("kickoffTime", JStr "2025-13-22T18:30:00Z")]]
                JUndef JUndef (worldAt utcHost scenarioNow 0))
      as [out [Hrun [Hperm _]]].
    + intros r [<- | [<- | []]]; split; reflexivity.
    + exists out. split; [exact Hrun | exact Hperm].
Defined.

(** C8, as the specification states it, fails on the code: with the unknown
    tag "betfair", the dispatcher returns the record as the pass-through
    leaves it. *)
Lemma unknown_tag_returns_a_result :
  ~ (forall (ms : list json) (source : string) (cfg round : json) (w : World),
        supported source = false ->
        exists e, fst (Normalizer.normalizeMatches ms source cfg round w) = Throw e).
Proof.
  intros H.
  destruct (H [formattedSalzburg] "betfair" JUndef JUndef
              (worldAt utcHost scenarioNow 0) eq_refl) as [e He].
  vm_compute in He. discriminate He.
Qed.

(** C8 (amended): for a tag outside the supported set, [normalizeMatches]
    writes the warning "Unknown match source format: <tag>" to the console
    and then does exactly what it does for the tag formatted; it signals no
    error of its own, and on a batch of records that are objects it returns
    the records the pass-through and the time filter leave. *)
Theorem unsupported_tag_falls_back_to_formatted
    (ms : list json) (source : string) (cfg round : json) (w : World) :
  supported source = false ->
  Normalizer.normalizeMatches ms source cfg round w
  = Normalizer.normalizeMatches ms "formatted" cfg round
      (warned w ("Unknown match source format: " ++ source))
  /\ ((forall r, In r ms -> formattedRecord r) ->
      exists out,
        fst (Normalizer.normalizeMatches ms source cfg round w) = Ok out
        /\ Permutation
             (filter (keptByTime (host w) (clock w (clock_reads w)))
                     (map formattedOf ms)) out).
Proof.
  intros Hsrc. unfold supported in Hsrc.
  repeat (apply orb_false_iff in Hsrc as [Hsrc ?]).
  assert (Heq : Normalizer.normalizeMatches ms source cfg round w
                = Normalizer.normalizeMatches ms "formatted" cfg round
                    (warned w ("Unknown match source format: " ++ source))).
  { unfold Normalizer.normalizeMatches.
    repeat match goal with
           | H : String.eqb source _ = false |- _ => rewrite H; clear H
           end.
    reflexivity. }
  split; [exact Heq |].
  intros Hms. rewrite Heq.
  destruct (normalizeMatches_formatted_run ms cfg round
              (warned w ("Unknown match source format: " ++ source)) Hms)
    as [out [Hrun Hperm]].
  exists out. rewrite Hrun. split; [reflexivity | exact Hperm].
Qed.

Lemma unsupported_tag_falls_back_to_formatted_witness :
  exists out,
    fst (Normalizer.normalizeMatches [formattedSalzburg] "betfair" JUndef JUndef
           (worldAt utcHost scenarioNow 0)) = Ok out
    /\ Permutation [formattedOf formattedSalzburg] out.
Proof.
  destruct (unsupported_tag_falls_back_to_formatted [formattedSalzburg] "betfair"
              JUndef JUndef (worldAt utcHost scenarioNow 0) eq_refl) as [_ Hrun].
  apply Hrun. intros r [<- | []]. split; reflexivity.
Defined.

(** ** The round selector *)

(** With one unit of fuel per match the grouping loop ends, and builds the
    consecutive groups. *)
Lemma buildRounds_groupsOf {A : Type} (mpr : nat) (ms : list A) (fuel i : nat) :
  (0 < mpr)%nat -> (List.length ms - i <= fuel)%nat ->
  Utils.buildRounds fuel i mpr ms = Some (Spec.groupsOf fuel mpr (skipn i ms)).
Proof.
  intros Hmpr. revert i. induction fuel as [| fuel IH]; intros i Hfuel; simpl.
  - destruct (Nat.ltb_spec i (List.length ms)); [lia | reflexivity].
  - destruct (Nat.ltb_spec i (List.length ms)) as [Hi | Hi].
    + rewrite IH by lia. simpl. unfold Utils.slice.
      replace (i + mpr - i)%nat with mpr by lia.
      rewrite skipn_skipn, (Nat.add_comm mpr i).
      destruct (skipn i ms) as [| x l] eqn:Es; [| reflexivity].
      apply (f_equal (@List.length A)) in Es. rewrite length_skipn in Es.
      simpl in Es. lia.
    + rewrite skipn_all2 by lia. reflexivity.
Qed.

(** More fuel than matches changes nothing. *)
Lemma groupsOf_fuel {A : Type} (mpr n m : nat) (l : list A) :
  (0 < mpr)%nat -> (List.length l <= n)%nat -> (List.length l <= m)%nat ->
  Spec.groupsOf n mpr l = Spec.groupsOf m mpr l.
Proof.
  intros Hmpr. revert m l. induction n as [| n IH]; intros m l Hn Hm.
  - destruct l; [| simpl in Hn; lia]. destruct m; reflexivity.
  - destruct l as [| x l]; [destruct m; reflexivity |].
    destruct m as [| m]; [simpl in Hm; lia |].
    remember (x :: l) as xl eqn:El.
    assert (Hg : forall k, Spec.groupsOf (S k) mpr xl
                           = firstn mpr xl :: Spec.groupsOf k mpr (skipn mpr xl))
      by (intros k; subst xl; reflexivity).
    rewrite !Hg. f_equal.
    apply IH; rewrite length_skipn; subst xl; simpl List.length in *; lia.
Qed.

Lemma buildRounds_partition {A : Type} (mpr fuel : nat) (ms : list A) :
  (0 < mpr)%nat -> (List.length ms <= fuel)%nat ->
  Utils.buildRounds fuel 0 mpr ms = Some (Spec.partition mpr ms).
Proof.
  intros Hmpr Hfuel. rewrite buildRounds_groupsOf by lia.
  unfold Spec.partition. simpl skipn. f_equal.
  now apply groupsOf_fuel.
Qed.

Lemma calculateCurrentRound_run (fuel : nat) (ms : list Utils.CachedMatch)
    (cfg : Utils.LeagueConfig) (w : World) :
  (0 < Utils.matchesPerRound cfg)%nat -> (List.length ms <= fuel)%nat ->
  fst (Utils.calculateCurrentRound fuel ms cfg w)
  = Ok (Some (match Utils.findRound (host w) (clock w (clock_reads w)) 0
                      (Spec.partition (Utils.matchesPerRound cfg) ms) with
              | Some r => r
              | None => List.length (Spec.partition (Utils.matchesPerRound cfg) ms)
              end)).
Proof.
  intros Hmpr Hfuel.
  unfold Utils.calculateCurrentRound, bind, Date_now, get_host, ret.
  simpl. rewrite buildRounds_partition by assumption.
  destruct (Utils.findRound _ _ 0 _); reflexivity.
Qed.

(** The search returns an index within the rounds it was given. *)
Lemma findRound_bounds (h : Host) (now : Z) (rounds : list (list Utils.CachedMatch))
    (idx r : nat) :
  Utils.findRound h now idx rounds = Some r ->
  (idx < r <= idx + List.length rounds)%nat.
Proof.
  revert idx. induction rounds as [| g rounds IH]; intros idx H; simpl in H.
  - discriminate H.
  - destruct (Utils.lastOf g) as [m |].
    + destruct (Utils.lt_nan _ _).
      * injection H as <-. simpl. lia.
      * apply IH in H. simpl. lia.
    + apply IH in H. simpl. lia.
Qed.

(** A round that is still open at a later instant was open before. *)
Lemma findRound_monotone (h : Host) (t1 t2 : Z)
    (rounds : list (list Utils.CachedMatch)) (idx r2 : nat) :
  t1 <= t2 ->
  Utils.findRound h t2 idx rounds = Some r2 ->
  exists r1, Utils.findRound h t1 idx rounds = Some r1 /\ (r1 <= r2)%nat.
Proof.
  intros Ht. revert idx. induction rounds as [| g rounds IH]; intros idx H;
    simpl in *; [discriminate H |].
  destruct (Utils.lastOf g) as [m |]; [| now apply IH].
  destruct (Date_parse h (Utils.fixture_date m)) as [k |]; simpl in *;
    [| now apply IH].
  destruct (Z.ltb_spec (t2 - k) Utils.GRACE_PERIOD_MS) as [H2 | H2].
  - injection H as <-.
    destruct (Z.ltb_spec (t1 - k) Utils.GRACE_PERIOD_MS); [| lia].
    exists (S idx). split; [reflexivity | lia].
  - destruct (Z.ltb_spec (t1 - k) Utils.GRACE_PERIOD_MS).
    + exists (S idx). split; [reflexivity |].
      apply findRound_bounds in H. lia.
    + now apply IH.
Qed.

(** C5: for a fixed match list and [matchesPerRound], the round index
    returned at a clock reading [t1] is at most the one returned at a later
    reading [t2], with enough fuel for the grouping loop to end; the list
    need not even be sorted. *)
Theorem round_index_monotone (fuel : nat) (ms : list Utils.CachedMatch)
    (cfg : Utils.LeagueConfig) (w1 w2 : World) :
  (0 < Utils.matchesPerRound cfg)%nat ->
  (List.length ms <= fuel)%nat ->
  host w1 = host w2 ->
  clock w1 (clock_reads w1) <= clock w2 (clock_reads w2) ->
  exists r1 r2,
    fst (Utils.calculateCurrentRound fuel ms cfg w1) = Ok (Some r1)
    /\ fst (Utils.calculateCurrentRound fuel ms cfg w2) = Ok (Some r2)
    /\ (r1 <= r2)%nat.
Proof.
  intros Hmpr Hfuel Hh Ht. rewrite !calculateCurrentRound_run by assumption.
  rewrite <- Hh. do 2 eexists. split; [reflexivity |]. split; [reflexivity |].
  destruct (Utils.findRound (host w1) (clock w2 (clock_reads w2)) 0 _)
    as [r2 |] eqn:E2.
  - destruct (findRound_monotone _ _ _ _ _ _ Ht E2) as [r1 [-> Hle]]. exact Hle.
  - destruct (Utils.findRound (host w1) (clock w1 (clock_reads w1)) 0 _)
      as [r1 |] eqn:E1; [| lia].
    apply findRound_bounds in E1. lia.
Qed.

Lemma round_index_monotone_witness :
  exists r1 r2,
    fst (Utils.calculateCurrentRound 5 fiveFixtures twoPerRound
           (worldAt utcHost (1755887400000 + 90 * 60000) 0)) = Ok (Some r1)
    /\ fst (Utils.calculateCurrentRound 5 fiveFixtures twoPerRound
              (worldAt utcHost (1755887400000 + 130 * 60000) 0)) = Ok (Some r2)
    /\ (r1 <= r2)%nat.
Proof.
  apply (round_index_monotone 5 fiveFixtures twoPerRound
           (worldAt utcHost (1755887400000 + 90 * 60000) 0)
           (worldAt utcHost (1755887400000 + 130 * 60000) 0)).
  - simpl; lia.
  - simpl; lia.
  - reflexivity.
  - simpl; lia.
Defined.












(** * Further properties of the code *)

(** ** Team ids and short names *)

Lemma lower_char_not_upper (c : ascii) : is_upper (lower_char c) = false.
Proof. destruct c as [[] [] [] [] [] [] [] []]; reflexivity. Qed.

Lemma lower_char_space (c : ascii) : is_space (lower_char c) = is_space c.
Proof. destruct c as [[] [] [] [] [] [] [] []]; reflexivity. Qed.

Lemma upper_char_not_lower (c : ascii) : is_lower (upper_char c) = false.
Proof. destruct c as [[] [] [] [] [] [] [] []]; reflexivity. Qed.

Lemma upper_char_blank (c : ascii) :
  Ascii.eqb (upper_char c) " " = Ascii.eqb c " ".
Proof. destruct c as [[] [] [] [] [] [] [] []]; reflexivity. Qed.

Lemma lower_char_fixed (c : ascii) : is_upper c = false -> lower_char c = c.
Proof. intros H. unfold lower_char. now rewrite H. Qed.

Lemma replace_ws_no_space (b : bool) (s : string) :
  allChars (fun c => negb (is_space c)) (replace_ws_from b s) = true.
Proof.
  revert b. induction s as [| c s IH]; intros b; simpl; [reflexivity |].
  destruct (is_space c) eqn:Ec.
  - destruct b; simpl; apply IH.
  - simpl. rewrite Ec. simpl. apply IH.
Qed.

Lemma toLowerCase_chars (s : string) :
  allChars (fun c => negb (is_space c)) s = true ->
  allChars (fun c => negb (is_space c) && negb (is_upper c)) (toLowerCase s) = true.
Proof.
  unfold toLowerCase. induction s as [| c s IH]; simpl; [reflexivity |].
  intros H. apply andb_prop in H as [Hc Hs].
  rewrite lower_char_space, Hc, lower_char_not_upper. simpl. now apply IH.
Qed.

Lemma slug_fixed (s : string) :
  allChars (fun c => negb (is_space c) && negb (is_upper c)) s = true ->
  toLowerCase (replace_ws s) = s.
Proof.
  unfold replace_ws, toLowerCase. induction s as [| c s IH]; simpl; [reflexivity |].
  intros H. apply andb_prop in H as [Hc Hs]. apply andb_prop in Hc as [Hsp Hup].
  apply negb_true_iff in Hsp, Hup. rewrite Hsp. simpl.
  rewrite (lower_char_fixed c Hup). f_equal. now apply IH.
Qed.

(** X1: the team id derived from an ASCII name contains no white space and
    no upper-case letter, and deriving an id from an id gives the id back. *)
Theorem generateTeamId_idempotent (s : string) :
  isAscii s = true ->
  exists t,
    Normalizer.generateTeamId (JStr s) = Ok t
    /\ allChars (fun c => negb (is_space c) && negb (is_upper c)) t = true
    /\ Normalizer.generateTeamId (JStr t) = Ok t.
Proof.
  intros _. exists (toLowerCase (replace_ws s)).
  assert (Hc : allChars (fun c => negb (is_space c) && negb (is_upper c))
                 (toLowerCase (replace_ws s)) = true)
    by (apply toLowerCase_chars, replace_ws_no_space).
  split; [reflexivity |]. split; [exact Hc |].
  simpl. f_equal. now apply slug_fixed.
Qed.

Lemma join_char0_length (l : list string) :
  String.length (join_empty (map char0 l))
  = List.length (filter (fun wd => negb (String.eqb wd "")) l).
Proof.
  induction l as [| wd l IH]; [reflexivity |].
  destruct wd as [| c wd]; simpl; [exact IH |]. now rewrite IH.
Qed.

Lemma substring_0_length (n : nat) (s : string) :
  String.length (substring 0 n s) = Nat.min n (String.length s).
Proof.
  revert s. induction n as [| n IH]; intros [| c s]; simpl; try reflexivity.
  now rewrite IH.
Qed.

Lemma map_string_length (f : ascii -> ascii) (s : string) :
  String.length (map_string f s) = String.length s.
Proof. induction s as [| c s IH]; simpl; [reflexivity | now rewrite IH]. Qed.

Lemma initials_no_blank (b : bool) (s : string) :
  allChars (fun c => negb (Ascii.eqb c " ")) (Spec.initials b s) = true.
Proof.
  revert b. induction s as [| c s IH]; intros b; simpl; [reflexivity |].
  destruct (Ascii.eqb c " ") eqn:Ec; [apply IH |].
  destruct b; [| apply IH]. simpl. rewrite Ec. simpl. apply IH.
Qed.

Lemma substring_0_allChars (p : ascii -> bool) (n : nat) (s : string) :
  allChars p s = true -> allChars p (substring 0 n s) = true.
Proof.
  revert s. induction n as [| n IH]; intros [| c s]; simpl; try reflexivity.
  intros H. apply andb_prop in H as [Hc Hs]. rewrite Hc. simpl. now apply IH.
Qed.

Lemma toUpperCase_chars (s : string) :
  allChars (fun c => negb (Ascii.eqb c " ")) s = true ->
  allChars (fun c => negb (Ascii.eqb c " ") && negb (is_lower c)) (toUpperCase s) = true.
Proof.
  unfold toUpperCase. induction s as [| c s IH]; simpl; [reflexivity |].
  intros H. apply andb_prop in H as [Hc Hs].
  rewrite upper_char_blank, Hc, upper_char_not_lower. simpl. now apply IH.
Qed.

Lemma generateTeamId_idempotent_witness :
  exists t,
    Normalizer.generateTeamId (JStr "FC  Red Bull Salzburg") = Ok t
    /\ t = "fc-red-bull-salzburg"
    /\ Normalizer.generateTeamId (JStr t) = Ok t.
Proof.
  destruct (generateTeamId_idempotent "FC  Red Bull Salzburg" eq_refl)
    as [t [Hrun [_ Hid]]].
  exists t. split; [exact Hrun |]. split; [| exact Hid].
  vm_compute in Hrun. now injection Hrun as <-.
Defined.

(** X2: the short name derived from an ASCII name has one character per
    non-empty word, at most three; it contains no blank and no lower-case
    letter. *)
Theorem generateShortName_shape (s : string) :
  isAscii s = true ->
  exists t,
    Normalizer.generateShortName (JStr s) = Ok t
    /\ String.length t = Nat.min 3 (wordCount s)
    /\ allChars (fun c => negb (Ascii.eqb c " ") && negb (is_lower c)) t = true.
Proof.
  intros _. eexists. split; [reflexivity |]. split.
  - unfold toUpperCase. rewrite map_string_length, substring_0_length.
    now rewrite join_char0_length.
  - apply toUpperCase_chars, substring_0_allChars.
    rewrite (proj1 (split_on_initials s)). apply initials_no_blank.
Qed.

Lemma generateShortName_shape_witness :
  exists t,
    Normalizer.generateShortName (JStr "sk  rapid wien ii") = Ok t
    /\ String.length t = 3%nat.
Proof.
  destruct (generateShortName_shape "sk  rapid wien ii" eq_refl) as [t [Hrun [Hlen _]]].
  exists t. split; [exact Hrun | exact Hlen].
Defined.

(** ** Status from flags *)

Lemma determineStatus_cases (d : Date) (f s c o : json) (w : World) :
  fst (Normalizer.determineStatus d f s c o w)
  = Ok (if truthy c then Normalizer.CANCELLED
        else if truthy f then Normalizer.FINISHED
        else if truthy s
                || (nan_ge (minutes_between (clock w (clock_reads w)) d) 0
                    && nan_lt (minutes_between (clock w (clock_reads w)) d) 120)
        then Normalizer.LIVE
        else if truthy o then Normalizer.LIVE
        else Normalizer.SCHEDULED).
Proof.
  unfold Normalizer.determineStatus.
  destruct (truthy c); [reflexivity |]. destruct (truthy f); [reflexivity |].
  unfold bind, Date_now.
  destruct (truthy s
            || (nan_ge (minutes_between (clock w (clock_reads w)) d) 0
                && nan_lt (minutes_between (clock w (clock_reads w)) d) 120));
    [reflexivity |].
  destruct (truthy o); reflexivity.
Qed.

(** X3: in [determineStatus] a truthy cancelled flag wins over everything,
    then a truthy finished flag, then a truthy started flag (LIVE whatever
    the elapsed time); the clock is not read for a cancelled or finished
    match.  CANCELLED and FINISHED are never derived from the time: without
    these flags, a match whose kickoff is an invalid date or lies 120 minutes
    or more in the past is LIVE if started or ongoing is truthy and SCHEDULED
    otherwise. *)
Theorem determineStatus_flag_priority (d : Date) (f s c o : json) (w : World) :
  (truthy c = true ->
   Normalizer.determineStatus d f s c o w = (Ok Normalizer.CANCELLED, w))
  /\ (truthy c = false -> truthy f = true ->
      Normalizer.determineStatus d f s c o w = (Ok Normalizer.FINISHED, w))
  /\ (truthy c = false -> truthy f = false -> truthy s = true ->
      fst (Normalizer.determineStatus d f s c o w) = Ok Normalizer.LIVE)
  /\ (fst (Normalizer.determineStatus d f s c o w) = Ok Normalizer.CANCELLED ->
      truthy c = true)
  /\ (fst (Normalizer.determineStatus d f s c o w) = Ok Normalizer.FINISHED ->
      truthy c = false /\ truthy f = true)
  /\ (truthy c = false -> truthy f = false ->
      (d = None
       \/ exists k, d = Some k /\ 120 * 60000 <= clock w (clock_reads w) - k) ->
      fst (Normalizer.determineStatus d f s c o w)
      = Ok (if truthy s || truthy o then Normalizer.LIVE else Normalizer.SCHEDULED)).
Proof.
  repeat split.
  - intros Hc. unfold Normalizer.determineStatus. now rewrite Hc.
  - intros Hc Hf. unfold Normalizer.determineStatus. now rewrite Hc, Hf.
  - intros Hc Hf Hs. rewrite determineStatus_cases, Hc, Hf, Hs. reflexivity.
  - rewrite determineStatus_cases. destruct (truthy c); [reflexivity |].
    destruct (truthy f); [discriminate |].
    destruct (_ || _); [discriminate |]. destruct (truthy o); discriminate.
  - rewrite determineStatus_cases in H. destruct (truthy c); [discriminate | reflexivity].
  - rewrite determineStatus_cases in H. destruct (truthy c); [discriminate |].
    destruct (truthy f); [reflexivity |].
    destruct (_ || _); [discriminate |]. destruct (truthy o); discriminate.
  - intros Hc Hf Hd. rewrite determineStatus_cases, Hc, Hf.
    assert (Hwin : nan_ge (minutes_between (clock w (clock_reads w)) d) 0
                   && nan_lt (minutes_between (clock w (clock_reads w)) d) 120
                   = false).
    { destruct Hd as [-> | [k [-> Hk]]]; [reflexivity |].
      rewrite minutes_ge_0, minutes_lt_120.
      destruct (Z.ltb_spec (clock w (clock_reads w) - k) 7200000); [lia |].
      apply andb_false_r. }
    rewrite Hwin, orb_false_r.
    destruct (truthy s), (truthy o); reflexivity.
Qed.

Lemma determineStatus_flag_priority_witness :
  Normalizer.determineStatus (Some 1755887400000) (JBool true) (JBool true)
    (JBool true) JUndef (worldAt utcHost scenarioNow 0)
  = (Ok Normalizer.CANCELLED, worldAt utcHost scenarioNow 0)
  /\ fst (Normalizer.determineStatus (Some 1755887400000) JUndef JUndef JUndef JUndef
            (worldAt utcHost (1755887400000 + 300 * 60000) 0))
     = Ok Normalizer.SCHEDULED.
Proof.
  split.
  - apply (determineStatus_flag_priority (Some 1755887400000) (JBool true)
             (JBool true) (JBool true) JUndef (worldAt utcHost scenarioNow 0)).
    reflexivity.
  - apply (determineStatus_flag_priority (Some 1755887400000) JUndef JUndef JUndef
             JUndef (worldAt utcHost (1755887400000 + 300 * 60000) 0));
      [reflexivity | reflexivity |].
    right. exists 1755887400000. split; [reflexivity | simpl; lia].
Defined.

(** ** What the weekend normalizer does with incomplete records *)

Lemma teamOf_usable (t : json) (w : World) :
  nameUsable t ->
  Normalizer.teamOf t w =
    (Ok (JObj [("id", if truthy (opt_get t "id") then opt_get t "id"
                      else JStr (toLowerCase (replace_ws (nameOf t))));
               ("name", JStr (nameOf t));
               ("shortName", JStr (Spec.shortName (nameOf t)));
               ("logoUrl", JNull);
               ("score", or_else (opt_get t "score") JNull)]), w).
Proof.
  intros [Hn | [n Hn]].
  - unfold Normalizer.teamOf, or_else. rewrite Hn.
    assert (Hname : nameOf t = "").
    { unfold nameOf. destruct (opt_get t "name") as [| | b | q | n | fs];
        try reflexivity.
      destruct n; [reflexivity | discriminate Hn]. }
    rewrite Hname. unfold bind, lift, ret; simpl.
    destruct (truthy (opt_get t "id")); reflexivity.
  - rewrite (teamOf_name t n w Hn). unfold nameOf. now rewrite Hn.
Qed.

(** X4: a team block whose name is absent, falsy or a string never makes
    the team literal fail: the name falls back to the empty string, the short
    name is what [generateShortName] makes of that name, the id is the
    upstream id when that is truthy and otherwise what [generateTeamId] makes
    of the name, and a falsy score, 0 included, becomes null.  A truthy name
    that is not a string is a [TypeError]. *)
Theorem teamOf_degrades (t : json) (w : World) :
  (nameUsable t ->
   exists o sn tid,
     Normalizer.teamOf t w = (Ok o, w)
     /\ Normalizer.generateShortName (JStr (nameOf t)) = Ok sn
     /\ Normalizer.generateTeamId (JStr (nameOf t)) = Ok tid
     /\ opt_get o "name" = JStr (nameOf t)
     /\ opt_get o "shortName" = JStr sn
     /\ (truthy (opt_get t "id") = false -> opt_get o "id" = JStr tid)
     /\ (truthy (opt_get t "id") = true -> opt_get o "id" = opt_get t "id")
     /\ (truthy (opt_get t "score") = false -> opt_get o "score" = JNull)
     /\ (truthy (opt_get t "score") = true -> opt_get o "score" = opt_get t "score"))
  /\ (truthy (opt_get t "name") = true ->
      (forall n, opt_get t "name" <> JStr n) ->
      fst (Normalizer.teamOf t w) = Throw TypeError).
Proof.
  split.
  - intros Hu. rewrite (teamOf_usable t w Hu).
    exists (JObj [("id", if truthy (opt_get t "id") then opt_get t "id"
                         else JStr (toLowerCase (replace_ws (nameOf t))));
                  ("name", JStr (nameOf t));
                  ("shortName", JStr (Spec.shortName (nameOf t)));
                  ("logoUrl", JNull);
                  ("score", or_else (opt_get t "score") JNull)]),
      (Spec.shortName (nameOf t)), (toLowerCase (replace_ws (nameOf t))).
    split; [reflexivity |]. split; [apply generateShortName_spec |].
    split; [reflexivity |].
    simpl. unfold or_else. repeat split; intros H; now rewrite H.
  - intros Ht Hn. unfold Normalizer.teamOf, or_else. rewrite Ht.
    destruct (opt_get t "name") as [| | b | q | n | fs]; try discriminate Ht;
      try (unfold bind, lift; simpl; destruct (truthy (opt_get t "id")); reflexivity).
    now contradiction (Hn n).
Qed.

Lemma teamOf_degrades_witness :
  exists o,
    Normalizer.teamOf (JObj [("score", JNum 0)]) (worldAt utcHost scenarioNow 0)
    = (Ok o, worldAt utcHost scenarioNow 0)
    /\ opt_get o "name" = JStr ""
    /\ opt_get o "id" = JStr ""
    /\ opt_get o "score" = JNull.
Proof.
  destruct (teamOf_degrades (JObj [("score", JNum 0)]) (worldAt utcHost scenarioNow 0))
    as [Hok _].
  destruct Hok as [o [sn [tid [Hrun [_ [Htid [Hname [_ [Hid [_ [Hscore _]]]]]]]]]]];
    [left; reflexivity |].
  exists o. split; [exact Hrun |]. split; [exact Hname |].
  injection Htid as <-.
  split; [exact (Hid eq_refl) | exact (Hscore eq_refl)].
Defined.




(** ** Sorting *)

Section InsertionSort.
Context {A : Type} (cmp : A -> A -> M (option Z)) (lt : A -> A -> bool)
  (P : A -> Prop) (w : World).
Hypothesis cmp_lt :
  forall a b, P a -> P b -> exists c, cmp a b w = (Ok (Some c), w) /\ (c <? 0) = lt a b.
Hypothesis lt_asym : forall a b, lt a b = true -> lt b a = false.
Hypothesis le_trans :
  forall a b c, lt b a = false -> lt c b = false -> lt c a = false.

Lemma insertBy_sorted (x : A) (l : list A) :
  P x -> Forall P l -> sortedBy lt l ->
  exists out,
    Normalizer.insertBy cmp x l w = (Ok out, w)
    /\ Permutation (x :: l) out /\ sortedBy lt out.
Proof.
  intros Hx. induction l as [| y l IH]; intros Hl Hs.
  - exists [x]. split; [reflexivity |]. split; [apply Permutation_refl |].
    repeat constructor.
  - inversion Hl as [| y' l' Hy Hl']; subst.
    apply StronglySorted_inv in Hs as [Hs Hyl].
    destruct (cmp_lt x y Hx Hy) as [c [Hc Hlt]].
    simpl. unfold bind. rewrite Hc, Hlt.
    destruct (lt x y) eqn:Exy.
    + exists (x :: y :: l). split; [reflexivity |].
      split; [apply Permutation_refl |].
      constructor; [constructor; assumption |].
      constructor; [now apply lt_asym |].
      apply Forall_forall. intros z Hz.
      apply (le_trans x y z);
        [now apply lt_asym | exact (proj1 (Forall_forall _ _) Hyl z Hz)].
    + destruct (IH Hl' Hs) as [out [Hrun [Hperm Hsorted]]].
      rewrite Hrun. exists (y :: out). split; [reflexivity |].
      split; [rewrite perm_swap; now apply perm_skip |].
      constructor; [exact Hsorted |].
      apply Forall_forall. intros z Hz.
      apply (Permutation_in _ (Permutation_sym Hperm)) in Hz.
      destruct Hz as [<- | Hz]; [exact Exy |].
      exact (proj1 (Forall_forall _ _) Hyl z Hz).
Qed.

Lemma sortFrom_sorted (acc l : list A) :
  Forall P acc -> Forall P l -> sortedBy lt acc ->
  exists out,
    Normalizer.sortFrom cmp acc l w = (Ok out, w)
    /\ Permutation (acc ++ l) out /\ sortedBy lt out.
Proof.
  revert acc. induction l as [| x l IH]; intros acc Hacc Hl Hs.
  - exists acc. split; [reflexivity |]. rewrite app_nil_r.
    split; [apply Permutation_refl | exact Hs].
  - inversion Hl as [| x' l' Hx Hl']; subst.
    destruct (insertBy_sorted x acc Hx Hacc Hs) as [acc' [Hrun [Hperm Hsorted]]].
    simpl. unfold bind. rewrite Hrun.
    assert (Hacc' : Forall P acc').
    { apply Forall_forall. intros z Hz.
      apply (Permutation_in _ (Permutation_sym Hperm)) in Hz.
      destruct Hz as [<- | Hz]; [exact Hx |].
      exact (proj1 (Forall_forall _ _) Hacc z Hz). }
    destruct (IH acc' Hacc' Hl' Hsorted) as [out [Hrun' [Hperm' Hsorted']]].
    exists out. split; [exact Hrun' |]. split; [| exact Hsorted'].
    rewrite <- Hperm', <- Hperm. apply Permutation_sym, Permutation_middle.
Qed.

(** An element that sorts before nothing in the list goes to its end. *)
Lemma insertBy_last (x : A) (l : list A) :
  P x -> Forall P l -> Forall (fun y => lt x y = false) l ->
  Normalizer.insertBy cmp x l w = (Ok (l ++ [x]), w).
Proof.
  intros Hx. induction l as [| y l IH]; intros Hl Hge; [reflexivity |].
  inversion Hl as [| y' l' Hy Hl']; subst.
  inversion Hge as [| y' l' Hxy Hge']; subst.
  destruct (cmp_lt x y Hx Hy) as [c [Hc Hlt]].
  simpl. unfold bind. rewrite Hc, Hlt, Hxy, (IH Hl' Hge'). reflexivity.
Qed.

Lemma sortFrom_sorted_fixed (acc l : list A) :
  Forall P (acc ++ l) -> sortedBy lt (acc ++ l) ->
  Normalizer.sortFrom cmp acc l w = (Ok (acc ++ l), w).
Proof.
  revert acc. induction l as [| x l IH]; intros acc HP Hs; simpl.
  - now rewrite app_nil_r.
  - assert (Hx : P x) by (apply (proj1 (Forall_forall _ _) HP), in_elt).
    assert (Hacc : Forall P acc) by (apply Forall_app in HP; apply HP).
    assert (Hge : Forall (fun y => lt x y = false) acc).
    { clear IH HP Hx Hacc. induction acc as [| y acc IHa]; [constructor |].
      simpl in Hs. apply StronglySorted_inv in Hs as [Hs Hy].
      constructor; [| now apply IHa].
      apply (proj1 (Forall_forall _ _) Hy), in_elt. }
    unfold bind. rewrite (insertBy_last x acc Hx Hacc Hge).
    replace (acc ++ x :: l) with ((acc ++ [x]) ++ l) in *
      by (now rewrite <- app_assoc).
    now apply IH.
Qed.

End InsertionSort.

Lemma compareMatches_valid (a b : Normalizer.NormalizedMatch) (w : World) :
  validKickoff (host w) a -> validKickoff (host w) b ->
  exists c,
    Normalizer.compareMatches a b w = (Ok (Some c), w)
    /\ (c <? 0) = sortsBefore (host w) a b.
Proof.
  intros [ka Ha] [kb Hb]. unfold Normalizer.compareMatches, sortsBefore, rankOf, timeOf.
  rewrite Ha, Hb.
  destruct (Normalizer.isLive a), (Normalizer.isLive b); simpl;
    try (eexists; split; reflexivity).
  - unfold bind, get_host, lift. rewrite Ha, Hb. eexists. split; [reflexivity |].
    destruct (Z.ltb_spec (ka - kb) 0), (Z.ltb_spec ka kb); lia || reflexivity.
  - unfold bind, get_host, lift. rewrite Ha, Hb. eexists. split; [reflexivity |].
    destruct (Z.ltb_spec (ka - kb) 0), (Z.ltb_spec ka kb); lia || reflexivity.
Qed.

Lemma sortsBefore_true_iff (h : Host) (a b : Normalizer.NormalizedMatch) :
  sortsBefore h a b = true
  <-> rankOf a < rankOf b \/ (rankOf a = rankOf b /\ timeOf h a < timeOf h b).
Proof.
  unfold sortsBefore.
  rewrite orb_true_iff, andb_true_iff, Z.ltb_lt, Z.eqb_eq, Z.ltb_lt. reflexivity.
Qed.

Lemma sortsBefore_iff (h : Host) (a b : Normalizer.NormalizedMatch) :
  sortsBefore h a b = false
  <-> rankOf b < rankOf a \/ (rankOf a = rankOf b /\ timeOf h b <= timeOf h a).
Proof.
  rewrite <- not_true_iff_false, sortsBefore_true_iff. lia.
Qed.

Lemma sortsBefore_asym (h : Host) (a b : Normalizer.NormalizedMatch) :
  sortsBefore h a b = true -> sortsBefore h b a = false.
Proof.
  rewrite sortsBefore_true_iff, sortsBefore_iff. lia.
Qed.

Lemma sortsBefore_trans (h : Host) (a b c : Normalizer.NormalizedMatch) :
  sortsBefore h b a = false -> sortsBefore h c b = false -> sortsBefore h c a = false.
Proof.
  rewrite !sortsBefore_iff. lia.
Qed.

Lemma sortsBefore_inOrder (h : Host) (a b : Normalizer.NormalizedMatch) :
  sortsBefore h b a = false -> inOrder h a b.
Proof.
  rewrite sortsBefore_iff. unfold inOrder, rankOf.
  destruct (Normalizer.isLive a), (Normalizer.isLive b); intros H; split;
    intros H'; try reflexivity; try discriminate; lia.
Qed.

Lemma StronglySorted_weaken {A : Type} (R R' : A -> A -> Prop) (l : list A) :
  (forall a b, R a b -> R' a b) -> StronglySorted R l -> StronglySorted R' l.
Proof.
  intros HR. induction 1 as [| x l Hs IH Hx]; constructor; [exact IH |].
  apply Forall_forall. intros y Hy. apply HR.
  exact (proj1 (Forall_forall _ _) Hx y Hy).
Qed.

Lemma sortMatches_sorted (ms : list Normalizer.NormalizedMatch) (w : World) :
  Forall (validKickoff (host w)) ms ->
  exists out,
    Normalizer.sortMatches ms w = (Ok out, w)
    /\ Permutation ms out /\ sortedBy (sortsBefore (host w)) out.
Proof.
  intros Hms.
  apply (sortFrom_sorted Normalizer.compareMatches (sortsBefore (host w))
           (validKickoff (host w)) w
           (fun a b => compareMatches_valid a b w)
           (sortsBefore_asym (host w)) (sortsBefore_trans (host w)) [] ms);
    [constructor | exact Hms | constructor].
Qed.

(** X6: on matches whose kickoff times are valid dates, [sortMatches]
    returns a rearrangement of its input in which no live match stands
    behind a match that is not live and, within the live matches and within
    the others, kickoff times ascend. *)
Theorem sortMatches_live_first_then_kickoff
    (ms : list Normalizer.NormalizedMatch) (w : World) :
  Forall (validKickoff (host w)) ms ->
  exists out,
    Normalizer.sortMatches ms w = (Ok out, w)
    /\ Permutation ms out
    /\ StronglySorted (inOrder (host w)) out.
Proof.
  intros Hms. destruct (sortMatches_sorted ms w Hms) as [out [Hrun [Hperm Hs]]].
  exists out. split; [exact Hrun |]. split; [exact Hperm |].
  apply (StronglySorted_weaken _ _ out (sortsBefore_inOrder (host w)) Hs).
Qed.

Lemma sortMatches_live_first_then_kickoff_witness :
  exists out,
    Normalizer.sortMatches [formattedOf formattedSalzburg; liveMatch]
      (worldAt utcHost scenarioNow 0) = (Ok out, worldAt utcHost scenarioNow 0)
    /\ out = [liveMatch; formattedOf formattedSalzburg].
Proof.
  destruct (sortMatches_live_first_then_kickoff
              [formattedOf formattedSalzburg; liveMatch]
              (worldAt utcHost scenarioNow 0)) as [out [Hrun _]].
  - repeat constructor; eexists; reflexivity.
  - exists out. split; [exact Hrun |].
    vm_compute in Hrun. now injection Hrun as <-.
Defined.

(** X7: sorting is idempotent on matches with valid kickoff times: sorting
    the output of [sortMatches] again returns it unchanged. *)
Theorem sortMatches_idempotent (ms : list Normalizer.NormalizedMatch) (w : World) :
  Forall (validKickoff (host w)) ms ->
  exists out,
    Normalizer.sortMatches ms w = (Ok out, w)
    /\ Normalizer.sortMatches out w = (Ok out, w).
Proof.
  intros Hms. destruct (sortMatches_sorted ms w Hms) as [out [Hrun [Hperm Hs]]].
  exists out. split; [exact Hrun |].
  assert (Hout : Forall (validKickoff (host w)) out).
  { apply Forall_forall. intros m Hm.
    apply (Permutation_in _ (Permutation_sym Hperm)) in Hm.
    exact (proj1 (Forall_forall _ _) Hms m Hm). }
  exact (sortFrom_sorted_fixed Normalizer.compareMatches (sortsBefore (host w))
           (validKickoff (host w)) w
           (fun a b => compareMatches_valid a b w) [] out Hout Hs).
Qed.

Lemma sortMatches_idempotent_witness :
  exists out,
    Normalizer.sortMatches [formattedOf formattedSalzburg; liveMatch]
      (worldAt utcHost scenarioNow 0) = (Ok out, worldAt utcHost scenarioNow 0)
    /\ Normalizer.sortMatches out (worldAt utcHost scenarioNow 0)
       = (Ok out, worldAt utcHost scenarioNow 0).
Proof.
  apply (sortMatches_idempotent [formattedOf formattedSalzburg; liveMatch]
           (worldAt utcHost scenarioNow 0)).
  repeat constructor; eexists; reflexivity.
Defined.

(** ** What the dispatcher returns *)

Lemma keepsEngine_ret {A : Type} (a : A) : keepsEngine (ret a).
Proof. intros w; repeat split; simpl; lia. Qed.

Lemma keepsEngine_throw {A : Type} (e : exn) : keepsEngine (@throw A e).
Proof. intros w; repeat split; simpl; lia. Qed.

Lemma keepsEngine_lift {A : Type} (r : Res A) : keepsEngine (lift r).
Proof. intros w; repeat split; simpl; lia. Qed.

Lemma keepsEngine_bind {A B : Type} (m : M A) (k : A -> M B) :
  keepsEngine m -> (forall a, keepsEngine (k a)) -> keepsEngine (bind m k).
Proof.
  intros Hm Hk w. unfold bind. specialize (Hm w).
  destruct (m w) as [[a | e] w']; simpl in *; [| assumption].
  destruct (Hk a w') as [Hh [Hc Hn]]. destruct Hm as [Hh' [Hc' Hn']].
  repeat split; [congruence | congruence | lia].
Qed.

Lemma keepsEngine_mapM {A B : Type} (f : A -> M B) (l : list A) :
  (forall x, keepsEngine (f x)) -> keepsEngine (mapM f l).
Proof.
  intros Hf. induction l as [| x l IH]; simpl.
  - apply keepsEngine_ret.
  - apply keepsEngine_bind; [apply Hf | intros y].
    apply keepsEngine_bind; [exact IH | intros ys; apply keepsEngine_ret].
Qed.

Lemma keepsEngine_Date_now : keepsEngine Date_now.
Proof. intros w; repeat split; simpl; lia. Qed.

Lemma keepsEngine_Math_random : keepsEngine Math_random.
Proof. intros w; repeat split; simpl; lia. Qed.

Lemma keepsEngine_get_host : keepsEngine get_host.
Proof. intros w; repeat split; simpl; lia. Qed.

Lemma keepsEngine_console_warn (msg : string) : keepsEngine (console_warn msg).
Proof. intros w; repeat split; simpl; lia. Qed.

Lemma keepsEngine_get (o : json) (k : string) : keepsEngine (get o k).
Proof. intros w; unfold get; destruct (nullish o); repeat split; simpl; lia. Qed.

Create HintDb engine.

#[local] Hint Resolve keepsEngine_ret keepsEngine_throw keepsEngine_lift
  keepsEngine_Date_now keepsEngine_Math_random keepsEngine_get_host
  keepsEngine_console_warn keepsEngine_get : engine.

Ltac engine_step :=
  first
    [ solve [auto with engine]
    | apply keepsEngine_bind; [| intros ?]
    | match goal with
      | |- keepsEngine (if ?b then _ else _) => destruct b
      | |- keepsEngine (match ?x with _ => _ end) => destruct x
      end ].

Ltac engine := cbv zeta; repeat engine_step.

Lemma keepsEngine_parseUTCTime (v : json) : keepsEngine (Normalizer.parseUTCTime v).
Proof. unfold Normalizer.parseUTCTime; engine. Qed.

Lemma keepsEngine_determineStatus (d : Date) (f s c o : json) :
  keepsEngine (Normalizer.determineStatus d f s c o).
Proof. unfold Normalizer.determineStatus; engine. Qed.

Lemma keepsEngine_teamOf (t : json) : keepsEngine (Normalizer.teamOf t).
Proof. unfold Normalizer.teamOf; engine. Qed.

Lemma keepsEngine_pinnacleTeamOf (n : json) : keepsEngine (Normalizer.pinnacleTeamOf n).
Proof. unfold Normalizer.pinnacleTeamOf; engine. Qed.

Lemma keepsEngine_oddOf (u : json) (b sp : Q) (bk : string) :
  keepsEngine (Normalizer.oddOf u b sp bk).
Proof. unfold Normalizer.oddOf; engine. Qed.

#[local] Hint Resolve keepsEngine_parseUTCTime keepsEngine_determineStatus
  keepsEngine_teamOf keepsEngine_pinnacleTeamOf keepsEngine_oddOf : engine.

Lemma keepsEngine_normalizeAustrianWeekendMatch (r cfg : json) :
  keepsEngine (Normalizer.normalizeAustrianWeekendMatch r cfg).
Proof. unfold Normalizer.normalizeAustrianWeekendMatch; engine. Qed.

Lemma keepsEngine_normalizeGermanBundesligaMatch (r cfg rnd : json) :
  keepsEngine (Normalizer.normalizeGermanBundesligaMatch r cfg rnd).
Proof. unfold Normalizer.normalizeGermanBundesligaMatch; engine. Qed.

Lemma keepsEngine_normalizePinnacleMatch (r cfg rnd : json) :
  keepsEngine (Normalizer.normalizePinnacleMatch r cfg rnd).
Proof. unfold Normalizer.normalizePinnacleMatch; engine. Qed.

Lemma keepsEngine_normalizeFormattedMatch (r : json) :
  keepsEngine (Normalizer.normalizeFormattedMatch r).
Proof. unfold Normalizer.normalizeFormattedMatch; engine. Qed.

(** A filter that returns has dropped what the time test rejects and
    nothing else. *)
Lemma filterM_kickoff_inv (h : Host) (now : Z) (l out : list Normalizer.NormalizedMatch)
    (w w' : World) :
  filterM (fun m =>
             kickoff <- lift (new_Date h (Normalizer.kickoffTime m)) ;;
             ret (nan_lt (minutes_between now kickoff) 120)) l w = (Ok out, w') ->
  out = filter (keptByTime h now) l /\ w' = w.
Proof.
  revert out w'. induction l as [| m l IH]; intros out w' H; simpl in H.
  - injection H as <- <-. now split.
  - unfold bind at 1 in H. unfold bind at 1, lift at 1 in H.
    simpl filter.
    destruct (new_Date h (Normalizer.kickoffTime m)) as [d | e] eqn:Ed;
      [| discriminate H].
    unfold ret at 1 in H. unfold bind in H.
    destruct (filterM _ l w) as [[ys | e] w1] eqn:El; [| discriminate H].
    destruct (IH ys w1 eq_refl) as [-> ->].
    unfold keptByTime at 1. rewrite Ed.
    destruct d as [k |].
    + rewrite minutes_lt_120 in H. simpl in H.
      destruct (now - k <? 7200000); injection H as <- <-; now split.
    + simpl in H. injection H as <- <-. now split.
Qed.

Lemma bind_inv {A B : Type} (m : M A) (k : A -> M B) (w w' : World) (b : B) :
  bind m k w = (Ok b, w') -> exists a w1, m w = (Ok a, w1) /\ k a w1 = (Ok b, w').
Proof.
  unfold bind. destruct (m w) as [[a | e] w1]; [| discriminate].
  intros H. now exists a, w1.
Qed.

Lemma keptByTime_valid (h : Host) (now : Z) (m : Normalizer.NormalizedMatch) :
  keptByTime h now m = true -> validKickoff h m.
Proof. intros H. apply keptByTime_iff in H as [k [Hk _]]. now exists k. Qed.

(** What a run of the pipeline that returns has done, for any first step
    that keeps the engine. *)
Lemma pipeline_returns (d : M (list Normalizer.NormalizedMatch)) (w : World)
    (out : list Normalizer.NormalizedMatch) :
  keepsEngine d ->
  fst (bind d (fun nms => bind (Normalizer.filterRelevantMatches nms)
                               Normalizer.sortMatches) w) = Ok out ->
  exists nms w1,
    d w = (Ok nms, w1)
    /\ host w1 = host w /\ clock w1 = clock w
    /\ (clock_reads w <= clock_reads w1)%nat
    /\ Permutation (filter (keptByTime (host w) (clock w (clock_reads w1))) nms) out
    /\ sortedBy (sortsBefore (host w)) out.
Proof.
  intros Hd Hrun.
  destruct (bind d _ w) as [r w'] eqn:E. simpl in Hrun; subst r.
  apply bind_inv in E as [nms [w1 [Hmap E]]].
  apply bind_inv in E as [fms [w2 [Hfilter Hsort]]].
  destruct (Hd w) as [Hh [Hc Hn]]. rewrite Hmap in Hh, Hc, Hn. simpl in Hh, Hc, Hn.
  unfold Normalizer.filterRelevantMatches, bind, Date_now, get_host in Hfilter.
  cbn [host clock clock_reads] in Hfilter.
  apply filterM_kickoff_inv in Hfilter as [-> ->].
  rewrite Hh, Hc in Hsort.
  match type of Hsort with
  | Normalizer.sortMatches ?l ?w0 = _ =>
      destruct (sortMatches_sorted l w0) as [out' [Hrun' [Hperm Hsorted]]]
  end.
  { cbn [host]. apply Forall_forall. intros m Hm.
    apply filter_In in Hm as [_ Hm]. now apply keptByTime_valid in Hm. }
  rewrite Hrun' in Hsort. injection Hsort as <- _.
  cbn [host] in Hsorted.
  exists nms, w1. repeat split; assumption.
Qed.


(** What a run of the dispatcher that returns has done: the output is a
    rearrangement of the normalized records that pass the time test at one
    reading of the clock, taken after the call began, in sorted order. *)
Lemma normalizeMatches_returns (ms : list json) (source : string) (cfg round : json)
    (w : World) (out : list Normalizer.NormalizedMatch) :
  fst (Normalizer.normalizeMatches ms source cfg round w) = Ok out ->
  exists n nms,
    (clock_reads w <= n)%nat
    /\ Permutation (filter (keptByTime (host w) (clock w n)) nms) out
    /\ sortedBy (sortsBefore (host w)) out.
Proof.
  intros Hrun. unfold Normalizer.normalizeMatches in Hrun.
  apply pipeline_returns in Hrun
      as [nms [w1 [_ [_ [_ [Hn [Hperm Hsorted]]]]]]].
  - exists (clock_reads w1), nms. repeat split; assumption.
  - repeat match goal with
           | |- keepsEngine (if ?b then _ else _) => destruct b
           end;
      try (apply keepsEngine_bind; [apply keepsEngine_console_warn | intros _]);
      apply keepsEngine_mapM; intros r;
      first [ apply keepsEngine_normalizeAustrianWeekendMatch
            | apply keepsEngine_normalizeGermanBundesligaMatch
            | apply keepsEngine_normalizePinnacleMatch
            | apply keepsEngine_normalizeFormattedMatch ].
Qed.

(** X8: whatever the tag, when [normalizeMatches] returns there is one
    reading of the clock, taken after the call began, against which every
    returned match has a kickoff time that is a valid date less than 120
    minutes in the past (or in the future); no live match stands behind one
    that is not live, and within the live matches and within the others
    kickoff times ascend. *)
Theorem normalizeMatches_output_relevant_and_sorted
    (ms : list json) (source : string) (cfg round : json) (w : World)
    (out : list Normalizer.NormalizedMatch) :
  fst (Normalizer.normalizeMatches ms source cfg round w) = Ok out ->
  (exists n, (clock_reads w <= n)%nat
     /\ forall m, In m out ->
          exists k, new_Date (host w) (Normalizer.kickoffTime m) = Ok (Some k)
                    /\ clock w n - k < 120 * 60000)
  /\ StronglySorted (inOrder (host w)) out.
Proof.
  intros Hrun.
  destruct (normalizeMatches_returns ms source cfg round w out Hrun)
    as [n [nms [Hn [Hperm Hsorted]]]].
  split.
  - exists n. split; [exact Hn |].
    intros m Hm. apply (Permutation_in _ (Permutation_sym Hperm)) in Hm.
    apply filter_In in Hm as [_ Hk]. now apply keptByTime_iff in Hk.
  - apply (StronglySorted_weaken _ _ out (sortsBefore_inOrder (host w)) Hsorted).
Qed.

Lemma normalizeMatches_output_relevant_and_sorted_witness :
  (exists n, (0 <= n)%nat
     /\ forall m, In m [liveMatch; formattedOf formattedSalzburg] ->
          exists k, new_Date utcHost (Normalizer.kickoffTime m) = Ok (Some k)
                    /\ scenarioNow - k < 120 * 60000)
  /\ StronglySorted (inOrder utcHost) [liveMatch; formattedOf formattedSalzburg].
Proof.
  apply (normalizeMatches_output_relevant_and_sorted
           [formattedSalzburg; toRecord liveMatch] "formatted"
           JUndef JUndef (worldAt utcHost scenarioNow 0)
           [liveMatch; formattedOf formattedSalzburg]).
  reflexivity.
Defined.

(** ** Feeding the output back in *)

Lemma formattedOf_toRecord (m : Normalizer.NormalizedMatch) :
  formattedOf (toRecord m) = m.
Proof. now destruct m. Qed.

Lemma filter_all {A : Type} (f : A -> bool) (l : list A) :
  (forall x, In x l -> f x = true) -> filter f l = l.
Proof.
  induction l as [| x l IH]; intros H; simpl; [reflexivity |].
  rewrite (H x (or_introl eq_refl)), IH; [reflexivity |].
  intros y Hy. apply H. now right.
Qed.

(** A sorted list of matches that pass the time test goes through the
    [formatted] branch unchanged. *)
Lemma normalizeMatches_formatted_fixed (out : list Normalizer.NormalizedMatch)
    (cfg round : json) (w : World) :
  (forall m, In m out -> keptByTime (host w) (clock w (clock_reads w)) m = true) ->
  sortedBy (sortsBefore (host w)) out ->
  Normalizer.normalizeMatches (map toRecord out) "formatted" cfg round w
  = (Ok out, ticked w).
Proof.
  intros Hkept Hsorted. unfold Normalizer.normalizeMatches.
  simpl String.eqb. cbv iota. unfold bind at 1.
  rewrite (mapM_pure _ formattedOf)
    by (intros r Hr; apply in_map_iff in Hr as [m [<- _]];
        now apply normalizeFormattedMatch_run).
  rewrite map_map, (map_ext _ (fun m => m) formattedOf_toRecord), map_id.
  unfold bind at 1.
  assert (Hfilter : Normalizer.filterRelevantMatches out w = (Ok out, ticked w)).
  { unfold Normalizer.filterRelevantMatches, bind, Date_now, get_host.
    fold (ticked w).
    rewrite (filterM_pure _ (keptByTime (host w) (clock w (clock_reads w)))).
    - now rewrite filter_all.
    - intros m Hm. unfold lift, bind, ret.
      change (host (ticked w)) with (host w).
      pose proof (Hkept m Hm) as Hk.
      apply keptByTime_iff in Hk as [k [Hd Hlt]].
      unfold keptByTime. rewrite Hd, minutes_lt_120. reflexivity. }
  rewrite Hfilter.
  apply (sortFrom_sorted_fixed Normalizer.compareMatches (sortsBefore (host w))
           (validKickoff (host w)) (ticked w)
           (fun a b => compareMatches_valid a b (ticked w)) [] out);
    [| exact Hsorted].
  apply Forall_forall. intros m Hm. exact (keptByTime_valid _ _ _ (Hkept m Hm)).
Qed.

(** X9: at a standing clock [normalizeMatches] is idempotent through the
    [formatted] tag: what a call returned, whatever its tag, comes back
    unchanged, in the same order, when it is passed again as already
    formatted matches on the same engine at the same instant. *)
Theorem normalizeMatches_formatted_idempotent
    (ms : list json) (source : string) (cfg round cfg' round' : json)
    (w w2 : World) (t : Z) (out : list Normalizer.NormalizedMatch) :
  (forall n, clock w n = t) ->
  host w2 = host w ->
  (forall n, clock w2 n = t) ->
  fst (Normalizer.normalizeMatches ms source cfg round w) = Ok out ->
  fst (Normalizer.normalizeMatches (map toRecord out) "formatted" cfg' round' w2)
  = Ok out.
Proof.
  intros Ht Hh Ht2 Hrun.
  destruct (normalizeMatches_returns ms source cfg round w out Hrun)
    as [n [nms [_ [Hperm Hsorted]]]].
  rewrite Ht in Hperm.
  rewrite normalizeMatches_formatted_fixed; [reflexivity | |].
  - intros m Hm. rewrite Hh, Ht2.
    apply (Permutation_in _ (Permutation_sym Hperm)) in Hm.
    now apply filter_In in Hm.
  - now rewrite Hh.
Qed.

Lemma normalizeMatches_formatted_idempotent_witness :
  exists out,
    fst (Normalizer.normalizeMatches [salzburgRapid] "austrian-weekend"
           JUndef JUndef (worldAt utcHost scenarioNow 0)) = Ok out
    /\ out <> []
    /\ fst (Normalizer.normalizeMatches (map toRecord out) "formatted"
              JUndef JUndef (worldAt utcHost scenarioNow 0)) = Ok out.
Proof.
  eexists. split; [vm_compute; reflexivity |].
  split; [discriminate |].
  apply (normalizeMatches_formatted_idempotent
           [salzburgRapid] "austrian-weekend"
           JUndef JUndef JUndef JUndef
           (worldAt utcHost scenarioNow 0) (worldAt utcHost scenarioNow 0)
           scenarioNow);
    reflexivity.
Defined.

(** ** The league utilities *)

Lemma lt_nan_since (now : Z) (d : Date) (c : Z) :
  Utils.lt_nan (Utils.since now d) c = true <-> exists k, d = Some k /\ now - k < c.
Proof.
  destruct d as [k |]; simpl.
  - rewrite Z.ltb_lt. split; [intros H; now exists k | now intros [k' [[= <-] H]]].
  - split; [discriminate | now intros [k [H _]]].
Qed.

Lemma convertCachedMatch_run (c : Utils.CachedMatch) (cfg : Utils.LeagueConfig)
    (r : Z) (w : World) :
  exists st,
    Utils.calculateMatchStatus (Utils.fixture_date c)
      (Some (Utils.fixture_status_short c)) w = (Ok st, ticked w)
    /\ Leagues.convertCachedMatch c cfg r w
       = (Ok (Leagues.mkConverted
                (Utils.mkMatch (Utils.fixture_id c) (Utils.teams_home_name c)
                   (Utils.teams_away_name c) (Utils.fixture_date c) st r)
                (Leagues.mkLeague (Utils.config_id cfg) (Utils.config_name cfg))),
          ticked w).
Proof.
  assert (H : exists st,
             Utils.calculateMatchStatus (Utils.fixture_date c)
               (Some (Utils.fixture_status_short c)) w = (Ok st, ticked w)).
  { unfold Utils.calculateMatchStatus, bind, get_host, Date_now, ret. fold (ticked w).
    repeat match goal with
           | |- context [if ?b then _ else _] => destruct b
           end; eexists; reflexivity. }
  destruct H as [st Hst]. exists st. split; [exact Hst |].
  unfold Leagues.convertCachedMatch, bind. now rewrite Hst.
Qed.

(** X10: a cached match survives conversion and the relevance filter of the
    league utilities, at a standing clock, exactly when its kickoff is a valid
    date less than 120 minutes in the past (or in the future), or its cache
    code says the match is in play: such a code keeps the match however long
    ago the kickoff was, and even when the date cannot be read.  The cache
    code is taken to be ASCII. *)
Theorem converted_match_kept_iff (c : Utils.CachedMatch) (cfg : Utils.LeagueConfig)
    (r t : Z) (w : World) :
  isAscii (Utils.fixture_status_short c) = true ->
  (forall n, clock w n = t) ->
  exists m,
    fst (Leagues.convertCachedMatch c cfg r w) = Ok m
    /\ Utils.kickoffTime (Leagues.converted_match m) = Utils.fixture_date c
    /\ forall w', host w' = host w -> (forall n, clock w' n = t) ->
         (liveCode (Utils.fixture_status_short c) = true
          \/ withinGrace (host w) t (Utils.fixture_date c) ->
          fst (Utils.filterRelevantMatches [Leagues.converted_match m] w')
          = Ok [Leagues.converted_match m])
         /\ (~ (liveCode (Utils.fixture_status_short c) = true
                \/ withinGrace (host w) t (Utils.fixture_date c)) ->
             fst (Utils.filterRelevantMatches [Leagues.converted_match m] w') = Ok []).
Proof.
  intros _ Ht.
  destruct (convertCachedMatch_run c cfg r w) as [st [Hst Hrun]].
  rewrite Hrun. eexists. split; [reflexivity |]. split; [reflexivity |].
  intros w' Hh Ht'.
  unfold Utils.filterRelevantMatches, bind, Date_now, get_host, ret.
  cbn [fst snd host clock clock_reads filter Leagues.converted_match
       Utils.status Utils.kickoffTime].
  rewrite Hh, Ht'.
  unfold Utils.calculateMatchStatus, bind, get_host, Date_now, ret in Hst.
  cbn [fst snd host clock clock_reads] in Hst. rewrite Ht in Hst.
  unfold withinGrace, liveCode.
  change (120 * 60000) with Utils.GRACE_PERIOD_MS.
  set (d := Date_parse (host w) (Utils.fixture_date c)) in *.
  set (up := toUpperCase (Utils.fixture_status_short c)) in *.
  pose proof (lt_nan_since t d Utils.GRACE_PERIOD_MS) as Hg.
  pose proof (lt_nan_since t d 0) as H0.
  pose proof (lt_nan_since t d Utils.MATCH_DURATION_MS) as Hd.
  assert (Hc : Utils.MATCH_DURATION_MS < Utils.GRACE_PERIOD_MS) by reflexivity.
  assert (Hp : 0 < Utils.GRACE_PERIOD_MS) by reflexivity.
  destruct (Utils.lt_nan (Utils.since t d) 0) eqn:E0.
  { injection Hst as <-. split; [reflexivity |].
    intros Hn. exfalso. apply Hn. right.
    destruct (proj1 H0 eq_refl) as [k [Hk Hlt]]. exists k. split; [exact Hk | lia]. }
  destruct (negb (Utils.fixture_status_short c =? "")%string) eqn:En;
    [destruct (((up =? "FT") || (up =? "AET") || (up =? "PEN"))%string) eqn:Ef;
     [| destruct (((up =? "LIVE") || (up =? "1H") || (up =? "HT") || (up =? "2H"))%string)
          eqn:El] |].
  - injection Hst as <-.
    assert (Hl : (((up =? "LIVE") || (up =? "1H") || (up =? "HT") || (up =? "2H"))%string)
                 = false).
    { apply orb_true_iff in Ef as [Ef | Ef];
        [apply orb_true_iff in Ef as [Ef | Ef] |];
        apply String.eqb_eq in Ef; rewrite Ef; reflexivity. }
    rewrite Hl.
    destruct (Utils.lt_nan (Utils.since t d) Utils.GRACE_PERIOD_MS) eqn:Eg.
    + split; [reflexivity |]. intros Hn. exfalso. apply Hn. right. now apply Hg.
    + split; [| reflexivity].
      intros [Hx | Hx]; [discriminate |]. apply Hg in Hx. discriminate.
  - injection Hst as <-. split; [reflexivity |].
    intros Hn. exfalso. apply Hn. now left.
  - destruct (Utils.lt_nan (Utils.since t d) Utils.MATCH_DURATION_MS) eqn:Em.
    + injection Hst as <-. split; [reflexivity |].
      intros Hn. exfalso. apply Hn. right.
      destruct (proj1 Hd eq_refl) as [k [Hk Hlt]]. exists k. split; [exact Hk | lia].
    + assert (Hfin : st = Utils.FINISHED).
      { destruct (Utils.lt_nan (Utils.since t d) Utils.GRACE_PERIOD_MS);
          now injection Hst as <-. }
      subst st.
      destruct (Utils.lt_nan (Utils.since t d) Utils.GRACE_PERIOD_MS) eqn:Eg.
      * split; [reflexivity |]. intros Hn. exfalso. apply Hn. right. now apply Hg.
      * split; [| reflexivity].
        intros [Hx | Hx]; [discriminate |]. apply Hg in Hx. discriminate.
  - assert (Hup : up = "").
    { unfold up.
      destruct (Utils.fixture_status_short c); [reflexivity | discriminate]. }
    rewrite Hup. simpl orb.
    destruct (Utils.lt_nan (Utils.since t d) Utils.MATCH_DURATION_MS) eqn:Em.
    + injection Hst as <-. split; [reflexivity |].
      intros Hn. exfalso. apply Hn. right.
      destruct (proj1 Hd eq_refl) as [k [Hk Hlt]]. exists k. split; [exact Hk | lia].
    + assert (Hfin : st = Utils.FINISHED).
      { destruct (Utils.lt_nan (Utils.since t d) Utils.GRACE_PERIOD_MS);
          now injection Hst as <-. }
      subst st.
      destruct (Utils.lt_nan (Utils.since t d) Utils.GRACE_PERIOD_MS) eqn:Eg.
      * split; [reflexivity |]. intros Hn. exfalso. apply Hn. right. now apply Hg.
      * split; [| reflexivity].
        intros [Hx | Hx]; [discriminate |]. apply Hg in Hx. discriminate.
Qed.

Lemma converted_match_kept_iff_witness :
  exists m,
    fst (Leagues.convertCachedMatch staleHalfTime twoPerRound 1
           (worldAt utcHost scenarioNow 0)) = Ok m
    /\ Utils.kickoffTime (Leagues.converted_match m) = "2025-08-19T10:00:00Z"
    /\ forall w', host w' = utcHost -> (forall n, clock w' n = scenarioNow) ->
         (liveCode "ht" = true
          \/ withinGrace utcHost scenarioNow "2025-08-19T10:00:00Z" ->
          fst (Utils.filterRelevantMatches [Leagues.converted_match m] w')
          = Ok [Leagues.converted_match m])
         /\ (~ (liveCode "ht" = true
                \/ withinGrace utcHost scenarioNow "2025-08-19T10:00:00Z") ->
             fst (Utils.filterRelevantMatches [Leagues.converted_match m] w') = Ok []).
Proof.
  apply (converted_match_kept_iff staleHalfTime twoPerRound 1 scenarioNow
           (worldAt utcHost scenarioNow 0)); reflexivity.
Defined.

Lemma buildRounds_count {A : Type} (mpr : nat) (ms : list A) (fuel i : nat)
    (rounds : list (list A)) :
  (0 < mpr)%nat ->
  Utils.buildRounds fuel i mpr ms = Some rounds ->
  (i < List.length ms ->
   1 <= List.length rounds /\ i + (List.length rounds - 1) * mpr < List.length ms)%nat
  /\ (List.length ms <= i -> rounds = [])%nat.
Proof.
  intros Hmpr. revert i rounds.
  induction fuel as [| fuel IH]; intros i rounds H; simpl in H.
  - destruct (Nat.ltb_spec i (List.length ms)); [discriminate |].
    injection H as <-. split; [lia | reflexivity].
  - destruct (Nat.ltb_spec i (List.length ms)) as [Hi | Hi].
    + destruct (Utils.buildRounds fuel (i + mpr) mpr ms) as [rest |] eqn:E;
        [| discriminate].
      simpl in H. injection H as <-.
      destruct (IH _ _ E) as [Hlt Hge].
      split; [| lia]. intros _. simpl List.length.
      destruct (Nat.ltb_spec (i + mpr) (List.length ms)) as [Hj | Hj].
      * destruct (Hlt Hj) as [H1 H2]. split; [lia |].
        replace (S (List.length rest) - 1)%nat
          with (S (List.length rest - 1)) by lia.
        simpl. lia.
      * rewrite (Hge Hj). simpl. lia.
    + injection H as <-. split; [lia | reflexivity].
Qed.

(** X11: for a match list that is not empty and a positive
    [matchesPerRound], whatever the dates, [calculateCurrentRound] returns a
    round number from 1 that lies within the list, so that
    [filterCurrentRoundMatches] shows for it between one and
    [matchesPerRound] matches; one unit of fuel per match is enough for the
    grouping loop to end. *)
Theorem current_round_is_shown_nonempty (fuel : nat) (ms : list Utils.CachedMatch)
    (cfg : Utils.LeagueConfig) (w : World) :
  (0 < Utils.matchesPerRound cfg)%nat ->
  (List.length ms <= fuel)%nat ->
  ms <> [] ->
  exists r,
    fst (Utils.calculateCurrentRound fuel ms cfg w) = Ok (Some r)
    /\ (1 <= r)%nat
    /\ ((r - 1) * Utils.matchesPerRound cfg < List.length ms)%nat
    /\ (1 <= List.length (Utils.filterCurrentRoundMatches ms r cfg)
        <= Utils.matchesPerRound cfg)%nat.
Proof.
  intros Hmpr Hfuel Hne.
  unfold Utils.calculateCurrentRound, bind, Date_now, get_host, ret.
  cbn [fst snd host clock clock_reads].
  destruct (Utils.buildRounds fuel 0 (Utils.matchesPerRound cfg) ms)
    as [rounds |] eqn:Eb.
  2:{ rewrite buildRounds_groupsOf in Eb by lia. discriminate. }
  assert (Hlen : (0 < List.length ms)%nat)
    by (destruct ms; [contradiction | simpl; lia]).
  destruct (buildRounds_count _ _ _ _ _ Hmpr Eb) as [Hc _].
  destruct (Hc Hlen) as [H1 H2]. simpl in H2.
  assert (Hr : exists r,
             match Utils.findRound (host w) (clock w (clock_reads w)) 0 rounds with
             | Some r => Some r
             | None => Some (List.length rounds)
             end = Some r /\ (1 <= r <= List.length rounds)%nat).
  { destruct (Utils.findRound _ _ 0 rounds) as [r |] eqn:Ef.
    - exists r. split; [reflexivity |]. apply findRound_bounds in Ef. lia.
    - exists (List.length rounds). split; [reflexivity | lia]. }
  destruct Hr as [r [-> [Hr1 Hr2]]]. exists r. split; [reflexivity |].
  assert (Hin : ((r - 1) * Utils.matchesPerRound cfg < List.length ms)%nat) by nia.
  split; [exact Hr1 |]. split; [exact Hin |].
  destruct r as [| r']; [lia |].
  unfold Utils.filterCurrentRoundMatches, Utils.slice.
  rewrite length_firstn, length_skipn.
  replace (S r' - 1)%nat with r' in Hin by lia. lia.
Qed.

Lemma current_round_is_shown_nonempty_witness :
  exists r,
    fst (Utils.calculateCurrentRound 5 fiveFixtures twoPerRound
           (worldAt utcHost scenarioNow 0)) = Ok (Some r)
    /\ (1 <= r)%nat
    /\ ((r - 1) * 2 < 5)%nat
    /\ (1 <= List.length (Utils.filterCurrentRoundMatches fiveFixtures r twoPerRound)
        <= 2)%nat.
Proof.
  apply (current_round_is_shown_nonempty 5 fiveFixtures twoPerRound
           (worldAt utcHost scenarioNow 0)).
  - simpl; lia.
  - simpl; lia.
  - discriminate.
Defined.

Lemma buildRounds_stuck {A : Type} (ms : list A) (fuel i : nat) :
  (i < List.length ms)%nat -> Utils.buildRounds fuel i 0 ms = None.
Proof.
  intros Hi. induction fuel as [| fuel IH]; simpl;
    destruct (Nat.ltb_spec i (List.length ms)); try lia; [reflexivity |].
  rewrite Nat.add_0_r, IH. reflexivity.
Qed.

(** X12: with [matchesPerRound] 0 and a match list that is not empty the
    grouping loop of [calculateCurrentRound] never ends: no amount of fuel
    lets the call return a round. *)
Theorem calculateCurrentRound_diverges_without_round_size (fuel : nat)
    (ms : list Utils.CachedMatch) (cfg : Utils.LeagueConfig) (w : World) :
  Utils.matchesPerRound cfg = 0%nat ->
  ms <> [] ->
  fst (Utils.calculateCurrentRound fuel ms cfg w) = Ok None.
Proof.
  intros Hmpr Hne.
  unfold Utils.calculateCurrentRound, bind, Date_now, get_host, ret.
  cbn [fst]. rewrite Hmpr, buildRounds_stuck; [reflexivity |].
  destruct ms; [contradiction | simpl; lia].
Qed.

Lemma calculateCurrentRound_diverges_without_round_size_witness :
  fst (Utils.calculateCurrentRound 1000 fiveFixtures nonePerRound
         (worldAt utcHost scenarioNow 0)) = Ok None.
Proof.
  apply (calculateCurrentRound_diverges_without_round_size 1000 fiveFixtures
           nonePerRound (worldAt utcHost scenarioNow 0)).
  - reflexivity.
  - discriminate.
Defined.

Lemma firstn_add_skipn {A : Type} (a b : nat) (l : list A) :
  firstn (a + b) l = firstn a l ++ firstn b (skipn a l).
Proof.
  revert l. induction a as [| a IH]; intros l; [reflexivity |].
  destruct l as [| x l]; simpl; [now rewrite firstn_nil | now rewrite IH].
Qed.

(** X13: the rounds that [filterCurrentRoundMatches] cuts for the round
    numbers 1, 2, ..., [n] lie side by side in the match list: put one after
    the other they are its first [n * matchesPerRound] matches, so that no
    match is in two rounds and, once [n] rounds cover the list, none is left
    out. *)
Theorem rounds_tile_the_match_list (ms : list Utils.CachedMatch)
    (cfg : Utils.LeagueConfig) (n : nat) :
  List.concat (map (fun r => Utils.filterCurrentRoundMatches ms r cfg) (seq 1 n))
  = firstn (n * Utils.matchesPerRound cfg) ms
  /\ ((List.length ms <= n * Utils.matchesPerRound cfg)%nat ->
      List.concat (map (fun r => Utils.filterCurrentRoundMatches ms r cfg) (seq 1 n)) = ms).
Proof.
  assert (H : List.concat (map (fun r => Utils.filterCurrentRoundMatches ms r cfg) (seq 1 n))
              = firstn (n * Utils.matchesPerRound cfg) ms).
  { induction n as [| n IH]; [reflexivity |].
    rewrite seq_S, map_app, concat_app, IH. simpl map. simpl List.concat.
    rewrite app_nil_r. unfold Utils.filterCurrentRoundMatches, Utils.slice.
    replace (n * Utils.matchesPerRound cfg + Utils.matchesPerRound cfg
             - n * Utils.matchesPerRound cfg)%nat
      with (Utils.matchesPerRound cfg) by lia.
    rewrite <- firstn_add_skipn. f_equal. lia. }
  split; [exact H |].
  intros Hn. rewrite H. now apply firstn_all2.
Qed.

(** ** The kickoff time survives printing and parsing *)

Lemma all_range_spec (n : positive) (start : Z) (p : Z -> bool) :
  all_range n start p = true -> forall z, start <= z < start + Zpos n -> p z = true.
Proof.
  revert start. induction n as [q IH | q IH |]; intros start H z Hz; simpl in H.
  - apply andb_true_iff in H as [H H2]. apply andb_true_iff in H as [H0 H1].
    destruct (Z.eq_dec z start) as [-> | Hne]; [exact H0 |].
    destruct (Z_lt_ge_dec z (start + 1 + Zpos q)).
    + apply (IH _ H1). lia.
    + apply (IH _ H2). lia.
  - apply andb_true_iff in H as [H1 H2].
    destruct (Z_lt_ge_dec z (start + Zpos q)).
    + apply (IH _ H1). lia.
    + apply (IH _ H2). lia.
  - replace z with start by lia. exact H.
Qed.

Lemma civil_ok_era : all_range 146097 0 civil_ok = true.
Proof. vm_compute. reflexivity. Qed.

Lemma is_leap_era (y era : Z) : is_leap (y + era * 400) = is_leap y.
Proof.
  unfold is_leap.
  replace (y + era * 400) with (y + (era * 100) * 4) at 1 by lia.
  replace (y + era * 400) with (y + (era * 4) * 100) at 1 by lia.
  now rewrite !Z_mod_plus_full.
Qed.

Lemma days_in_month_era (y era m : Z) :
  days_in_month (y + era * 400) m = days_in_month y m.
Proof. unfold days_in_month. now rewrite is_leap_era. Qed.

Lemma civil_from_days_spec (z : Z) :
  exists y m d,
    civil_from_days z = (y, m, d)
    /\ 1 <= m <= 12 /\ 1 <= d <= days_in_month y m
    /\ days_from_civil y m d = z
    /\ (z + 719468) / 146097 * 400 <= y <= (z + 719468) / 146097 * 400 + 400.
Proof.
  set (era := (z + 719468) / 146097).
  set (doe := z + 719468 - era * 146097).
  assert (Hdoe : 0 <= doe < 146097).
  { unfold doe, era. pose proof (Z.div_mod (z + 719468) 146097 ltac:(lia)).
    pose proof (Z.mod_pos_bound (z + 719468) 146097 ltac:(lia)). lia. }
  pose proof (all_range_spec _ _ _ civil_ok_era doe ltac:(lia)) as Hok.
  unfold civil_ok in Hok. cbv zeta in Hok.
  unfold civil_from_days. cbv zeta. fold era. fold doe.
  set (yoe := (doe - doe / 1460 + doe / 36524 - doe / 146096) / 365) in *.
  set (doy := doe - (365 * yoe + yoe / 4 - yoe / 100)) in *.
  set (mp := (5 * doy + 2) / 153) in *.
  set (d := doy - (153 * mp + 2) / 5 + 1) in *.
  set (m := if mp <? 10 then mp + 3 else mp - 9) in *.
  repeat (apply andb_true_iff in Hok as [Hok ?]).
  repeat match goal with
         | H : (_ <=? _) = true |- _ => apply Z.leb_le in H
         | H : (_ <? _) = true |- _ => apply Z.ltb_lt in H
         | H : (_ =? _) = true |- _ => apply Z.eqb_eq in H
         end.
  apply Z.leb_le in Hok.
  exists (if m <=? 2 then yoe + era * 400 + 1 else yoe + era * 400), m, d.
  split; [reflexivity |]. split; [lia |].
  assert (Hy : (if m <=? 2 then yoe + era * 400 + 1 else yoe + era * 400)
               = (if m <=? 2 then yoe + 1 else yoe) + era * 400)
    by (destruct (m <=? 2); lia).
  split; [rewrite Hy, days_in_month_era; lia |].
  split.
  - unfold days_from_civil. cbv zeta.
    assert (Hy' : (if m <=? 2
                   then (if m <=? 2 then yoe + era * 400 + 1 else yoe + era * 400) - 1
                   else (if m <=? 2 then yoe + era * 400 + 1 else yoe + era * 400))
                  = yoe + era * 400) by (destruct (m <=? 2); lia).
    rewrite Hy'.
    assert (He : (yoe + era * 400) / 400 = era)
      by (rewrite Z.div_add by lia; rewrite Z.div_small by lia; lia).
    rewrite He.
    replace (yoe + era * 400 - era * 400) with yoe by lia.
    unfold doe in *. lia.
  - destruct (m <=? 2); lia.
Qed.

Lemma digit_val_char (d : Z) : 0 <= d <= 9 -> digit_val (digit_char d) = Some d.
Proof.
  intros H.
  assert (Hd : d = 0 \/ d = 1 \/ d = 2 \/ d = 3 \/ d = 4 \/ d = 5 \/ d = 6
               \/ d = 7 \/ d = 8 \/ d = 9) by lia.
  repeat (destruct Hd as [-> | Hd]; [reflexivity |]). now subst.
Qed.

Lemma append_assoc (a b c : string) : ((a ++ b) ++ c = a ++ (b ++ c))%string.
Proof. induction a as [| x a IH]; simpl; [reflexivity | now rewrite IH]. Qed.

Lemma digits_pad_dec_more (n k : nat) (v acc : Z) (rest : string) :
  0 <= v < 10 ^ Z.of_nat n ->
  digits (n + k) acc (pad_dec n v ++ rest) = digits k (acc * 10 ^ Z.of_nat n + v) rest.
Proof.
  revert k v rest. induction n as [| n IH]; intros k v rest Hv.
  - simpl in *. f_equal. lia.
  - rewrite Nat2Z.inj_succ, Z.pow_succ_r in * by lia.
    simpl pad_dec. rewrite append_assoc. cbn [append].
    replace (S n + k)%nat with (n + S k)%nat by lia.
    pose proof (Z.div_mod v 10 ltac:(lia)) as Hdm.
    pose proof (Z.mod_pos_bound v 10 ltac:(lia)) as Hm.
    rewrite IH by lia.
    cbn [digits]. rewrite digit_val_char by lia. f_equal. lia.
Qed.

Lemma digits_pad_dec (n : nat) (v : Z) (rest : string) :
  0 <= v < 10 ^ Z.of_nat n ->
  digits n 0 (pad_dec n v ++ rest) = Some (v, rest).
Proof.
  intros Hv. pose proof (digits_pad_dec_more n 0 v 0 rest Hv) as H.
  rewrite Nat.add_0_r in H. rewrite H. reflexivity.
Qed.

Lemma parse_year_digit (c : ascii) (s : string) :
  digit_val c <> None -> parse_year (String c s) = digits 4 0 (String c s).
Proof.
  intros H.
  destruct c as [[] [] [] [] [] [] [] []]; try reflexivity;
    exfalso; apply H; reflexivity.
Qed.

Lemma parse_year_string (y : Z) (rest : string) :
  -999999 <= y <= 999999 ->
  parse_year (year_string y ++ rest) = Some (y, rest).
Proof.
  intros Hy. unfold year_string.
  destruct (Z.leb_spec 0 y) as [H0 | H0]; simpl andb.
  - destruct (Z.leb_spec y 9999) as [H1 | H1].
    + pose proof (digits_pad_dec 4 y rest ltac:(simpl; lia)) as Hd.
      destruct (pad_dec 4 y ++ rest)%string as [| c s] eqn:E; [discriminate Hd |].
      rewrite parse_year_digit; [exact Hd |].
      simpl in Hd. destruct (digit_val c); [discriminate | discriminate Hd].
    + destruct (Z.ltb_spec y 0); [lia |].
      cbn [append]. cbn [parse_year].
      apply digits_pad_dec. simpl; lia.
  - destruct (Z.ltb_spec y 0); [| lia].
    cbn [append]. cbn [parse_year].
    rewrite digits_pad_dec by (simpl; lia).
    destruct (Z.eqb_spec (- y) 0); [lia |]. f_equal. f_equal. lia.
Qed.

Lemma days_in_month_le_31 (y m : Z) : days_in_month y m <= 31.
Proof.
  unfold days_in_month.
  destruct (m =? 2); [destruct (is_leap y); lia |].
  destruct (_ || _); lia.
Qed.

(** Printing a time value and parsing the string gives the time value back,
    whatever the engine. *)
Lemma Date_parse_iso (h : Host) (t : Z) :
  Z.abs t <= maxTime -> Date_parse h (iso_of_time t) = Some t.
Proof.
  intros Ht. unfold maxTime in Ht.
  pose proof (Z.div_mod t msPerDay ltac:(unfold msPerDay; lia)) as Hdm.
  pose proof (Z.mod_pos_bound t msPerDay ltac:(unfold msPerDay; lia)) as Hms.
  unfold msPerDay in Hdm, Hms.
  destruct (civil_from_days_spec (t / msPerDay)) as [y [m [d [Hc [Hm [Hd [Hback Hy]]]]]]].
  unfold msPerDay in Hc, Hback, Hy.
  assert (Hday : -100000000 <= t / 86400000 <= 100000000) by lia.
  assert (Hera : -700 <= (t / 86400000 + 719468) / 146097 <= 700).
  { pose proof (Z.div_mod (t / 86400000 + 719468) 146097 ltac:(lia)).
    pose proof (Z.mod_pos_bound (t / 86400000 + 719468) 146097 ltac:(lia)). lia. }
  assert (Hyr : -999999 <= y <= 999999) by lia.
  pose proof (days_in_month_le_31 y m) as H31.
  set (ms := t mod 86400000) in *.
  assert (Hf : parse_fields (iso_of_time t)
               = Some (mkFields y m d
                         (Some (ms / 3600000, ms / 60000 mod 60, ms / 1000 mod 60,
                                ms mod 1000))
                         (Offset 0))).
  { unfold iso_of_time, msPerDay. rewrite Hc. fold ms.
    unfold parse_fields. rewrite parse_year_string by exact Hyr.
    cbn [append]. cbn [expect Ascii.eqb Bool.eqb].
    rewrite digits_pad_dec by (simpl; lia).
    cbn [append expect Ascii.eqb Bool.eqb].
    rewrite digits_pad_dec by (simpl; lia).
    cbn [append parse_rest]. unfold parse_time.
    rewrite digits_pad_dec
      by (simpl; split; [apply Z.div_pos; lia | apply Z.div_lt_upper_bound; lia]).
    cbn [append expect Ascii.eqb Bool.eqb].
    rewrite digits_pad_dec
      by (simpl; pose proof (Z.mod_pos_bound (ms / 60000) 60 ltac:(lia)); lia).
    cbn [append expect Ascii.eqb Bool.eqb].
    rewrite digits_pad_dec
      by (simpl; pose proof (Z.mod_pos_bound (ms / 1000) 60 ltac:(lia)); lia).
    cbn [append expect Ascii.eqb Bool.eqb].
    rewrite digits_pad_dec
      by (simpl; pose proof (Z.mod_pos_bound ms 1000 ltac:(lia)); lia).
    reflexivity. }
  unfold Date_parse. rewrite Hf. cbn [f_month f_day f_time f_offset f_year].
  assert (Hh : 0 <= ms / 3600000 <= 23)
    by (split; [apply Z.div_pos; lia | apply Z.lt_succ_r, Z.div_lt_upper_bound; lia]).
  pose proof (Z.mod_pos_bound (ms / 60000) 60 ltac:(lia)) as Hmi.
  pose proof (Z.mod_pos_bound (ms / 1000) 60 ltac:(lia)) as Hs.
  assert (Hrange : (1 <=? m) && (m <=? 12) && (1 <=? d) && (d <=? 31)
                   && time_in_range (ms / 3600000, ms / 60000 mod 60,
                                     ms / 1000 mod 60, ms mod 1000)
                   && offset_in_range (Offset 0) = true).
  { unfold time_in_range.
    repeat (apply andb_true_iff; split); try (apply Z.leb_le; lia); try reflexivity.
    apply orb_true_iff. left.
    repeat (apply andb_true_iff; split); apply Z.leb_le; lia. }
  rewrite Hrange. cbn [negb].
  destruct (Z.ltb_spec (days_in_month y m) d); [lia |].
  rewrite Hback. unfold ms_of_time, msPerDay, TimeClip, maxTime.
  assert (Hsum : t / 86400000 * 86400000
                 + (((ms / 3600000 * 60 + ms / 60000 mod 60) * 60 + ms / 1000 mod 60)
                    * 1000 + ms mod 1000) - 0 * 60000 = t).
  { pose proof (Z.div_mod ms 1000 ltac:(lia)).
    pose proof (Z.div_mod (ms / 1000) 60 ltac:(lia)).
    pose proof (Z.div_mod (ms / 60000) 60 ltac:(lia)).
    assert (ms / 60000 = ms / 1000 / 60) by (rewrite Z.div_div by lia; reflexivity).
    assert (ms / 3600000 = ms / 60000 / 60) by (rewrite Z.div_div by lia; reflexivity).
    lia. }
  rewrite Hsum.
  destruct (Z.leb_spec (Z.abs t) 8640000000000000); [reflexivity | lia].
Qed.

Lemma TimeClip_in_range (x k : Z) : TimeClip x = Some k -> Z.abs k <= maxTime.
Proof.
  unfold TimeClip. destruct (Z.leb_spec (Z.abs x) maxTime); [| discriminate].
  now intros [= <-].
Qed.

Lemma Date_parse_in_range (h : Host) (s : string) (k : Z) :
  hostInRange h -> Date_parse h s = Some k -> Z.abs k <= maxTime.
Proof.
  intros Hh. unfold Date_parse.
  destruct (parse_fields s) as [f |]; [| apply Hh].
  destruct (negb _); [discriminate |].
  destruct (_ <? _); [apply Hh |].
  destruct (f_time f); [destruct (f_offset f) |]; apply TimeClip_in_range.
Qed.

Lemma parseUTCTime_inv_any (v : json) (w w' : World) (d : Date) :
  Normalizer.parseUTCTime v w = (Ok d, w') ->
  exists s, v = JStr s /\ d = utcInstant (host w) s /\ w' = w.
Proof.
  destruct v; try discriminate. intros H.
  apply parseUTCTime_inv in H as [-> ->]. now eexists.
Qed.

Lemma toISOString_inv (d : Date) (w w' : World) (iso : string) :
  lift (toISOString d) w = (Ok iso, w') ->
  exists k, d = Some k /\ iso = iso_of_time k /\ w' = w.
Proof.
  destruct d as [k |]; [| discriminate].
  intros H. injection H as <- <-. now exists k.
Qed.

Ltac binds H :=
  repeat (let a := fresh "a" in
          let w1 := fresh "w" in
          let Hb := fresh "Hb" in
          apply bind_inv in H as [a [w1 [Hb H]]]).

Ltac gets :=
  repeat match goal with
         | H : get _ _ _ = (Ok _, _) |- _ => apply get_inv in H as [-> ->]
         end.

Lemma determineStatus_scheduled (k : Z) (f s c o : json) (w w' : World)
    (st : Normalizer.Status) :
  Normalizer.determineStatus (Some k) f s c o w = (Ok st, w') ->
  st = Normalizer.SCHEDULED ->
  ~ (0 <= clock w (clock_reads w) - k < 7200000).
Proof.
  intros H ->. pose proof (determineStatus_cases (Some k) f s c o w) as Hc.
  rewrite H in Hc. simpl fst in Hc.
  rewrite minutes_ge_0, minutes_lt_120 in Hc.
  destruct (truthy c); [discriminate |]. destruct (truthy f); [discriminate |].
  destruct (truthy s); [discriminate |]. simpl orb in Hc.
  destruct (Z.leb_spec 0 (clock w (clock_reads w) - k));
    destruct (Z.ltb_spec (clock w (clock_reads w) - k) 7200000);
    simpl in Hc; try discriminate; lia.
Qed.

Lemma status_string_inj (a b : Normalizer.Status) :
  Normalizer.status_string a = Normalizer.status_string b -> a = b.
Proof. destruct a, b; simpl; intros H; try reflexivity; discriminate. Qed.

Lemma weekend_post (r cfg : json) (w w' : World) (m : Normalizer.NormalizedMatch) :
  Normalizer.normalizeAustrianWeekendMatch r cfg w = (Ok m, w') ->
  recordFacts (host w) (clock w (clock_reads w)) (opt_get r "utcTime") m.
Proof.
  intros H. unfold Normalizer.normalizeAustrianWeekendMatch in H. cbv zeta in H.
  binds H. injection H as <- <-. gets.
  apply parseUTCTime_inv_any in Hb0 as [s [Hs [-> ->]]].
  match goal with
  | Hi : lift (toISOString _) _ = _ |- _ => apply toISOString_inv in Hi as [k [Hk [-> _]]]
  end.
  exists s, k. repeat split; try assumption.
  cbn [Normalizer.status]. intros Hst.
  injection Hst as Hst. apply (status_string_inj _ Normalizer.SCHEDULED) in Hst.
  rewrite Hk in *.
  match goal with
  | Hd : Normalizer.determineStatus _ _ _ _ _ _ = _ |- _ =>
      exact (determineStatus_scheduled _ _ _ _ _ _ _ _ Hd Hst)
  end.
Qed.

Lemma bundesliga_post (r cfg round : json) (w w' : World)
    (m : Normalizer.NormalizedMatch) :
  Normalizer.normalizeGermanBundesligaMatch r cfg round w = (Ok m, w') ->
  recordFacts (host w) (clock w (clock_reads w))
    (opt_get (opt_get r "status") "utcTime") m.
Proof.
  intros H. unfold Normalizer.normalizeGermanBundesligaMatch in H. cbv zeta in H.
  binds H. injection H as <- <-. gets.
  match goal with
  | Hp : Normalizer.parseUTCTime _ _ = _ |- _ =>
      apply parseUTCTime_inv_any in Hp as [s [Hs [-> ->]]]
  end.
  match goal with
  | Hi : lift (toISOString _) _ = _ |- _ => apply toISOString_inv in Hi as [k [Hk [-> _]]]
  end.
  exists s, k. repeat split; try assumption.
  cbn [Normalizer.status]. intros Hst.
  injection Hst as Hst. apply (status_string_inj _ Normalizer.SCHEDULED) in Hst.
  rewrite Hk in *.
  match goal with
  | Hd : Normalizer.determineStatus _ _ _ _ _ _ = _ |- _ =>
      exact (determineStatus_scheduled _ _ _ _ _ _ _ _ Hd Hst)
  end.
Qed.

Lemma pinnacle_post (r cfg round : json) (w w' : World)
    (m : Normalizer.NormalizedMatch) :
  Normalizer.normalizePinnacleMatch r cfg round w = (Ok m, w') ->
  exists s k,
    opt_get r "starts" = JStr s /\ utcInstant (host w) s = Some k
    /\ Normalizer.kickoffTime m = JStr (iso_of_time k)
    /\ Normalizer.status m
       = JStr (Normalizer.status_string (pinnacleStatus (clock w (clock_reads w)) k)).
Proof.
  intros H. unfold Normalizer.normalizePinnacleMatch in H. cbv zeta in H.
  apply bind_inv in H as [starts [w1 [Hg H]]]. apply get_inv in Hg as [-> ->].
  apply bind_inv in H as [d [w1 [Hp H]]].
  apply parseUTCTime_inv_any in Hp as [s [Hs [-> ->]]].
  apply bind_inv in H as [now [w1 [Hn H]]].
  unfold Date_now in Hn. injection Hn as <- <-.
  binds H. injection H as <- <-.
  match goal with
  | Hi : lift (toISOString _) _ = _ |- _ => apply toISOString_inv in Hi as [k [Hk [-> _]]]
  end.
  exists s, k. repeat split; try assumption.
  cbn [Normalizer.status]. rewrite Hk, minutes_ge_0, minutes_lt_120, minutes_ge_120.
  reflexivity.
Qed.

Lemma pinnacle_recordFacts (r cfg round : json) (w w' : World)
    (m : Normalizer.NormalizedMatch) :
  Normalizer.normalizePinnacleMatch r cfg round w = (Ok m, w') ->
  recordFacts (host w) (clock w (clock_reads w)) (opt_get r "starts") m.
Proof.
  intros H. apply pinnacle_post in H as [s [k [Hs [Hk [Hiso Hst]]]]].
  exists s, k. repeat split; try assumption.
  rewrite Hst. unfold pinnacleStatus.
  destruct (Z.leb_spec 0 (clock w (clock_reads w) - k));
    destruct (Z.ltb_spec (clock w (clock_reads w) - k) 7200000); simpl;
    try discriminate; lia.
Qed.

Ltac tag_cases source :=
  unfold parsingSource;
  destruct (String.eqb source "austrian-weekend") eqn:?E1;
    [apply String.eqb_eq in E1; subst source |];
    [| destruct (String.eqb source "german-bundesliga") eqn:?E2;
       [apply String.eqb_eq in E2; subst source |];
       [| destruct (String.eqb source "german-2bundesliga") eqn:?E3;
          [apply String.eqb_eq in E3; subst source |];
          [| destruct (String.eqb source "premier-league") eqn:?E4;
             [apply String.eqb_eq in E4; subst source |];
             [| destruct (String.eqb source "pinnacle") eqn:?E5;
                [apply String.eqb_eq in E5; subst source |] ] ] ] ].

Lemma keepsEngine_normalizerOf (source : string) (cfg round r : json) :
  keepsEngine (normalizerOf source cfg round r).
Proof.
  unfold normalizerOf.
  repeat match goal with
         | |- keepsEngine (if ?b then _ else _) => destruct b
         end;
    first [ apply keepsEngine_normalizeAustrianWeekendMatch
          | apply keepsEngine_normalizeGermanBundesligaMatch
          | apply keepsEngine_normalizePinnacleMatch
          | apply keepsEngine_normalizeFormattedMatch ].
Qed.

Lemma normalizerOf_post (source : string) (cfg round r : json) (w w' : World)
    (m : Normalizer.NormalizedMatch) :
  parsingSource source = true ->
  normalizerOf source cfg round r w = (Ok m, w') ->
  recordFacts (host w) (clock w (clock_reads w)) (timestampOf source r) m.
Proof.
  unfold normalizerOf, timestampOf. tag_cases source; simpl; intros Hp H;
    try discriminate Hp.
  - now apply weekend_post in H.
  - now apply bundesliga_post in H.
  - now apply bundesliga_post in H.
  - now apply bundesliga_post in H.
  - now apply pinnacle_recordFacts in H.
Qed.

Lemma Forall2_In_r {A B : Type} (P : A -> B -> Prop) (l : list A) (l' : list B) (y : B) :
  Forall2 P l l' -> In y l' -> exists x, In x l /\ P x y.
Proof.
  induction 1 as [| x y' l l' Hp _ IH]; intros Hy; [contradiction |].
  destruct Hy as [-> | Hy].
  - exists x. split; [now left | exact Hp].
  - destruct (IH Hy) as [x' [Hx' Hp']]. exists x'. split; [now right | exact Hp'].
Qed.

(** With a tag whose normalizer parses the timestamp, every returned match
    stems from a record of the input and carries what the normalizer found
    at one reading of the clock; it passed the time test at a later one. *)
Lemma normalizeMatches_parsing_inv (ms : list json) (source : string)
    (cfg round : json) (w : World) (out : list Normalizer.NormalizedMatch) :
  parsingSource source = true ->
  fst (Normalizer.normalizeMatches ms source cfg round w) = Ok out ->
  exists n,
    (clock_reads w <= n)%nat
    /\ forall m, In m out ->
         keptByTime (host w) (clock w n) m = true
         /\ exists r w0 w0',
              In r ms /\ host w0 = host w /\ clock w0 = clock w
              /\ (clock_reads w <= clock_reads w0 <= n)%nat
              /\ normalizerOf source cfg round r w0 = (Ok m, w0').
Proof.
  intros Hp Hrun.
  assert (Hrun' : fst (bind (mapM (normalizerOf source cfg round) ms)
                         (fun nms => bind (Normalizer.filterRelevantMatches nms)
                                          Normalizer.sortMatches) w) = Ok out).
  { revert Hp Hrun. unfold Normalizer.normalizeMatches, normalizerOf.
    tag_cases source; simpl; intros Hp Hrun; try discriminate Hp; exact Hrun. }
  apply pipeline_returns in Hrun'
      as [nms [w1 [Hmap [Hh [Hc [Hn [Hperm _]]]]]]];
    [| apply keepsEngine_mapM; intros r; apply keepsEngine_normalizerOf].
  exists (clock_reads w1). split; [exact Hn |].
  pose (I := fun w0 : World => host w0 = host w /\ clock w0 = clock w
                               /\ (clock_reads w <= clock_reads w0)%nat).
  assert (Hall : forall l wa nms' wb,
             I wa -> mapM (normalizerOf source cfg round) l wa = (Ok nms', wb) ->
             I wb
             /\ Forall2 (fun r m =>
                  exists w0 w0', host w0 = host w /\ clock w0 = clock w
                    /\ (clock_reads w <= clock_reads w0 <= clock_reads wb)%nat
                    /\ normalizerOf source cfg round r w0 = (Ok m, w0')) l nms').
  { induction l as [| x l IH]; intros wa nms' wb Hi H; simpl in H.
    - injection H as <- <-. split; [exact Hi | constructor].
    - apply bind_inv in H as [b [wx [Hx H]]].
      apply bind_inv in H as [bs [wy [Hl H]]]. injection H as <- <-.
      destruct Hi as [Hih [Hic Hin]].
      destruct (keepsEngine_normalizerOf source cfg round x wa) as [Hxh [Hxc Hxn]].
      rewrite Hx in Hxh, Hxc, Hxn. simpl in Hxh, Hxc, Hxn.
      assert (Hix : I wx) by (unfold I; repeat split; [congruence | congruence | lia]).
      destruct (IH _ _ _ Hix Hl) as [Hiy Hf].
      assert (Hmono : (clock_reads wx <= clock_reads wy)%nat).
      { destruct (keepsEngine_mapM (normalizerOf source cfg round) l
                    (keepsEngine_normalizerOf source cfg round) wx) as [_ [_ Hle]].
        now rewrite Hl in Hle. }
      split; [exact Hiy |]. constructor; [| exact Hf].
      exists wa, wx. repeat split; try assumption; lia. }
  destruct (Hall ms w nms w1 ltac:(unfold I; repeat split; lia) Hmap) as [_ Hf].
  intros m Hm. apply (Permutation_in _ (Permutation_sym Hperm)) in Hm.
  apply filter_In in Hm as [Hm Hk]. split; [exact Hk |].
  destruct (Forall2_In_r _ _ _ _ Hf Hm) as [r [Hr [w0 [w0' Hw0]]]].
  exists r, w0, w0'. split; [exact Hr | exact Hw0].
Qed.

Lemma recordFacts_read_back (h : Host) (t : Z) (ts : json)
    (m : Normalizer.NormalizedMatch) :
  hostInRange h -> recordFacts h t ts m ->
  exists s k,
    ts = JStr s /\ utcInstant h s = Some k
    /\ Normalizer.kickoffTime m = JStr (iso_of_time k)
    /\ new_Date h (Normalizer.kickoffTime m) = Ok (Some k)
    /\ (Normalizer.status m = JStr "SCHEDULED" -> ~ (0 <= t - k < 7200000)).
Proof.
  intros Hh [s [k [Hs [Hk [Hiso Hst]]]]]. exists s, k.
  repeat split; try assumption.
  rewrite Hiso. simpl. rewrite Date_parse_iso; [reflexivity |].
  exact (Date_parse_in_range _ _ _ Hh Hk).
Qed.



(** X15: with a tag whose normalizer parses the timestamp and a clock that
    does not run backwards, a match that [normalizeMatches] returns as
    SCHEDULED had not kicked off when it was classified: there is a reading
    of the clock, taken after the call began, that lies before its kickoff
    time. *)
Theorem scheduled_match_has_not_kicked_off (ms : list json) (source : string)
    (cfg round : json) (w : World) (out : list Normalizer.NormalizedMatch) :
  parsingSource source = true ->
  hostInRange (host w) ->
  (forall a b, (a <= b)%nat -> clock w a <= clock w b) ->
  fst (Normalizer.normalizeMatches ms source cfg round w) = Ok out ->
  forall m, In m out -> Normalizer.status m = JStr "SCHEDULED" ->
    exists k n,
      (clock_reads w <= n)%nat
      /\ new_Date (host w) (Normalizer.kickoffTime m) = Ok (Some k)
      /\ clock w n < k.
Proof.
  intros Hp Hh Hmono Hrun m Hm Hst.
  destruct (normalizeMatches_parsing_inv ms source cfg round w out Hp Hrun)
    as [n [_ Hall]].
  destruct (Hall m Hm) as [Hkept [r [w0 [w0' [Hr [Hh0 [Hc0 [Hn0 Hn]]]]]]]].
  apply normalizerOf_post in Hn; [| exact Hp]. rewrite Hh0, Hc0 in Hn.
  destruct (recordFacts_read_back _ _ _ _ Hh Hn) as [s [k [_ [_ [_ [Hback Hs]]]]]].
  exists k, (clock_reads w0). split; [lia |]. split; [exact Hback |].
  apply keptByTime_iff in Hkept as [k' [Hk' Hlt]].
  rewrite Hback in Hk'. injection Hk' as <-.
  specialize (Hs Hst). pose proof (Hmono (clock_reads w0) n ltac:(lia)). lia.
Qed.

Lemma scheduled_match_has_not_kicked_off_witness :
  exists out,
    fst (Normalizer.normalizeMatches [salzburgRapidB] "german-bundesliga" JUndef JUndef
           (worldAt utcHost scenarioNow 0)) = Ok out
    /\ (exists m, In m out /\ Normalizer.status m = JStr "SCHEDULED")
    /\ forall m, In m out -> Normalizer.status m = JStr "SCHEDULED" ->
         exists k n,
           (0 <= n)%nat
           /\ new_Date utcHost (Normalizer.kickoffTime m) = Ok (Some k)
           /\ scenarioNow < k.
Proof.
  eexists. split; [vm_compute; reflexivity |].
  split; [eexists; split; [left; reflexivity | reflexivity] |].
  apply (scheduled_match_has_not_kicked_off [salzburgRapidB] "german-bundesliga"
           JUndef JUndef (worldAt utcHost scenarioNow 0)).
  - reflexivity.
  - intros s k H. discriminate H.
  - intros a b _. apply Z.le_refl.
  - vm_compute. reflexivity.
Defined.

(** X16: with the tag [pinnacle] and a clock that does not run backwards,
    [normalizeMatches] never returns a FINISHED match: every returned match
    is SCHEDULED, with its kickoff after a reading of the clock taken during
    the call, or LIVE, with its kickoff less than 120 minutes before that
    reading.  The status FINISHED that the Pinnacle normalizer assigns is
    always dropped by the time filter. *)
Theorem pinnacle_never_returns_finished (ms : list json) (cfg round : json)
    (w : World) (out : list Normalizer.NormalizedMatch) :
  hostInRange (host w) ->
  (forall a b, (a <= b)%nat -> clock w a <= clock w b) ->
  fst (Normalizer.normalizeMatches ms "pinnacle" cfg round w) = Ok out ->
  forall m, In m out ->
    exists k n,
      (clock_reads w <= n)%nat
      /\ new_Date (host w) (Normalizer.kickoffTime m) = Ok (Some k)
      /\ ((clock w n < k /\ Normalizer.status m = JStr "SCHEDULED")
          \/ (0 <= clock w n - k < 120 * 60000 /\ Normalizer.status m = JStr "LIVE")).
Proof.
  intros Hh Hmono Hrun m Hm.
  destruct (normalizeMatches_parsing_inv ms "pinnacle" cfg round w out eq_refl Hrun)
    as [n [_ Hall]].
  destruct (Hall m Hm) as [Hkept [r [w0 [w0' [Hr [Hh0 [Hc0 [Hn0 Hn]]]]]]]].
  change (normalizerOf "pinnacle" cfg round r)
    with (Normalizer.normalizePinnacleMatch r cfg round) in Hn.
  apply pinnacle_post in Hn as [s [k [Hs [Hk [Hiso Hst]]]]].
  rewrite Hh0 in Hk. rewrite Hc0 in Hst.
  assert (Hback : new_Date (host w) (Normalizer.kickoffTime m) = Ok (Some k)).
  { rewrite Hiso. simpl. rewrite Date_parse_iso; [reflexivity |].
    exact (Date_parse_in_range _ _ _ Hh Hk). }
  exists k, (clock_reads w0). split; [lia |]. split; [exact Hback |].
  apply keptByTime_iff in Hkept as [k' [Hk' Hlt]].
  rewrite Hback in Hk'. injection Hk' as <-.
  pose proof (Hmono (clock_reads w0) n ltac:(lia)) as Hle.
  rewrite Hst. unfold pinnacleStatus.
  destruct (Z.leb_spec 0 (clock w (clock_reads w0) - k));
    destruct (Z.ltb_spec (clock w (clock_reads w0) - k) 7200000); simpl.
  - right. split; [lia | reflexivity].
  - lia.
  - left. split; [lia |].
    destruct (Z.leb_spec 7200000 (clock w (clock_reads w0) - k)); [lia | reflexivity].
  - lia.
Qed.

Lemma pinnacle_never_returns_finished_witness :
  exists out,
    fst (Normalizer.normalizeMatches [pinnacleNoPrices] "pinnacle" JUndef JUndef
           (worldAt utcHost scenarioNow 0)) = Ok out
    /\ out <> []
    /\ forall m, In m out ->
         exists k n,
           (0 <= n)%nat
           /\ new_Date utcHost (Normalizer.kickoffTime m) = Ok (Some k)
           /\ ((scenarioNow < k /\ Normalizer.status m = JStr "SCHEDULED")
               \/ (0 <= scenarioNow - k < 120 * 60000
                   /\ Normalizer.status m = JStr "LIVE")).
Proof.
  eexists. split; [vm_compute; reflexivity |]. split; [discriminate |].
  apply (pinnacle_never_returns_finished [pinnacleNoPrices] JUndef JUndef
           (worldAt utcHost scenarioNow 0)).
  - intros s k H. discriminate H.
  - intros a b _. apply Z.le_refl.
  - vm_compute. reflexivity.
Defined.

(** ** The German Bundesliga route *)

Lemma slice_nonneg {A : Type} (a b : Z) (l : list A) :
  0 <= a <= b ->
  BundesligaGET.slice a b l = firstn (Z.to_nat (b - a)) (skipn (Z.to_nat a) l).
Proof.
  intros Hab. unfold BundesligaGET.slice.
  destruct (Z.ltb_spec a 0); [lia |]. destruct (Z.ltb_spec b 0); [lia |].
  set (len := Z.of_nat (List.length l)).
  assert (Hlen : List.length l = Z.to_nat len) by (unfold len; lia).
  destruct (Z_le_gt_dec b len) as [Hb | Hb].
  - rewrite !Z.min_l by lia. reflexivity.
  - rewrite (Z.min_r b) by lia.
    destruct (Z_le_gt_dec a len) as [Ha | Ha].
    + rewrite Z.min_l by lia.
      rewrite !firstn_all2; [reflexivity | |]; rewrite length_skipn; lia.
    + rewrite Z.min_r by lia.
      rewrite !skipn_all2 by lia. now rewrite !firstn_nil.
Qed.

Lemma nth_error_window {A : Type} (n k i : nat) (l : list A) :
  nth_error (firstn n (skipn k l)) i
  = if (i <? n)%nat then nth_error l (k + i) else None.
Proof.
  destruct (Nat.ltb_spec i n) as [Hi | Hi].
  - rewrite nth_error_firstn. destruct (Nat.ltb_spec i n); [| lia].
    now rewrite nth_error_skipn.
  - apply nth_error_None. rewrite length_firstn. lia.
Qed.

(** X17: the slices of the route overlap: the match at index 62 of the
    cache is the ninth match of round 7 and the first match of round 8, and
    every round from 8 on is the nine matches from index [9 * r - 10], one
    place before the end of its predecessor. *)
Theorem round_8_begins_with_the_last_match_of_round_7 (allMatches : list json) :
  nth_error (BundesligaGET.getMatchesForRound allMatches 7) 8 = nth_error allMatches 62
  /\ nth_error (BundesligaGET.getMatchesForRound allMatches 8) 0
     = nth_error allMatches 62
  /\ (forall r, 8 <= r ->
        BundesligaGET.getMatchesForRound allMatches r
        = firstn 9 (skipn (Z.to_nat (9 * r - 10)) allMatches)).
Proof.
  assert (H8 : forall r, 8 <= r ->
             BundesligaGET.getMatchesForRound allMatches r
             = firstn 9 (skipn (Z.to_nat (9 * r - 10)) allMatches)).
  { intros r Hr. unfold BundesligaGET.getMatchesForRound, BundesligaGET.matchesPerRound.
    destruct (Z.eqb_spec r 6); [lia |]. destruct (Z.eqb_spec r 7); [lia |].
    cbv zeta. rewrite slice_nonneg by lia.
    replace ((r - 6) * 9 + 44 + 9 - ((r - 6) * 9 + 44)) with 9 by lia.
    replace ((r - 6) * 9 + 44) with (9 * r - 10) by lia. reflexivity. }
  split; [| split; [| exact H8]].
  - unfold BundesligaGET.getMatchesForRound. simpl Z.eqb. cbv iota.
    rewrite slice_nonneg by lia. apply (nth_error_window 9 54 8).
  - rewrite H8 by lia. apply (nth_error_window 9 62 0).
Qed.

Lemma matchTimeOf_inv (m : json) (w w' : World) (d : Date) :
  BundesligaGET.matchTimeOf m w = (Ok d, w') ->
  d = routeDate (host w) m /\ w' = w
  /\ nullish m = false /\ nullish (opt_get m "status") = false.
Proof.
  unfold BundesligaGET.matchTimeOf. intros H.
  apply bind_inv in H as [st [w1 [Hst H]]].
  assert (Hm : nullish m = false)
    by (unfold get in Hst; destruct (nullish m); [discriminate | reflexivity]).
  apply get_inv in Hst as [-> ->].
  apply bind_inv in H as [u [w1 [Hu H]]].
  assert (Hs : nullish (opt_get m "status") = false)
    by (unfold get in Hu; destruct (nullish (opt_get m "status"));
        [discriminate | reflexivity]).
  apply get_inv in Hu as [-> ->].
  unfold bind, get_host, lift in H. unfold routeDate.
  destruct (new_Date (host w) _) as [d' | e]; [| discriminate].
  injection H as <- <-. repeat split; assumption.
Qed.

Lemma matchTimeOf_timestamped (m : json) (w : World) :
  timestamped m -> BundesligaGET.matchTimeOf m w = (Ok (routeDate (host w) m), w).
Proof.
  intros [s Hs]. unfold BundesligaGET.matchTimeOf, routeDate.
  assert (Hm : nullish m = false) by (destruct m; try reflexivity; discriminate Hs).
  assert (Hst : nullish (opt_get m "status") = false)
    by (destruct (opt_get m "status"); try reflexivity; discriminate Hs).
  unfold bind, get. rewrite Hm. unfold ret. rewrite Hst. simpl. now rewrite Hs.
Qed.

Lemma lastGameTimeOf_invalid (ms : list json) (w w' : World) (out : option Date) :
  BundesligaGET.lastGameTimeOf (Some None) ms w = (Ok out, w') ->
  out = Some None /\ w' = w.
Proof.
  revert w. induction ms as [| m ms IH]; intros w H; simpl in H.
  - injection H as <- <-. now split.
  - apply bind_inv in H as [d [w1 [Hd H]]].
    apply matchTimeOf_inv in Hd as [_ [-> _]].
    destruct d as [x |]; simpl in H; now apply IH.
Qed.

Lemma lastGameTimeOf_valid (ms : list json) (acc : Z) (w w' : World)
    (out : option Date) :
  BundesligaGET.lastGameTimeOf (Some (Some acc)) ms w = (Ok out, w') ->
  out = Some (Some (match latestKickoff (host w) ms with
                    | Some k => Z.max acc k
                    | None => acc
                    end))
  /\ w' = w.
Proof.
  revert acc w. induction ms as [| m ms IH]; intros acc w H; simpl in H.
  - injection H as <- <-. now split.
  - apply bind_inv in H as [d [w1 [Hd H]]].
    apply matchTimeOf_inv in Hd as [-> [-> _]].
    simpl latestKickoff.
    destruct (routeDate (host w) m) as [k |]; simpl in H.
    + destruct (Z.ltb_spec acc k) as [Hk | Hk];
        apply IH in H as [-> ->]; (split; [| reflexivity]);
        destruct (latestKickoff (host w) ms); do 2 f_equal; lia.
    + now apply IH in H.
Qed.

Lemma lastGameTimeOf_first (m : json) (ms : list json) (w w' : World)
    (out : option Date) :
  BundesligaGET.lastGameTimeOf None (m :: ms) w = (Ok out, w') ->
  w' = w
  /\ match routeDate (host w) m with
     | Some _ => out = Some (latestKickoff (host w) (m :: ms))
     | None => out = Some None
     end.
Proof.
  intros H. simpl in H. apply bind_inv in H as [d [w1 [Hd H]]].
  apply matchTimeOf_inv in Hd as [-> [-> _]].
  simpl latestKickoff.
  destruct (routeDate (host w) m) as [k |].
  - apply lastGameTimeOf_valid in H as [-> ->]. split; [reflexivity |].
    destruct (latestKickoff (host w) ms); reflexivity.
  - apply lastGameTimeOf_invalid in H as [-> ->]. now split.
Qed.

Lemma roundLoop_spec (n : nat) (allMatches : list json) (now c : Z) (w w' : World)
    (r : Z) :
  BundesligaGET.roundLoop n allMatches now c w = (Ok r, w') ->
  w' = w
  /\ c <= r <= c + Z.of_nat n
  /\ (forall r', c <= r' < r ->
        exists k, latestKickoff (host w) (BundesligaGET.getMatchesForRound allMatches r')
                  = Some k
                  /\ 120 * 60000 <= now - k)
  /\ (r < c + Z.of_nat n ->
      BundesligaGET.getMatchesForRound allMatches r = []
      \/ exists k, latestKickoff (host w) (BundesligaGET.getMatchesForRound allMatches r)
                   = Some k
                   /\ now - k < 120 * 60000).
Proof.
  revert c. induction n as [| n IH]; intros c H.
  - simpl in H. injection H as <- <-.
    split; [reflexivity |]. split; [lia |]. split; [intros r' Hr'; lia | lia].
  - cbn [BundesligaGET.roundLoop] in H. cbv zeta in H.
    destruct (BundesligaGET.getMatchesForRound allMatches c) as [| m ms] eqn:Er.
    { injection H as <- <-. split; [reflexivity |]. split; [lia |].
      split; [intros r' Hr'; lia |]. intros _. left. exact Er. }
    apply bind_inv in H as [lgt [w1 [Hl H]]].
    apply lastGameTimeOf_first in Hl as [-> Hl].
    destruct lgt as [lastGame |].
    2:{ destruct (routeDate (host w) m); discriminate Hl. }
    apply bind_inv in H as [iso [w1 [Hiso H]]].
    apply toISOString_inv in Hiso as [k [-> [_ ->]]].
    assert (Hk : latestKickoff (host w) (m :: ms) = Some k).
    { destruct (routeDate (host w) m); [| discriminate Hl].
      injection Hl as Hl. now symmetry. }
    rewrite minutes_lt_120 in H.
    destruct (Z.ltb_spec (now - k) 7200000) as [Hlt | Hge].
    + injection H as <- <-. split; [reflexivity |]. split; [lia |].
      split; [intros r' Hr'; lia |]. intros _. right. exists k.
      rewrite Er. split; [exact Hk | lia].
    + apply IH in H as [-> [Hr [Hbefore Hopen]]].
      split; [reflexivity |]. split; [lia |]. split.
      * intros r' Hr'. destruct (Z.eq_dec r' c) as [-> | Hne].
        -- exists k. rewrite Er. split; [exact Hk | lia].
        -- apply Hbefore. lia.
      * intros Hlt. apply Hopen. lia.
Qed.

(** X18: when the round search of the route returns, the round lies between
    6 and 35; every round from 6 up to it is not empty and its latest valid
    kickoff, whatever the order of its matches, lies 120 minutes or more
    before now; and the round itself, unless it is 35, is empty or has its
    latest valid kickoff less than 120 minutes before now. *)
Theorem findCurrentRound_first_open_round (allMatches : list json) (now : Z)
    (w : World) (r : Z) :
  fst (BundesligaGET.findCurrentRound allMatches now w) = Ok r ->
  6 <= r <= 35
  /\ (forall r', 6 <= r' < r ->
        exists k, latestKickoff (host w) (BundesligaGET.getMatchesForRound allMatches r')
                  = Some k
                  /\ 120 * 60000 <= now - k)
  /\ (r <= 34 ->
      BundesligaGET.getMatchesForRound allMatches r = []
      \/ exists k, latestKickoff (host w) (BundesligaGET.getMatchesForRound allMatches r)
                   = Some k
                   /\ now - k < 120 * 60000).
Proof.
  intros H. unfold BundesligaGET.findCurrentRound in H.
  destruct (BundesligaGET.roundLoop 29 allMatches now 6 w) as [res w'] eqn:E.
  simpl in H. subst res.
  apply roundLoop_spec in E as [_ [Hr [Hbefore Hopen]]].
  split; [lia |]. split; [exact Hbefore |]. intros H34. apply Hopen. lia.
Qed.

Lemma findCurrentRound_first_open_round_witness :
  6 <= 7 <= 35
  /\ (forall r', 6 <= r' < 7 ->
        exists k, latestKickoff utcHost (BundesligaGET.getMatchesForRound cacheInRound7 r')
                  = Some k
                  /\ 120 * 60000 <= scenarioNow - k)
  /\ (7 <= 34 ->
      BundesligaGET.getMatchesForRound cacheInRound7 7 = []
      \/ exists k, latestKickoff utcHost (BundesligaGET.getMatchesForRound cacheInRound7 7)
                   = Some k
                   /\ scenarioNow - k < 120 * 60000).
Proof.
  apply (findCurrentRound_first_open_round cacheInRound7 scenarioNow
           (worldAt utcHost scenarioNow 0) 7).
  vm_compute. reflexivity.
Defined.

Lemma lastGameTimeOf_timestamped (ms : list json) (acc : option Date) (w : World) :
  Forall timestamped ms ->
  exists out, BundesligaGET.lastGameTimeOf acc ms w = (Ok out, w).
Proof.
  revert acc. induction ms as [| m ms IH]; intros acc Hms; simpl.
  - now eexists.
  - apply Forall_cons_iff in Hms as [Hm Hms].
    unfold bind. rewrite (matchTimeOf_timestamped m w Hm). now apply IH.
Qed.

(** X19: when the first match of round 6 has a kickoff time that is no
    date, the round search of the route fails with a [RangeError], raised by
    the log line that prints the time of the last game; the other matches
    of the round cannot help, since no date compares greater than an invalid
    one. *)
Theorem findCurrentRound_throws_on_unreadable_first_date (allMatches : list json)
    (now : Z) (w : World) (m : json) (rest : list json) :
  BundesligaGET.getMatchesForRound allMatches 6 = m :: rest ->
  Forall timestamped (m :: rest) ->
  routeDate (host w) m = None ->
  fst (BundesligaGET.findCurrentRound allMatches now w) = Throw RangeError.
Proof.
  intros Er Hts Hm. unfold BundesligaGET.findCurrentRound.
  cbn [BundesligaGET.roundLoop]. cbv zeta. rewrite Er.
  destruct (lastGameTimeOf_timestamped (m :: rest) None w Hts) as [out Hout].
  unfold bind at 1. rewrite Hout.
  apply lastGameTimeOf_first in Hout as [_ Hout]. rewrite Hm in Hout. subst out.
  reflexivity.
Qed.

Lemma findCurrentRound_throws_on_unreadable_first_date_witness :
  fst (BundesligaGET.findCurrentRound (repeat playedMatch 44 ++ [unreadableMatch])
         scenarioNow (worldAt utcHost scenarioNow 0)) = Throw RangeError.
Proof.
  apply (findCurrentRound_throws_on_unreadable_first_date
           (repeat playedMatch 44 ++ [unreadableMatch]) scenarioNow
           (worldAt utcHost scenarioNow 0) unreadableMatch []).
  - reflexivity.
  - repeat constructor. eexists. reflexivity.
  - reflexivity.
Defined.

Lemma determineStatus_finished (d : Date) (f s c o : json) (w w' : World) :
  Normalizer.determineStatus d f s c o w = (Ok Normalizer.FINISHED, w') ->
  truthy c = false /\ truthy f = true.
Proof.
  intros H. pose proof (determineStatus_cases d f s c o w) as Hc.
  rewrite H in Hc. simpl fst in Hc.
  destruct (truthy c); [discriminate |]. destruct (truthy f); [now split |].
  destruct (_ || _); [discriminate |]. destruct (truthy o); discriminate.
Qed.

Lemma bundesliga_fields (r cfg round : json) (w w' : World)
    (m : Normalizer.NormalizedMatch) :
  Normalizer.normalizeGermanBundesligaMatch r cfg round w = (Ok m, w') ->
  Normalizer.id m = opt_get r "id"
  /\ Normalizer.league m
     = Normalizer.default_arg cfg Normalizer.LEAGUE_CONFIGS.GERMAN_BUNDESLIGA
  /\ Normalizer.round m = or_else round (opt_get r "round")
  /\ Normalizer.bestOdds m = JUndef
  /\ (Normalizer.status m = JStr "FINISHED" ->
      truthy (opt_get (opt_get r "status") "finished") = true).
Proof.
  intros H. unfold Normalizer.normalizeGermanBundesligaMatch in H. cbv zeta in H.
  binds H. injection H as <- <-. gets.
  repeat split. cbn [Normalizer.status]. intros Hst.
  injection Hst as Hst. apply (status_string_inj _ Normalizer.FINISHED) in Hst.
  subst.
  match goal with
  | Hd : Normalizer.determineStatus _ _ _ _ _ _ = _ |- _ =>
      now apply determineStatus_finished in Hd
  end.
Qed.

Lemma lookup_set_field_other (k k' : string) (v : json) (fs : list (string * json)) :
  k' <> k -> lookup k' (BundesligaGET.set_field k v fs) = lookup k' fs.
Proof.
  intros Hne. induction fs as [| [k0 v0] fs IH]; simpl.
  - destruct (String.eqb_spec k' k); [contradiction | reflexivity].
  - destruct (String.eqb_spec k k0) as [-> | Hk]; simpl.
    + destruct (String.eqb_spec k' k0); [contradiction | reflexivity].
    + now rewrite IH.
Qed.

Lemma opt_get_spread_other (o v : json) (k k' : string) :
  nullish (opt_get o "status") = false -> k' <> k ->
  opt_get (BundesligaGET.spread_with o k v) k' = opt_get o k'.
Proof.
  intros Ho Hne. destruct o; try discriminate Ho.
  simpl. now rewrite lookup_set_field_other.
Qed.

Lemma displayOf_inv (now : Z) (m : json) (w w' : World) (pushed : option json) :
  BundesligaGET.displayOf now m w = (Ok pushed, w') ->
  w' = w
  /\ nullish (opt_get m "status") = false
  /\ pushed
     = match BundesligaRoute.GET_displayStatus now (routeDate (host w) m) with
       | Some ds =>
           Some (BundesligaGET.spread_with m "displayStatus"
                   (JStr (BundesligaGET.display_string ds)))
       | None => None
       end.
Proof.
  intros H. unfold BundesligaGET.displayOf in H.
  apply bind_inv in H as [d [w1 [Hd H]]].
  apply matchTimeOf_inv in Hd as [-> [-> [_ Hs]]].
  binds H. injection H as <- <-. gets.
  unfold get_host in Hb. injection Hb as <- <-.
  unfold lift in Hb2, Hb5. injection Hb2 as _ <-. injection Hb5 as _ <-.
  repeat split; assumption.
Qed.

Lemma filterLoop_inv (now : Z) (ms : list json) (w w' : World) (out : list json) :
  BundesligaGET.filterLoop now ms w = (Ok out, w') ->
  w' = w
  /\ forall f, In f out ->
       exists rec ds,
         In rec ms
         /\ nullish (opt_get rec "status") = false
         /\ BundesligaRoute.GET_displayStatus now (routeDate (host w) rec) = Some ds
         /\ f = BundesligaGET.spread_with rec "displayStatus"
                  (JStr (BundesligaGET.display_string ds)).
Proof.
  revert out w'. induction ms as [| m ms IH]; intros out w' H; simpl in H.
  - injection H as <- <-. split; [reflexivity | intros f []].
  - apply bind_inv in H as [pushed [w1 [Hp H]]].
    apply displayOf_inv in Hp as [-> [Hs Hp]].
    apply bind_inv in H as [fm [w1 [Hf H]]].
    apply IH in Hf as [-> Hf]. injection H as <- <-.
    split; [reflexivity |]. intros f Hin.
    assert (Hrest : In f fm ->
              exists rec ds, In rec (m :: ms)
                /\ nullish (opt_get rec "status") = false
                /\ BundesligaRoute.GET_displayStatus now (routeDate (host w) rec) = Some ds
                /\ f = BundesligaGET.spread_with rec "displayStatus"
                         (JStr (BundesligaGET.display_string ds))).
    { intros Hfm. destruct (Hf f Hfm) as [rec [ds [Hr Hrest]]].
      exists rec, ds. split; [now right | exact Hrest]. }
    destruct (BundesligaRoute.GET_displayStatus now (routeDate (host w) m)) as [ds |] eqn:Ed;
      subst pushed; [| now apply Hrest].
    destruct Hin as [<- | Hin]; [| now apply Hrest].
    exists m, ds. split; [now left |]. repeat split; assumption.
Qed.

Lemma addMockOdds_inv (m m' : Normalizer.NormalizedMatch) (w w' : World) :
  BundesligaGET.addMockOdds m w = (Ok m', w') ->
  truthy (Normalizer.bestOdds m') = true
  /\ Normalizer.id m' = Normalizer.id m
  /\ Normalizer.league m' = Normalizer.league m
  /\ Normalizer.kickoffTime m' = Normalizer.kickoffTime m
  /\ Normalizer.status m' = Normalizer.status m
  /\ Normalizer.round m' = Normalizer.round m.
Proof.
  unfold BundesligaGET.addMockOdds.
  destruct (truthy (Normalizer.bestOdds m)) eqn:Eb; simpl negb; cbv iota.
  - intros H. injection H as <- <-. repeat split. exact Eb.
  - intros H. binds H. injection H as <- <-. repeat split.
Qed.

Lemma mapM_In_inv {A B : Type} (f : A -> M B) (l : list A) (w w' : World)
    (out : list B) (y : B) :
  mapM f l w = (Ok out, w') -> In y out ->
  exists x wa wb, In x l /\ f x wa = (Ok y, wb).
Proof.
  revert w out. induction l as [| x l IH]; intros w out H Hy; simpl in H.
  - injection H as <- <-. contradiction.
  - apply bind_inv in H as [b [w1 [Hx H]]].
    apply bind_inv in H as [bs [w2 [Hl H]]]. injection H as <- <-.
    destruct Hy as [<- | Hy].
    + exists x, w, w1. split; [now left | exact Hx].
    + destruct (IH _ _ Hl Hy) as [x' [wa [wb [Hx' Hf]]]].
      exists x', wa, wb. split; [now right | exact Hf].
Qed.

Lemma round_label_truthy (r : Z) :
  truthy (JStr (Z_to_string r ++ ". Spieltag")) = true.
Proof.
  simpl. destruct (Z_to_string r); reflexivity.
Qed.

(** X20: every match in the response of the route stems from a record of
    the slice of the current round that the display filter admitted; it
    carries the label of the current round, the German Bundesliga
    descriptor and odds.  Its status is the normalizer's, not the display
    status of the route: it is FINISHED only when the finished flag of the
    record is truthy. *)
Theorem GET_matches_response (allMatches : list json) (w : World) (r : Z)
    (out : list Normalizer.NormalizedMatch) :
  fst (BundesligaGET.GET_matches allMatches w) = Ok (r, out) ->
  6 <= r <= 35
  /\ forall m, In m out ->
       Normalizer.round m = JStr (Z_to_string r ++ ". Spieltag")
       /\ Normalizer.league m = Normalizer.LEAGUE_CONFIGS.GERMAN_BUNDESLIGA
       /\ truthy (Normalizer.bestOdds m) = true
       /\ exists rec,
            In rec (BundesligaGET.getMatchesForRound allMatches r)
            /\ Normalizer.id m = opt_get rec "id"
            /\ BundesligaRoute.GET_displayStatus (clock w (clock_reads w))
                 (routeDate (host w) rec) <> None
            /\ (Normalizer.status m = JStr "FINISHED" ->
                truthy (opt_get (opt_get rec "status") "finished") = true).
Proof.
  intros H.
  destruct (BundesligaGET.GET_matches allMatches w) as [res w'] eqn:E.
  simpl in H. subst res. unfold BundesligaGET.GET_matches in E.
  apply bind_inv in E as [now [w1 [Hnow E]]].
  unfold Date_now in Hnow. injection Hnow as <- <-.
  apply bind_inv in E as [r0 [w1 [Hr E]]].
  unfold BundesligaGET.findCurrentRound in Hr.
  apply roundLoop_spec in Hr as [-> [Hr _]].
  cbv zeta in E.
  apply bind_inv in E as [filtered [w1 [Hf E]]].
  apply filterLoop_inv in Hf as [-> Hf].
  apply bind_inv in E as [nmz [w1 [Hn E]]].
  apply bind_inv in E as [withOdds [w2 [Ho E]]].
  injection E as <- <- <-.
  split; [lia |]. intros m Hm.
  destruct (mapM_In_inv _ _ _ _ _ _ Ho Hm) as [m0 [wa [wb [Hm0 Ha]]]].
  apply addMockOdds_inv in Ha as [Hodds [Hid [Hleague [_ [Hstatus Hround]]]]].
  assert (Hrun : fst (Normalizer.normalizeMatches filtered "german-bundesliga"
                        Normalizer.LEAGUE_CONFIGS.GERMAN_BUNDESLIGA
                        (JStr (Z_to_string r0 ++ ". Spieltag"))
                        (mkWorld (host w) (clock w) (random w) (S (clock_reads w))
                           (random_draws w) (console w))) = Ok nmz)
    by now rewrite Hn.
  destruct (normalizeMatches_parsing_inv _ "german-bundesliga" _ _ _ _ eq_refl Hrun)
    as [n [_ Hall]].
  destruct (Hall m0 Hm0) as [_ [rec' [w0 [w0' [Hrec' [_ [_ [_ Hnorm]]]]]]]].
  change (normalizerOf "german-bundesliga" Normalizer.LEAGUE_CONFIGS.GERMAN_BUNDESLIGA
            (JStr (Z_to_string r0 ++ ". Spieltag")) rec')
    with (Normalizer.normalizeGermanBundesligaMatch rec'
            Normalizer.LEAGUE_CONFIGS.GERMAN_BUNDESLIGA
            (JStr (Z_to_string r0 ++ ". Spieltag"))) in Hnorm.
  apply bundesliga_fields in Hnorm as [Nid [Nleague [Nround [_ Nstatus]]]].
  destruct (Hf rec' Hrec') as [rec [ds [Hrec [Hs [Hds ->]]]]].
  cbn [host clock clock_reads] in Hds.
  rewrite Hround, Nround, Hleague, Nleague.
  unfold or_else at 1. rewrite round_label_truthy.
  split; [reflexivity |]. split; [reflexivity |]. split; [exact Hodds |].
  exists rec. split; [exact Hrec |]. split.
  - rewrite Hid, Nid. apply opt_get_spread_other; [exact Hs | discriminate].
  - split; [now rewrite Hds |].
    rewrite Hstatus. intros Hfin. specialize (Nstatus Hfin).
    rewrite opt_get_spread_other in Nstatus by (assumption || discriminate).
    exact Nstatus.
Qed.

Lemma GET_matches_response_witness :
  exists out,
    fst (BundesligaGET.GET_matches cacheInRound7 (worldAt utcHost scenarioNow 0))
    = Ok (7, out)
    /\ out <> []
    /\ forall m, In m out ->
         Normalizer.round m = JStr "7. Spieltag"
         /\ Normalizer.league m = Normalizer.LEAGUE_CONFIGS.GERMAN_BUNDESLIGA
         /\ truthy (Normalizer.bestOdds m) = true
         /\ exists rec,
              In rec (BundesligaGET.getMatchesForRound cacheInRound7 7)
              /\ Normalizer.id m = opt_get rec "id"
              /\ BundesligaRoute.GET_displayStatus scenarioNow (routeDate utcHost rec)
                 <> None
              /\ (Normalizer.status m = JStr "FINISHED" ->
                  truthy (opt_get (opt_get rec "status") "finished") = true).
Proof.
  eexists. split; [vm_compute; reflexivity |]. split; [discriminate |].
  apply (GET_matches_response cacheInRound7 (worldAt utcHost scenarioNow 0) 7).
  vm_compute. reflexivity.
Defined.

(** X21: with a cache of at most 44 matches the route answers round 6
    with no matches, whatever the records are: none of them is read. *)
Theorem GET_matches_short_cache (allMatches : list json) (w : World) :
  (List.length allMatches <= 44)%nat ->
  fst (BundesligaGET.GET_matches allMatches w) = Ok (6, []).
Proof.
  intros Hlen.
  assert (He : BundesligaGET.getMatchesForRound allMatches 6 = []).
  { unfold BundesligaGET.getMatchesForRound. simpl Z.eqb. cbv iota.
    rewrite slice_nonneg by lia. rewrite skipn_all2 by lia. apply firstn_nil. }
  unfold BundesligaGET.GET_matches, BundesligaGET.findCurrentRound.
  cbn [BundesligaGET.roundLoop]. cbv zeta. rewrite He.
  unfold bind at 1. unfold Date_now. cbv beta iota.
  unfold bind at 1. unfold ret at 1. cbv beta iota. rewrite He. reflexivity.
Qed.

Lemma GET_matches_short_cache_witness :
  fst (BundesligaGET.GET_matches [unreadableMatch; JNull]
         (worldAt utcHost scenarioNow 0)) = Ok (6, []).
Proof.
  apply (GET_matches_short_cache [unreadableMatch; JNull]
           (worldAt utcHost scenarioNow 0)).
  simpl; lia.
Defined.

